(** * Execuxion persistence layer: integrity store, storage manager,
      save queue and workflow-collection repair.

    A shallow embedding of
      - [SecureStore]            (HMAC-protected electron-store wrapper),
      - [StorageManager]         (src/utils/StorageManager.js),
      - the [saveToStorage] plugin (src/lib/pinia.js),
      - [convertWorkflowsToObject] (src/stores/workflow.js),
    over a model of the JavaScript values these functions handle. *)

From Stdlib Require Import ZArith Lia.
From stdpp Require Import gmap strings list pretty sorting.

Set Default Proof Using "Type".
Set Warnings "-register-all".
Local Open Scope Z_scope.

(* ===================================================================== *)
(** * JavaScript values *)
(* ===================================================================== *)

Module JS.

(** The values that reach the persistence layer.  Numbers are the
    integer-valued ones (printed in decimal by [JSON.stringify]); an
    object is its list of own properties in property order, which is what
    [Object.keys], spread and [JSON.stringify] observe (keys that are
    array indices, which engines move to the front, are outside the
    model).  [VBigInt] is the one value here on which [JSON.stringify]
    throws. *)
Inductive value : Type :=
  | VUndefined
  | VNull
  | VBool (b : bool)
  | VNumber (n : Z)
  | VBigInt (n : Z)
  | VString (s : string)
  | VArray (items : list value)
  | VObject (fields : list (string * value)).

(** A thrown [Error]: its message. *)
Inductive error : Type := Error (message : string).

Definition message (e : error) : string := let 'Error m := e in m.

(** Outcome of a call that may throw. *)
Inductive result (A : Type) : Type :=
  | Ok (a : A)
  | Throw (e : error).
Arguments Ok {A} a.
Arguments Throw {A} e.

Definition is_ok {A} (r : result A) : bool :=
  match r with Ok _ => true | Throw _ => false end.

#[global] Instance result_fmap : FMap result := fun A B f r =>
  match r with Ok a => Ok (f a) | Throw e => Throw e end.

(** [typeof v] *)
Definition typeof (v : value) : string :=
  match v with
  | VUndefined => "undefined"
  | VNull => "object"
  | VBool _ => "boolean"
  | VNumber _ => "number"
  | VBigInt _ => "bigint"
  | VString _ => "string"
  | VArray _ => "object"
  | VObject _ => "object"
  end.

(** ToBoolean *)
Definition truthy (v : value) : bool :=
  match v with
  | VUndefined | VNull => false
  | VBool b => b
  | VNumber n | VBigInt n => negb (n =? 0)
  | VString s => negb (String.eqb s "")
  | VArray _ | VObject _ => true
  end.

Definition isArray (v : value) : bool :=
  match v with VArray _ => true | _ => false end.

(** [typeof v === 'object'] *)
Definition is_object_type (v : value) : bool := String.eqb (typeof v) "object".

(** Own-property lookup in a property list. *)
Fixpoint assoc (k : string) (fs : list (string * value)) : option value :=
  match fs with
  | [] => None
  | (k', x) :: tl => if String.eqb k' k then Some x else assoc k tl
  end.

(** [v.k] for a named (non-index, non-[length]) property [k] of a value
    that is not [null] or [undefined]: only objects carry such
    properties. *)
Definition prop (v : value) (k : string) : value :=
  match v with
  | VObject fs => default VUndefined (assoc k fs)
  | _ => VUndefined
  end.

(** [k in v], for an object or array [v] and a named property [k]. *)
Definition has_prop (k : string) (v : value) : bool :=
  match v with
  | VObject fs => bool_decide (is_Some (assoc k fs))
  | _ => false
  end.

(** [o[k] = x] on a property list: an existing property keeps its place,
    a new one goes last. *)
Fixpoint assign (k : string) (x : value) (fs : list (string * value))
  : list (string * value) :=
  match fs with
  | [] => [(k, x)]
  | (k', y) :: tl =>
      if String.eqb k' k then (k', x) :: tl else (k', y) :: assign k x tl
  end.

(** [{ ...a, ...b }] on property lists. *)
Definition spread (a b : list (string * value)) : list (string * value) :=
  foldl (fun acc kv => assign kv.1 kv.2 acc) a b.

(** [const { k: _, ...rest } = o] *)
Definition without (k : string) (fs : list (string * value))
  : list (string * value) :=
  filter (fun kv => kv.1 <> k) fs.

(** [Object.keys] of an object. *)
Definition keys (fs : list (string * value)) : list string := fs.*1.

(** The own enumerable properties that [Object.entries(v)] and
    [{ ...v }] see: those of an object, the indexed elements of an
    array, none of a primitive other than a string. *)
Definition entries (v : value) : list (string * value) :=
  match v with
  | VObject fs => fs
  | VArray xs => imap (fun i x => (pretty i, x)) xs
  | VString s =>
      imap (fun i c => (pretty i, VString (String c ""))) (String.list_ascii_of_string s)
  | _ => []
  end.

(** ToString, as a computed property key [o[v]] applies it. *)
Fixpoint to_string (v : value) : string :=
  match v with
  | VUndefined => "undefined"
  | VNull => "null"
  | VBool b => if b then "true" else "false"
  | VNumber n | VBigInt n => pretty n
  | VString s => s
  | VArray xs =>
      String.concat ","
        ((fix each (l : list value) : list string :=
            match l with
            | [] => []
            | x :: tl =>
                match x with
                | VUndefined | VNull => ""
                | _ => to_string x
                end :: each tl
            end) xs)
  | VObject _ => "[object Object]"
  end.

(** ** JSON.stringify *)

Definition hex_digit (n : N) : Ascii.ascii :=
  Ascii.ascii_of_N (if (n <? 10)%N then 48 + n else 87 + n)%N.

(** QuoteJSONString on one code unit. *)
Definition escape_char (c : Ascii.ascii) : string :=
  let n := Ascii.N_of_ascii c in
  if (n =? 8)%N then "\b"
  else if (n =? 9)%N then "\t"
  else if (n =? 10)%N then "\n"
  else if (n =? 12)%N then "\f"
  else if (n =? 13)%N then "\r"
  else if (n =? 34)%N then String (Ascii.ascii_of_N 92) (String c "")
  else if (n =? 92)%N then "\\"
  else if (n <? 32)%N then
    "\u00" +:+ String (hex_digit (n / 16)) (String (hex_digit (n mod 16)) "")
  else String c "".

Fixpoint escape (s : string) : string :=
  match s with
  | EmptyString => ""
  | String c tl => escape_char c +:+ escape tl
  end.

Definition dquote : string := String (Ascii.ascii_of_N 34) "".

Definition quote (s : string) : string := dquote +:+ escape s +:+ dquote.

(** SerializeJSONProperty: [Ok None] is the result [undefined]. *)
Fixpoint stringify (v : value) : result (option string) :=
  match v with
  | VUndefined => Ok None
  | VNull => Ok (Some "null")
  | VBool b => Ok (Some (if b then "true" else "false"))
  | VNumber n => Ok (Some (pretty n))
  | VBigInt _ => Throw (Error "Do not know how to serialize a BigInt")
  | VString s => Ok (Some (quote s))
  | VArray xs =>
      let elems :=
        (fix elems (l : list value) : result (list string) :=
           match l with
           | [] => Ok []
           | x :: tl =>
               match stringify x with
               | Throw e => Throw e
               | Ok o =>
                   match elems tl with
                   | Throw e => Throw e
                   | Ok r => Ok (default "null" o :: r)
                   end
               end
           end) xs in
      match elems with
      | Throw e => Throw e
      | Ok r => Ok (Some ("[" +:+ String.concat "," r +:+ "]"))
      end
  | VObject fs =>
      let members :=
        (fix members (l : list (string * value)) : result (list string) :=
           match l with
           | [] => Ok []
           | (k, x) :: tl =>
               match stringify x with
               | Throw e => Throw e
               | Ok o =>
                   match members tl with
                   | Throw e => Throw e
                   | Ok r =>
                       match o with
                       | None => Ok r
                       | Some s => Ok ((quote k +:+ ":" +:+ s) :: r)
                       end
                   end
               end
           end) fs in
      match members with
      | Throw e => Throw e
      | Ok r => Ok (Some ("{" +:+ String.concat "," r +:+ "}"))
      end
  end.

(** [JSON.parse(JSON.stringify(v))] when [JSON.stringify(v)] is a string:
    properties that serialize to [undefined] are dropped, such array
    elements become [null]. *)
Fixpoint reparse (v : value) : value :=
  match v with
  | VArray xs =>
      VArray ((fix each (l : list value) : list value :=
                 match l with
                 | [] => []
                 | x :: tl =>
                     match x with
                     | VUndefined => VNull
                     | _ => reparse x
                     end :: each tl
                 end) xs)
  | VObject fs =>
      VObject ((fix each (l : list (string * value)) : list (string * value) :=
                  match l with
                  | [] => []
                  | (k, x) :: tl =>
                      match x with
                      | VUndefined => each tl
                      | _ => (k, reparse x) :: each tl
                      end
                  end) fs)
  | _ => v
  end.

(** [JSON.parse(JSON.stringify(v))]: throws what [JSON.stringify] throws,
    and a [SyntaxError] on the text [undefined]. *)
Definition json_clone (v : value) : result value :=
  match stringify v with
  | Throw e => Throw e
  | Ok None => Throw (Error "undefined is not valid JSON")
  | Ok (Some _) => Ok (reparse v)
  end.

(** The loops inside [stringify] and [reparse], by name. *)
Fixpoint stringify_elements (l : list value) : result (list string) :=
  match l with
  | [] => Ok []
  | x :: tl =>
      match stringify x with
      | Throw e => Throw e
      | Ok o =>
          match stringify_elements tl with
          | Throw e => Throw e
          | Ok r => Ok (default "null" o :: r)
          end
      end
  end.

Fixpoint stringify_members (l : list (string * value)) : result (list string) :=
  match l with
  | [] => Ok []
  | (k, x) :: tl =>
      match stringify x with
      | Throw e => Throw e
      | Ok o =>
          match stringify_members tl with
          | Throw e => Throw e
          | Ok r =>
              match o with
              | None => Ok r
              | Some s => Ok ((quote k +:+ ":" +:+ s) :: r)
              end
          end
      end
  end.

Definition reparse_element (x : value) : value :=
  match x with VUndefined => VNull | _ => reparse x end.

Fixpoint reparse_members (l : list (string * value)) : list (string * value) :=
  match l with
  | [] => []
  | (k, x) :: tl =>
      match x with
      | VUndefined => reparse_members tl
      | _ => (k, reparse x) :: reparse_members tl
      end
  end.

End JS.

Import JS.

(* ===================================================================== *)
(** * The digest functions imported from crypto-js *)
(* ===================================================================== *)

(** [SecureStore] imports [SHA256] and [HmacSHA256] from crypto-js and is
    otherwise independent of them; its definitions below take them as
    parameters.  This module is the instance the concrete examples run
    on: SHA-256 (FIPS 180-4) and HMAC (RFC 2104) over byte lists, with
    32-bit words as [Z] reduced modulo [2^32]. *)
Module Crypto.

Definition wrap32 (x : Z) : Z := x mod 2 ^ 32.
Definition add32 (x y : Z) : Z := wrap32 (x + y).
Definition rotr (n x : Z) : Z :=
  Z.lor (Z.shiftr x n) (wrap32 (Z.shiftl x (32 - n))).
Definition not32 (x : Z) : Z := Z.lxor x 0xffffffff.

Definition Ch (x y z : Z) : Z := Z.lxor (Z.land x y) (Z.land (not32 x) z).
Definition Maj (x y z : Z) : Z :=
  Z.lxor (Z.lxor (Z.land x y) (Z.land x z)) (Z.land y z).
Definition Sigma0 (x : Z) : Z := Z.lxor (Z.lxor (rotr 2 x) (rotr 13 x)) (rotr 22 x).
Definition Sigma1 (x : Z) : Z := Z.lxor (Z.lxor (rotr 6 x) (rotr 11 x)) (rotr 25 x).
Definition sigma0 (x : Z) : Z := Z.lxor (Z.lxor (rotr 7 x) (rotr 18 x)) (Z.shiftr x 3).
Definition sigma1 (x : Z) : Z := Z.lxor (Z.lxor (rotr 17 x) (rotr 19 x)) (Z.shiftr x 10).

(** The first 64 primes. *)
Definition is_prime (n : nat) : bool :=
  forallb (fun d => negb (n mod d =? 0)%nat) (seq 2 (n - 2)).

Definition primes : list Z := Z.of_nat <$> filter is_prime (seq 2 310).

(** Integer cube root, one bit at a time. *)
Definition root3 (n : Z) : Z :=
  foldl (fun r i => let c := r + 2 ^ Z.of_nat i in if c ^ 3 <=? n then c else r)
        0 (rev (seq 0 36)).

(** The round constants: the first 32 bits of the fractional parts of the
    cube roots of the primes. *)
Definition K : list Z :=
  Eval vm_compute in (fun p => root3 (p * 2 ^ 96) mod 2 ^ 32) <$> primes.

(** The eight working words. *)
Record hash : Type := Hash { ha : Z; hb : Z; hc : Z; hd : Z; he : Z; hf : Z; hg : Z; hh : Z }.

(** The initial hash value: the first 32 bits of the fractional parts of
    the square roots of the first eight primes. *)
Definition frac_sqrt (i : nat) : Z := Z.sqrt (default 0 (primes !! i) * 2 ^ 64) mod 2 ^ 32.

Definition H0 : hash :=
  Eval vm_compute in
    Hash (frac_sqrt 0) (frac_sqrt 1) (frac_sqrt 2) (frac_sqrt 3)
         (frac_sqrt 4) (frac_sqrt 5) (frac_sqrt 6) (frac_sqrt 7).

Definition at_ (w : list Z) (i : nat) : Z := default 0 (w !! i).

(** Message schedule: extend the sixteen words of a block by [n] more. *)
Fixpoint schedule (n : nat) (w : list Z) : list Z :=
  match n with
  | O => w
  | S n' =>
      let t := length w in
      schedule n'
        (w ++ [add32 (add32 (sigma1 (at_ w (t - 2))) (at_ w (t - 7)))
                     (add32 (sigma0 (at_ w (t - 15))) (at_ w (t - 16)))])
  end.

Definition round (s : hash) (kw : Z * Z) : hash :=
  let t1 := add32 (add32 (add32 (hh s) (Sigma1 (he s))) (Ch (he s) (hf s) (hg s)))
                  (add32 kw.1 kw.2) in
  let t2 := add32 (Sigma0 (ha s)) (Maj (ha s) (hb s) (hc s)) in
  Hash (add32 t1 t2) (ha s) (hb s) (hc s) (add32 (hd s) t1) (he s) (hf s) (hg s).

Definition compress (h : hash) (block : list Z) : hash :=
  let s := foldl round h (zip K (schedule 48 block)) in
  Hash (add32 (ha h) (ha s)) (add32 (hb h) (hb s)) (add32 (hc h) (hc s))
       (add32 (hd h) (hd s)) (add32 (he h) (he s)) (add32 (hf h) (hf s))
       (add32 (hg h) (hg s)) (add32 (hh h) (hh s)).

Definition be_bytes (n : nat) (x : Z) : list Z :=
  map (fun i => Z.land (Z.shiftr x (8 * Z.of_nat i)) 255) (rev (seq 0 n)).

Definition pad (msg : list Z) : list Z :=
  let len := Z.of_nat (length msg) in
  msg ++ [0x80] ++ replicate (Z.to_nat ((55 - len) mod 64)) 0 ++ be_bytes 8 (8 * len).

Fixpoint words (bs : list Z) : list Z :=
  match bs with
  | a :: b :: c :: d :: tl =>
      Z.lor (Z.shiftl a 24) (Z.lor (Z.shiftl b 16) (Z.lor (Z.shiftl c 8) d)) :: words tl
  | _ => []
  end.

Fixpoint blocks (fuel : nat) (h : hash) (ws : list Z) : hash :=
  match fuel, ws with
  | S fuel', _ :: _ => blocks fuel' (compress h (take 16 ws)) (drop 16 ws)
  | _, _ => h
  end.

Definition digest_bytes (h : hash) : list Z :=
  be_bytes 4 (ha h) ++ be_bytes 4 (hb h) ++ be_bytes 4 (hc h) ++ be_bytes 4 (hd h) ++
  be_bytes 4 (he h) ++ be_bytes 4 (hf h) ++ be_bytes 4 (hg h) ++ be_bytes 4 (hh h).

(** A word array: its bytes. *)
Definition WordArray : Type := list Z.

Definition sha256 (msg : list Z) : WordArray :=
  let ws := words (pad msg) in
  digest_bytes (blocks (length ws) H0 ws).

Definition hmac_sha256 (key msg : list Z) : WordArray :=
  let k := if bool_decide (64 < length key)%nat then sha256 key else key in
  let k := k ++ replicate (64 - length k) 0 in
  sha256 (map (Z.lxor 0x5c) k ++ sha256 (map (Z.lxor 0x36) k ++ msg)).

(** The bytes of a string (the strings of this development are ASCII). *)
Definition utf8 (s : string) : list Z :=
  map (fun c => Z.of_N (Ascii.N_of_ascii c)) (String.list_ascii_of_string s).

Definition hex_byte (b : Z) : list Ascii.ascii :=
  [hex_digit (Z.to_N (Z.land (Z.shiftr b 4) 15)); hex_digit (Z.to_N (Z.land b 15))].

(** [SHA256(message)] *)
Definition SHA256 (message : string) : WordArray := sha256 (utf8 message).

(** [HmacSHA256(message, key)]; an [undefined] or empty message adds
    nothing to the hashed input. *)
Definition HmacSHA256 (message : option string) (key : WordArray) : WordArray :=
  hmac_sha256 key (utf8 (default "" message)).

(** [wordArray.toString()]: lower-case hex. *)
Definition toString (w : WordArray) : string :=
  String.string_of_list_ascii (concat (map hex_byte w)).

End Crypto.



(* ===================================================================== *)
(** * SecureStore: the HMAC-protected store *)
(* ===================================================================== *)

Module SecureStore.

(** The record [_logIntegrityFailure] builds. *)
Record incident : Type := Incident {
  timestamp : Z;
  store : string;
  key : string;
  error : string;
  type : string
}.

(** What a call writes to the console. *)
Inductive event : Type :=
  | HmacVerificationFailed (key expected actual : string)
      (** the three lines of [_unwrapWithHmac]: key and the two 16-character prefixes *)
  | FailedToSet (key : string) (e : JS.error)
  | ReturningDefault (key : string)
      (** the two lines of the [catch] of [get] *)
  | SecurityIncident (i : incident).

Section SecureStore.

(** crypto-js *)
Context {WordArray : Type}.
Variable SHA256 : string -> WordArray.
Variable HmacSHA256 : option string -> WordArray -> WordArray.
Variable toString : WordArray -> string.

(** electron-store: the state of the inner store and its [get] and
    [set], either of which may throw. *)
Context {Store : Type}.
Variable Store_get : Store -> string -> result value.
Variable Store_set : Store -> string -> value -> Store * result unit.

Record t : Type := SecureStore {
  innerStore : Store;
  encryptionKey : string;
  name : string;
  _migrated : bool
}.

Definition _computeHmac (this : t) (value : value) : result string :=
  match stringify value with
  | Throw e => Throw e
  | Ok serialized =>
      Ok (toString (HmacSHA256 serialized (SHA256 (encryptionKey this))))
  end.

(** [v.length] of a string *)
Definition string_length (v : value) : Z :=
  match v with VString s => Z.of_nat (String.length s) | _ => -1 end.

Definition _isHmacWrapped (value : value) : bool :=
  negb (match value with VNull => true | _ => false end)
  && negb (match value with VUndefined => true | _ => false end)
  && is_object_type value
  && negb (isArray value)
  && has_prop "data" value
  && has_prop "hmac" value
  && String.eqb (typeof (prop value "hmac")) "string"
  && (string_length (prop value "hmac") =? 64).

Definition _wrapWithHmac (this : t) (value : value) : result JS.value :=
  if _isHmacWrapped value then Ok value
  else
    match _computeHmac this value with
    | Throw e => Throw e
    | Ok hmac =>
        Ok (VObject [("data", value); ("hmac", VString hmac); ("_v", VNumber 1)])
    end.

Definition prefix16 (s : string) : string := String.substring 0 16 s.

(** The console lines written, and the value returned or error thrown. *)
Definition _unwrapWithHmac (this : t) (wrapped : value) (key : string)
  : list event * result value :=
  if negb (_isHmacWrapped wrapped) then ([], Ok wrapped)
  else
    let data := prop wrapped "data" in
    let hmac := match prop wrapped "hmac" with VString h => h | _ => "" end in
    match _computeHmac this data with
    | Throw e => ([], Throw e)
    | Ok expectedHmac =>
        if negb (String.eqb hmac expectedHmac) then
          ([HmacVerificationFailed key (prefix16 expectedHmac) (prefix16 hmac)],
           Throw (Error ("HMAC verification failed for key: " +:+ key +:+
                         ". Data may be tampered or corrupted.")))
        else ([], Ok data)
    end.

(** [now] is the clock reading of [new Date()]. *)
Definition _logIntegrityFailure (this : t) (now : Z) (key : string) (error : JS.error)
  : list event :=
  [SecurityIncident
     {| timestamp := now; store := name this; key := key;
        error := message error; type := "HMAC_VERIFICATION_FAILED" |}].

Definition with_innerStore (this : t) (inner : Store) : t :=
  {| innerStore := inner; encryptionKey := encryptionKey this;
     name := name this; _migrated := _migrated this |}.

(** [set]: the store after the call, the console lines, and the value
    returned or error thrown. *)
Definition set (this : t) (key : string) (value : value)
  : t * list event * result bool :=
  let '(this', tried) :=
    (* try *)
    match _wrapWithHmac this value with
    | Throw e => (this, Throw e)
    | Ok wrapped =>
        let '(inner, r) := Store_set (innerStore this) key wrapped in
        (with_innerStore this inner,
         match r with Ok _ => Ok true | Throw e => Throw e end)
    end in
  match tried with
  | Ok b => (this', [], Ok b)
  | Throw error => (this', [FailedToSet key error], Ok false)
  end.

(** [get]: the console lines and the value returned or error thrown. *)
Definition get (this : t) (now : Z) (key : string) (defaultValue : value)
  : list event * result value :=
  let tried :=
    (* try *)
    match Store_get (innerStore this) key with
    | Throw e => ([], Throw e)
    | Ok wrapped =>
        if match wrapped with VUndefined => true | _ => false end
        then ([], Ok defaultValue)
        else _unwrapWithHmac this wrapped key
    end in
  match tried with
  | (log, Ok data) => (log, Ok data)
  | (log, Throw error) =>
      (log ++ [ReturningDefault key] ++ _logIntegrityFailure this now key error,
       Ok defaultValue)
  end.

(** crypto-js prints a SHA-256 tag as 64 hex characters. *)
Definition tag_is_64_hex : Prop :=
  forall m k, String.length (toString (HmacSHA256 m k)) = 64%nat.

(** The incident records among the console output. *)
Definition incidents (log : list event) : list incident :=
  omap (fun e => match e with SecurityIncident i => Some i | _ => None end) log.

End SecureStore.

Arguments t : clear implicits.

(** ** Migration, the whole store, and the thin wrappers *)

(** What these write to the console: the lines of [_unwrapWithHmac]
    above, and their own. *)
Inductive line : Type :=
  | Core (e : event)
  | CheckingMigration
  | Migrated (key : string)
  | FailedToMigrate (key : string) (e : JS.error)
  | MigrationComplete (migrated skipped failed : nat)
  | SkippingCorrupted (key : string)
  | FailedToDelete (key : string) (e : JS.error)
  | FailedToClear (e : JS.error).

(** The report of [migrateToHmac]. *)
Record report : Type := Report { migrated : nat; skipped : nat; failed : nat }.

(** The incident records among these lines, and the keys reported as
    skipped. *)
Definition line_incidents (log : list line) : list incident :=
  omap (fun l => match l with Core (SecurityIncident i) => Some i | _ => None end) log.

Definition skipped_keys (log : list line) : list string :=
  omap (fun l => match l with SkippingCorrupted k => Some k | _ => None end) log.

Section Migration.

Context {WordArray : Type}.
Variable SHA256 : string -> WordArray.
Variable HmacSHA256 : option string -> WordArray -> WordArray.
Variable toString : WordArray -> string.

(** electron-store: besides [get] and [set], the [store] getter (all
    entries), [delete], [clear] and [has]. *)
Context {Store : Type}.
Variable Store_get : Store -> string -> result value.
Variable Store_set : Store -> string -> value -> Store * result unit.
Variable Store_store : Store -> result (list (string * value)).
Variable Store_delete : Store -> string -> Store * result unit.
Variable Store_clear : Store -> Store * result unit.
Variable Store_has : Store -> string -> result bool.

(** [_migrateKey]: everything is inside its [try], so it returns. *)
Definition _migrateKey (this : t Store) (key : string) : t Store * list line * bool :=
  match Store_get (innerStore this) key with
  | Throw error => (this, [FailedToMigrate key error], false)
  | Ok rawValue =>
      if match rawValue with VUndefined => true | _ => false end
         || _isHmacWrapped rawValue
      then (this, [], false)
      else
        match _wrapWithHmac SHA256 HmacSHA256 toString this rawValue with
        | Throw error => (this, [FailedToMigrate key error], false)
        | Ok wrapped =>
            let '(inner, r) := Store_set (innerStore this) key wrapped in
            match r with
            | Ok _ => (with_innerStore this inner, [Migrated key], true)
            | Throw error =>
                (with_innerStore this inner, [FailedToMigrate key error], false)
            end
        end
  end.

(** The body of [keys.forEach] in [migrateToHmac], on the counters; its
    own [catch] has nothing to catch, since neither [_isHmacWrapped] nor
    [_migrateKey] throws. *)
Definition migrate_one (allData : list (string * value))
    (acc : t Store * list line * report) (key : string) : t Store * list line * report :=
  let '(this, log, counts) := acc in
  let value := prop (VObject allData) key in
  if _isHmacWrapped value then
    (this, log, Report (migrated counts) (S (skipped counts)) (failed counts))
  else
    let '(this', log', success) := _migrateKey this key in
    if success
    then (this', log ++ log', Report (S (migrated counts)) (skipped counts) (failed counts))
    else (this', log ++ log', Report (migrated counts) (skipped counts) (S (failed counts))).

Definition migrateToHmac (this : t Store) : t Store * list line * result report :=
  if _migrated this then (this, [], Ok (Report 0 0 0))
  else
    match Store_store (innerStore this) with
    | Throw e => (this, [CheckingMigration], Throw e)
    | Ok allData =>
        let '(this', log, counts) :=
          foldl (migrate_one allData) (this, [CheckingMigration], Report 0 0 0)
                (keys allData) in
        ({| innerStore := innerStore this'; encryptionKey := encryptionKey this';
            name := name this'; _migrated := true |},
         log ++ [MigrationComplete (migrated counts) (skipped counts) (failed counts)],
         Ok counts)
    end.

(** The [store] getter: every entry that verifies, unwrapped. *)
Definition get_store (this : t Store) : list line * result (list (string * value)) :=
  match Store_store (innerStore this) with
  | Throw e => ([], Throw e)
  | Ok allData =>
      let '(log, verified) :=
        foldl (fun (acc : list line * list (string * value)) (entry : string * value) =>
                 let '(log, verified) := acc in
                 match _unwrapWithHmac SHA256 HmacSHA256 toString this entry.2 entry.1 with
                 | (l, Ok data) => (log ++ (Core <$> l), assign entry.1 data verified)
                 | (l, Throw _) =>
                     (log ++ (Core <$> l) ++ [SkippingCorrupted entry.1], verified)
                 end)
              ([], []) allData in
      (log, Ok verified)
  end.

Definition delete (this : t Store) (key : string) : t Store * list line * result bool :=
  let '(inner, r) := Store_delete (innerStore this) key in
  match r with
  | Ok _ => (with_innerStore this inner, [], Ok true)
  | Throw error => (with_innerStore this inner, [FailedToDelete key error], Ok false)
  end.

Definition clear (this : t Store) : t Store * list line * result bool :=
  let '(inner, r) := Store_clear (innerStore this) in
  match r with
  | Ok _ => (with_innerStore this inner, [], Ok true)
  | Throw error => (with_innerStore this inner, [FailedToClear error], Ok false)
  end.

(** [has] has no [try]: what the inner store throws, it throws. *)
Definition has (this : t Store) (key : string) : result bool :=
  Store_has (innerStore this) key.

(** The value [_unwrapWithHmac] returns for a stored entry, if it returns. *)
Definition verified_value (this : t Store) (key : string) (stored : value) : option value :=
  match (_unwrapWithHmac SHA256 HmacSHA256 toString this stored key).2 with
  | Ok v => Some v
  | Throw _ => None
  end.

(** Whether [_unwrapWithHmac] throws on a stored entry. *)
Definition fails_verification (this : t Store) (entry : string * value) : bool :=
  negb (is_ok (_unwrapWithHmac SHA256 HmacSHA256 toString this entry.2 entry.1).2).

(** What [_migrateKey] leaves under a key that held [v]. *)
Definition migrated_value (this : t Store) (v : value) : value :=
  if match v with VUndefined => true | _ => false end || _isHmacWrapped v then v
  else
    match _wrapWithHmac SHA256 HmacSHA256 toString this v with
    | Ok wrapped => wrapped
    | Throw _ => v
    end.

(** An inner store that behaves as a map: [store] gives its entries,
    [get] reads them, [set] returns and assigns. *)
Definition obeys_get_set : Prop :=
  (forall s d k, Store_store s = Ok d -> Store_get s k = Ok (prop (VObject d) k))
  /\ (forall s d k w, Store_store s = Ok d ->
        exists s', Store_set s k w = (s', Ok tt) /\ Store_store s' = Ok (assign k w d)).

End Migration.

End SecureStore.

(* ===================================================================== *)
(** * StorageManager *)
(* ===================================================================== *)

Module StorageManager.

Definition MAX_RETRIES : nat := 3.
Definition BACKUP_PREFIX : string := "__backup__".
Definition MIGRATION_VERSION_KEY : string := "__storage_version__".
Definition CURRENT_VERSION : string := "1.0.0".

(** The argument of [browser.storage.local.get]. *)
Inductive query : Type :=
  | All                       (** [get(null)] *)
  | Key (k : string)
  | Keys (ks : list string).

(** What a call leaves behind besides the store: the lines it writes to
    the console, by the message they carry, and the pauses of [_sleep]. *)
Inductive event : Type :=
  | VersionInitialized (version : string)
  | MigrationNeeded (currentVersion : value) (target : string)
  | ApplyingMigration (version : string)
  | MigrationComplete (version : string)
  | MigrationFailed (e : JS.error)
  | BackupCreated (key : string)
  | BackupFailed (key : string) (e : JS.error)
  | Restored (key : string) (isoTimestamp : string)
  | NoBackupFound (key : string)
  | RestoreFailed (key : string) (e : JS.error)
  | ReadRetry (n : nat) (backoffDelay : Z) (e : JS.error)
  | ReadFailed (lastError : option JS.error)
  | WriteRetry (n : nat) (backoffDelay : Z) (e : JS.error)
  | WriteFailedRollback (lastError : option JS.error)
  | UserAlert (message : string)
  | Sleep (ms : Z).

(** A migration handler: a function on the whole stored data. *)
Definition handler : Type := list (string * value) -> result (list (string * value)).

Record t : Type := StorageManager {
  isElectron : bool;
  migrationHandlers : list (string * handler)   (** the [Map], in insertion order *)
}.

Definition _registerMigrations : list (string * handler) :=
  [("1.0.0", fun data => Ok data)].

Definition new (isElectron : bool) : t :=
  {| isElectron := isElectron; migrationHandlers := _registerMigrations |}.

Record options : Type := Options { backup : bool; critical : bool }.

(** [options = { backup: true, critical: false }] *)
Definition default_options : options := {| backup := true; critical := false |}.

(** The manager's view of the outside: [World] is the storage area and
    the clock; [console] is what has been written so far. *)
Record state (World : Type) : Type := State { world : World; console : list event }.
Arguments State {World} world console.
Arguments world {World} s.
Arguments console {World} s.

(** Computations over the world that may throw. *)
Definition M (World A : Type) : Type := state World -> state World * result A.

Definition ret {World A} (a : A) : M World A := fun s => (s, Ok a).
Definition throw {World A} (e : JS.error) : M World A := fun s => (s, Throw e).
Definition bind {World A B} (m : M World A) (k : A -> M World B) : M World B :=
  fun s => match m s with
           | (s', Ok a) => k a s'
           | (s', Throw e) => (s', Throw e)
           end.
Definition try_catch {World A} (m : M World A) (h : JS.error -> M World A) : M World A :=
  fun s => match m s with
           | (s', Ok a) => (s', Ok a)
           | (s', Throw e) => h e s'
           end.
Definition emit {World} (e : event) : M World unit :=
  fun s => ({| world := world s; console := console s ++ [e] |}, Ok tt).
Definition lift {World A} (f : World -> World * result A) : M World A :=
  fun s => let '(w, r) := f (world s) in
           ({| world := w; console := console s |}, r).
Definition of_result {World A} (r : result A) : M World A := fun s => (s, r).

Declare Scope js_scope.
Delimit Scope js_scope with js.
Notation "'let*' x ':=' m 'in' k" := (bind m (fun x => k))
  (at level 10, x name, k at level 200) : js_scope.
Notation "m '>>' k" := (bind m (fun _ => k))
  (at level 100, k at level 200, right associativity) : js_scope.
Local Open Scope js_scope.

Section StorageManager.

(** [browser.storage.local] and the clock: [World] is everything
    outside the manager; each call of the storage area moves it and
    returns or throws. *)
Context {World : Type}.
Variable local_get : query -> World -> World * result (list (string * value)).
Variable local_set : list (string * value) -> World -> World * result unit.
Variable Date_now : World -> Z.
(** [new Date(v).toISOString()], which throws on an invalid date *)
Variable toISOString : value -> result string.

Definition now : M World Z := fun s => (s, Ok (Date_now (world s))).

(** [for (const x of xs) await f(x)] *)
Fixpoint for_each {A B} (xs : list A) (f : A -> M World B) : M World unit :=
  match xs with
  | [] => ret tt
  | x :: tl => f x >> for_each tl f
  end.

Definition _sleep (ms : Z) : M World unit := emit (Sleep ms).

Definition _notifyUser (this : t) (message : string) : M World unit :=
  emit (UserAlert message).

Definition save_failed : string :=
  "Failed to save data. Please try again or restart the application.".

Definition is_undefined (v : value) : bool :=
  match v with VUndefined => true | _ => false end.

(** ** Backups *)

Definition createBackup (key : string) : M World bool :=
  try_catch
    (let* r := lift (local_get (Key key)) in
     let currentValue := prop (VObject r) key in
     if negb (is_undefined currentValue) then
       let backupKey := BACKUP_PREFIX +:+ key in
       let* timestamp := now in
       let backup := VObject [("data", currentValue);
                              ("timestamp", VNumber timestamp);
                              ("version", VString CURRENT_VERSION)] in
       lift (local_set [(backupKey, backup)]) >>
       emit (BackupCreated key) >>
       ret true
     else ret false)
    (fun error => emit (BackupFailed key error) >> ret false).

Definition restoreFromBackup (key : string) : M World bool :=
  try_catch
    (let backupKey := BACKUP_PREFIX +:+ key in
     let* r := lift (local_get (Key backupKey)) in
     let backup := prop (VObject r) backupKey in
     if truthy backup && negb (is_undefined (prop backup "data")) then
       lift (local_set [(key, prop backup "data")]) >>
       let* iso := of_result (toISOString (prop backup "timestamp")) in
       emit (Restored key iso) >>
       ret true
     else
       emit (NoBackupFound key) >>
       ret false)
    (fun error => emit (RestoreFailed key error) >> ret false).

(** ** Retried operations *)

(** [Math.pow(2, MAX_RETRIES - retries) * 100] *)
Definition backoffDelay (retries : nat) : Z :=
  2 ^ Z.of_nat (MAX_RETRIES - retries) * 100.

(** The [while (retries > 0)] loop of [get] and what follows it.
    [lastError] is still unset only when no attempt ran, which
    [MAX_RETRIES = 3] excludes. *)
Fixpoint get_loop (keys : query) (retries : nat) (lastError : option JS.error)
  : M World (list (string * value)) :=
  match retries with
  | O =>
      emit (ReadFailed lastError) >>
      throw (default (Error "undefined") lastError)
  | S retries' =>
      try_catch
        (lift (local_get keys))
        (fun error =>
           (if bool_decide (0 < retries')%nat then
              emit (ReadRetry (MAX_RETRIES - retries') (backoffDelay retries') error) >>
              _sleep (backoffDelay retries')
            else ret tt) >>
           get_loop keys retries' (Some error))
  end.

Definition get (keys : query) : M World (list (string * value)) :=
  get_loop keys MAX_RETRIES None.

(** The [for] loop over [Object.entries(items)] that compares the text
    of each read-back value with the text of the value written. *)
Fixpoint verify (verification items : list (string * value)) : result unit :=
  match items with
  | [] => Ok tt
  | (key, value) :: tl =>
      match stringify (prop (VObject verification) key) with
      | Throw e => Throw e
      | Ok a =>
          match stringify value with
          | Throw e => Throw e
          | Ok b =>
              if bool_decide (a <> b) then
                Throw (Error ("Write verification failed for " +:+ key))
              else verify verification tl
          end
      end
  end.

(** The body of the [try] of [set]: one write, verified when critical. *)
Definition write_once (items : list (string * value)) (options : options) : M World bool :=
  lift (local_set items) >>
  (if critical options then
     let* verification := lift (local_get (Keys (keys items))) in
     of_result (verify verification items)
   else ret tt) >>
  ret true.

(** The [while (retries > 0)] loop of [set] and the rollback after it. *)
Fixpoint set_loop (this : t) (items : list (string * value)) (options : options)
    (retries : nat) (lastError : option JS.error) : M World bool :=
  match retries with
  | O =>
      emit (WriteFailedRollback lastError) >>
      (if backup options || critical options then
         for_each (keys items) restoreFromBackup
       else ret tt) >>
      _notifyUser this save_failed >>
      throw (default (Error "undefined") lastError)
  | S retries' =>
      try_catch
        (write_once items options)
        (fun error =>
           (if bool_decide (0 < retries')%nat then
              emit (WriteRetry (MAX_RETRIES - retries') (backoffDelay retries') error) >>
              _sleep (backoffDelay retries')
            else ret tt) >>
           set_loop this items options retries' (Some error))
  end.

(** The backups [set] takes before it writes. *)
Definition backups (fields : list (string * value)) (options : options) : M World unit :=
  if backup options || critical options then
    for_each (keys fields)
      (fun key =>
         if String.eqb key "workflows" || String.eqb key "savedBlocks"
            || critical options
         then createBackup key else ret false)
  else ret tt.

Definition set (this : t) (items : value) (options : options) : M World bool :=
  if negb (truthy items) || negb (is_object_type items) || isArray items then
    throw (Error "Items must be a non-array object")
  else
    let fields := entries items in
    backups fields options >>
    set_loop this fields options MAX_RETRIES None.

(** ** Migrations *)

(** [Array.from(handlers.keys()).sort()] *)
Definition sorted_versions (this : t) : list string :=
  merge_sort (fun a b : string => String.leb a b) (migrationHandlers this).*1.

(** [versions.indexOf(currentVersion) + 1] *)
Fixpoint indexOf (x : string) (l : list string) : Z :=
  match l with
  | [] => -1
  | y :: tl =>
      if String.eqb y x then 0
      else let i := indexOf x tl in if i <? 0 then -1 else i + 1
  end.

Definition startIndex (currentVersion : value) (versions : list string) : nat :=
  match currentVersion with
  | VString v => Z.to_nat (indexOf v versions + 1)
  | _ => 0%nat
  end.

Definition find_handler (this : t) (version : string) : option handler :=
  snd <$> List.find (fun kv => String.eqb kv.1 version) (migrationHandlers this).

(** The [for] loop over [versions] from [startIndex]. *)
Fixpoint apply_migrations (this : t) (versions : list string)
    (migratedData : list (string * value)) : M World (list (string * value)) :=
  match versions with
  | [] => ret migratedData
  | version :: tl =>
      emit (ApplyingMigration version) >>
      let* migratedData :=
        match find_handler this version with
        | Some migrationFn => of_result (migrationFn migratedData)
        | None => throw (Error "migrationFn is not a function")
        end in
      apply_migrations this tl migratedData
  end.

Definition _runMigrations (this : t) : M World unit :=
  try_catch
    (let* r := lift (local_get (Key MIGRATION_VERSION_KEY)) in
     let currentVersion := prop (VObject r) MIGRATION_VERSION_KEY in
     if negb (truthy currentVersion)
        || match currentVersion with
           | VString v => String.eqb v CURRENT_VERSION
           | _ => false
           end
     then
       if negb (truthy currentVersion) then
         lift (local_set [(MIGRATION_VERSION_KEY, VString CURRENT_VERSION)]) >>
         emit (VersionInitialized CURRENT_VERSION)
       else ret tt
     else
       emit (MigrationNeeded currentVersion CURRENT_VERSION) >>
       let* allData := lift (local_get All) in
       let versions := sorted_versions this in
       let* migratedData :=
         apply_migrations this (drop (startIndex currentVersion versions) versions)
                          (spread [] allData) in
       lift (local_set migratedData) >>
       lift (local_set [(MIGRATION_VERSION_KEY, VString CURRENT_VERSION)]) >>
       emit (MigrationComplete CURRENT_VERSION))
    (fun error =>
       emit (MigrationFailed error) >>
       throw (Error ("Migration failed: " +:+ message error))).

Definition initialize (this : t) : M World unit := _runMigrations this.

(** What the [catch] of a read or write loop adds to the console when
    the failed attempt leaves [retries] more. *)
Definition read_retry (retries : nat) (e : JS.error) : list event :=
  if bool_decide (0 < retries)%nat
  then [ReadRetry (MAX_RETRIES - retries) (backoffDelay retries) e;
        Sleep (backoffDelay retries)]
  else [].

Definition write_retry (retries : nat) (e : JS.error) : list event :=
  if bool_decide (0 < retries)%nat
  then [WriteRetry (MAX_RETRIES - retries) (backoffDelay retries) e;
        Sleep (backoffDelay retries)]
  else [].

(** The versions whose migration was applied, in order. *)
Definition applied (log : list event) : list string :=
  omap (fun e => match e with ApplyingMigration v => Some v | _ => None end) log.

(** The pauses among the console output, in order. *)
Definition sleeps (log : list event) : list Z :=
  omap (fun e => match e with Sleep ms => Some ms | _ => None end) log.

Definition alerts (log : list event) : list string :=
  omap (fun e => match e with UserAlert m => Some m | _ => None end) log.

(** The keys for which [restoreFromBackup] reported an outcome. *)
Definition restore_attempts (log : list event) : list string :=
  omap (fun e => match e with
                 | Restored k _ | NoBackupFound k | RestoreFailed k _ => Some k
                 | _ => None
                 end) log.

(** A read-back that the verification of a critical write rejects, said
    of the data: every value written and every value read back can be
    serialized, and for some key the JSON text of the value read back is
    not the JSON text of the value written. *)
Definition read_back_differs (verification items : list (string * value)) : Prop :=
  Forall (fun kv => is_ok (stringify kv.2) = true
                    /\ is_ok (stringify (prop (VObject verification) kv.1)) = true) items
  /\ Exists (fun kv => stringify (prop (VObject verification) kv.1) <> stringify kv.2) items.

(** What restoring [key] from its backup does to the storage area: it
    reads the backup and, when there is one that holds data, writes that
    data under the key. *)
Definition restored (key : string) (w : World) : World :=
  let backupKey := BACKUP_PREFIX +:+ key in
  match local_get (Key backupKey) w with
  | (w1, Ok r) =>
      let backup := prop (VObject r) backupKey in
      if truthy backup && negb (is_undefined (prop backup "data"))
      then (local_set [(key, prop backup "data")] w1).1
      else w1
  | (w1, Throw _) => w1
  end.

End StorageManager.

(** ** Removal, health check, statistics, validation *)

(** What [getStats] returns (and writes to the console). *)
Record stats : Type := Stats {
  keyCount : nat;
  estimatedSize : nat;
  estimatedSizeKB : string;
  estimatedSizeMB : string;
  stats_keys : list string
}.

(** What these write to the console: pauses as above, and their own
    lines. *)
Inductive line : Type :=
  | Line (e : event)
  | RemoveRetry (n : nat) (backoffDelay : Z) (e : JS.error)
  | RemoveFailed (lastError : option JS.error)
  | StorageStats (s : stats)
  | StatsFailed (e : JS.error)
  | BackupsCleared (n : nat)
  | ClearBackupsFailed (e : JS.error).

(** What [healthCheck] returns. *)
Record health : Type := Health {
  healthy : bool;
  health_timestamp : Z;
  health_message : string;
  health_error : option JS.error
}.

(** What [validateData] returns. *)
Record validation : Type := Validation { valid : bool; errors : list string }.

(** [(size / d).toFixed(2)] for [d] a power of two: the nearest multiple
    of 0.01, the larger of two equally near ones. *)
Definition two_digits (n : Z) : string :=
  if n <? 10 then "0" +:+ pretty n else pretty n.

Definition toFixed2 (size d : Z) : string :=
  let n := (size * 200 + d) / (2 * d) in
  pretty (n / 100) +:+ "." +:+ two_digits (n mod 100).

(** [validateData]: pure, but reading a property of a [null] or
    [undefined] entry throws. *)
Definition missing (x : value) (field what : string) : list string :=
  if negb (truthy (prop x field)) then [what] else [].

Fixpoint validate_workflows (entries : list (string * value)) : result (list string) :=
  match entries with
  | [] => Ok []
  | (id, workflow) :: tl =>
      match workflow with
      | VUndefined => Throw (Error "Cannot read properties of undefined (reading 'id')")
      | VNull => Throw (Error "Cannot read properties of null (reading 'id')")
      | _ =>
          match validate_workflows tl with
          | Throw e => Throw e
          | Ok rest =>
              Ok (missing workflow "id" ("Workflow " +:+ id +:+ " missing id field")
                  ++ missing workflow "name" ("Workflow " +:+ id +:+ " missing name field")
                  ++ missing workflow "drawflow" ("Workflow " +:+ id +:+ " missing drawflow")
                  ++ rest)
          end
      end
  end.

Fixpoint validate_packages (index : nat) (data : list value) : result (list string) :=
  match data with
  | [] => Ok []
  | pkg :: tl =>
      match pkg with
      | VUndefined => Throw (Error "Cannot read properties of undefined (reading 'id')")
      | VNull => Throw (Error "Cannot read properties of null (reading 'id')")
      | _ =>
          match validate_packages (S index) tl with
          | Throw e => Throw e
          | Ok rest =>
              Ok (missing pkg "id" ("Package at index " +:+ pretty index +:+ " missing id field")
                  ++ rest)
          end
      end
  end.

Definition validateData (key : string) (data : value) : result validation :=
  let errors1 :=
    match stringify data with
    | Throw e => ["Not JSON serializable: " +:+ message e]
    | Ok _ => []
    end in
  let errors2 :=
    if String.eqb key "workflows" then
      if negb (is_object_type data) || match data with VNull => true | _ => false end
      then Ok ["Workflows must be an object"]
      else validate_workflows (entries data)
    else Ok [] in
  let errors3 :=
    if String.eqb key "savedBlocks" then
      match data with
      | VArray pkgs => validate_packages 0 pkgs
      | _ => Ok ["savedBlocks must be an array"]
      end
    else Ok [] in
  match errors2 with
  | Throw e => Throw e
  | Ok errors2 =>
      match errors3 with
      | Throw e => Throw e
      | Ok errors3 =>
          let errors := errors1 ++ errors2 ++ errors3 in
          Ok {| valid := bool_decide (length errors = 0%nat); errors := errors |}
      end
  end.

Section Rest.

Context {World : Type}.
Variable local_get : query -> World -> World * result (list (string * value)).
Variable local_set : list (string * value) -> World -> World * result unit.
Variable local_remove : query -> World -> World * result unit.
Variable Date_now : World -> Z.

(** The [while (retries > 0)] loop of [remove] and what follows it. *)
Fixpoint remove_loop (keys : query) (retries : nat) (lastError : option JS.error)
    (w : World) : World * list line * result bool :=
  match retries with
  | O => (w, [RemoveFailed lastError], Throw (default (Error "undefined") lastError))
  | S retries' =>
      match local_remove keys w with
      | (w', Ok _) => (w', [], Ok true)
      | (w', Throw error) =>
          let pause :=
            if bool_decide (0 < retries')%nat
            then [RemoveRetry (MAX_RETRIES - retries') (backoffDelay retries') error;
                  Line (Sleep (backoffDelay retries'))]
            else [] in
          let '(w'', log, r) := remove_loop keys retries' (Some error) w' in
          (w'', pause ++ log, r)
      end
  end.

Definition remove (keys : query) (w : World) : World * list line * result bool :=
  remove_loop keys MAX_RETRIES None w.

Definition testKey : string := "__health_check__".

(** [healthCheck]: everything is inside its [try], so it returns. *)
Definition healthCheck (w : World) : World * health :=
  let testValue := VObject [("timestamp", VNumber (Date_now w))] in
  let caught (w' : World) (error : JS.error) : World * health :=
    (w', {| healthy := false; health_timestamp := Date_now w';
            health_message := "Storage error: " +:+ message error;
            health_error := Some error |}) in
  match local_set [(testKey, testValue)] w with
  | (w1, Throw e) => caught w1 e
  | (w1, Ok _) =>
      match local_get (Key testKey) w1 with
      | (w2, Throw e) => caught w2 e
      | (w2, Ok r) =>
          let result := prop (VObject r) testKey in
          match local_remove (Key testKey) w2 with
          | (w3, Throw e) => caught w3 e
          | (w3, Ok _) =>
              match stringify result, stringify testValue with
              | Throw e, _ => caught w3 e
              | Ok _, Throw e => caught w3 e
              | Ok a, Ok b =>
                  let isHealthy := bool_decide (a = b) in
                  (w3, {| healthy := isHealthy; health_timestamp := Date_now w3;
                          health_message :=
                            if isHealthy then "Storage is operational"
                            else "Storage read/write mismatch";
                          health_error := None |})
              end
          end
      end
  end.

(** [k.startsWith(BACKUP_PREFIX)] *)
Definition is_backup_key (k : string) : bool := String.prefix BACKUP_PREFIX k.

Definition getStats (w : World) : World * list line * result stats :=
  match local_get All w with
  | (w', Throw error) => (w', [StatsFailed error], Throw error)
  | (w', Ok allData) =>
      match stringify (VObject allData) with
      | Throw error => (w', [StatsFailed error], Throw error)
      | Ok text =>
          let size := String.length (default "" text) in
          let stats :=
            {| keyCount := length (keys allData);
               estimatedSize := size;
               estimatedSizeKB := toFixed2 (Z.of_nat size) 1024;
               estimatedSizeMB := toFixed2 (Z.of_nat size) (1024 * 1024);
               stats_keys := filter (fun k => negb (is_backup_key k)) (keys allData) |} in
          (w', [StorageStats stats], Ok stats)
      end
  end.

Definition clearBackups (w : World) : World * list line * result nat :=
  match local_get All w with
  | (w', Throw error) => (w', [ClearBackupsFailed error], Throw error)
  | (w', Ok allData) =>
      let backupKeys := filter (fun k => is_backup_key k) (keys allData) in
      if bool_decide (0 < length backupKeys)%nat then
        match local_remove (Keys backupKeys) w' with
        | (w'', Throw error) => (w'', [ClearBackupsFailed error], Throw error)
        | (w'', Ok _) => (w'', [BackupsCleared (length backupKeys)], Ok (length backupKeys))
        end
      else (w', [], Ok (length backupKeys))
  end.

(** What one attempt of [set] that returns has done, from [w] to [w']:
    a write the storage area accepted, and when critical a read of the
    same keys whose text agrees with what was written. *)
Definition write_accepted (fields : list (string * value)) (options : options)
    (w w' : World) : Prop :=
  exists w1 : World,
    local_set fields w = (w1, Ok tt)
    /\ if critical options
       then exists verification : list (string * value),
              local_get (Keys (keys fields)) w1 = (w', Ok verification)
              /\ verify verification fields = Ok tt
       else w' = w1.

End Rest.

(** The pauses among the lines of [remove]. *)
Definition line_sleeps (log : list line) : list Z :=
  omap (fun l => match l with Line (Sleep ms) => Some ms | _ => None end) log.

(** The pauses of a retry loop that starts with [retries] attempts and
    uses them all. *)
Definition pauses (retries : nat) : list Z :=
  backoffDelay <$> reverse (seq 1 (retries - 1)).

(** Running the handlers of [versions] in order, without the console. *)
Fixpoint run_handlers (this : t) (versions : list string)
    (migratedData : list (string * value)) : result (list (string * value)) :=
  match versions with
  | [] => Ok migratedData
  | version :: tl =>
      match find_handler this version with
      | Some migrationFn =>
          match migrationFn migratedData with
          | Ok migratedData => run_handlers this tl migratedData
          | Throw e => Throw e
          end
      | None => Throw (Error "migrationFn is not a function")
      end
  end.

End StorageManager.

(* ===================================================================== *)
(** * The workflow store: repairing a nested workflows collection *)
(* ===================================================================== *)

Module WorkflowStore.

Definition maxUnwrapAttempts : nat := 10.

(** [workflows.reduce((acc, workflow) => { acc[workflow.id] = workflow; return acc }, {})];
    reading [.id] of [null] or [undefined] throws. *)
Definition reduce_by_id (workflows : list value) : result (list (string * value)) :=
  foldl (fun acc workflow =>
           match acc with
           | Throw e => Throw e
           | Ok acc =>
               match workflow with
               | VUndefined | VNull =>
                   Throw (Error "Cannot read properties of undefined (reading 'id')")
               | _ => Ok (assign (to_string (prop workflow "id")) workflow acc)
               end
           end) (Ok []) workflows.

(** [workflowsValue.id && typeof workflowsValue.id === 'string'] *)
Definition isActualWorkflow (workflowsValue : value) : bool :=
  truthy (prop workflowsValue "id")
  && String.eqb (typeof (prop workflowsValue "id")) "string".

(** The condition of the [while] loop. *)
Definition nested (unwrapped : value) (unwrapCount : nat) : bool :=
  truthy unwrapped && is_object_type unwrapped
  && truthy (prop unwrapped "workflows") && is_object_type (prop unwrapped "workflows")
  && bool_decide (unwrapCount < maxUnwrapAttempts)%nat.

(** [unwrapped || {}] *)
Definition or_empty (unwrapped : value) : value :=
  if truthy unwrapped then unwrapped else VObject [].

(** The [while] loop, started on [unwrapped] with [unwrapCount] layers
    already removed; the result is the final value of [unwrapped].  The
    loop goes on with, and the mixed case calls the function again on,
    the value of the [workflows] property: [on_workflows] is the loop on
    that property, taken from the property list itself. *)
Fixpoint unwrap_loop (unwrapped : value) : nat -> result value :=
  match unwrapped with
  | VObject fields =>
      let on_workflows :=
        (fix find (l : list (string * value)) : option (nat -> result value) :=
           match l with
           | [] => None
           | (k, x) :: tl =>
               if String.eqb k "workflows" then Some (unwrap_loop x) else find tl
           end) fields in
      let loop_on_workflows (n : nat) : result value :=
        match on_workflows with
        | Some loop => loop n
        | None => Ok VUndefined
        end in
      fun unwrapCount =>
        if nested unwrapped unwrapCount then
          let keys := keys fields in
          let workflowsValue := prop unwrapped "workflows" in
          if isActualWorkflow workflowsValue then Ok unwrapped
          else
            let hasOnlyWorkflowsKey := bool_decide (length keys = 1%nat) in
            if hasOnlyWorkflowsKey then loop_on_workflows (S unwrapCount)
            else
              let rootWorkflows := without "workflows" fields in
              let unwrappedNested :=
                match workflowsValue with
                | VArray workflows => VObject <$> reduce_by_id workflows
                | _ => or_empty <$> loop_on_workflows 0%nat
                end in
              match unwrappedNested with
              | Throw e => Throw e
              | Ok unwrappedNested =>
                  Ok (VObject (spread (spread [] (entries unwrappedNested)) rootWorkflows))
              end
        else Ok unwrapped
  | _ => fun _ => Ok unwrapped
  end.

Definition convertWorkflowsToObject (workflows : value) : result value :=
  match workflows with
  | VArray workflows => VObject <$> reduce_by_id workflows
  | _ => or_empty <$> unwrap_loop workflows 0
  end.

(** The corruption: a collection stored under its own name, [n] times over. *)
Definition wrapper (x : value) : value := VObject [("workflows", x)].

Definition wrapped (n : nat) (x : value) : value := Nat.iter n wrapper x.

(** A value in which the loop finds nothing to unwrap. *)
Definition clean (x : value) : bool :=
  negb (truthy (prop x "workflows") && is_object_type (prop x "workflows")).

End WorkflowStore.

(* ===================================================================== *)
(** * The Pinia storage plugin: debounced saves *)
(* ===================================================================== *)

Module Pinia.

(** What the plugin is given for a store: [store.$id] and
    [options.storageMap] ([VUndefined] when the store declares none). *)
Record store_def : Type := StoreDef { id : string; storageMap : value }.

(** What it reads from a store when it runs: [store.retrieved] and the
    state properties [store[key]]. *)
Record store_state : Type := StoreState { retrieved : bool; fields : list (string * value) }.

(** A promise returned by [saveToStorage]. *)
Inductive promise : Type :=
  | Pending
  | Resolved
  | Rejected (reason : JS.error).

(** An entry of [saveQueues]; [resolve] and [reject] are those of the
    promise numbered [settles]. *)
Record queue_entry : Type := QueueEntry { timeoutId : nat; settles : nat }.

(** A timer armed by [setTimeout]: when it is due and what its callback
    closes over. *)
Record timer : Type := Timer {
  deadline : Z;
  t_store : store_def;
  t_key : string;
  t_storageKey : value;
  t_queueKey : string;
  t_settles : nat
}.

Record state (World : Type) : Type := State {
  clock : Z;                                   (** the timer clock, in ms *)
  stores : gmap string store_state;            (** by [$id] *)
  saveQueues : gmap string queue_entry;
  saveRetryAttempts : gmap string Z;
  timers : gmap nat timer;                     (** armed and not yet fired or cleared *)
  next_timer : nat;
  promises : list promise;                     (** by number, in creation order *)
  manager : StorageManager.state World         (** what [storageManager] works on *)
}.
Arguments State {World}.
Arguments clock {World} s.
Arguments stores {World} s.
Arguments saveQueues {World} s.
Arguments saveRetryAttempts {World} s.
Arguments timers {World} s.
Arguments next_timer {World} s.
Arguments promises {World} s.
Arguments manager {World} s.

Definition debounce : Z := 300.

Section Pinia.

Context {World : Type}.
Variable local_get : StorageManager.query -> World -> World * result (list (string * value)).
Variable local_set : list (string * value) -> World -> World * result unit.
Variable Date_now : World -> Z.
Variable toISOString : value -> result string.
(** the singleton exported by StorageManager.js *)
Variable storageManager : StorageManager.t.

#[local] Abbreviation state := (state World).

Definition store_of (st : state) (store : store_def) : store_state :=
  default {| retrieved := false; fields := [] |} (stores st !! id store).

(** [new Promise(...)] with the given initial state: the extended state
    and the number of the new promise. *)
Definition new_promise (p : promise) (st : state) : state * nat :=
  (State (clock st) (stores st) (saveQueues st) (saveRetryAttempts st)
         (timers st) (next_timer st) (promises st ++ [p]) (manager st),
   length (promises st)).

(** [resolve()] or [reject(reason)]: a settled promise stays as it is. *)
Definition settle (n : nat) (p : promise) (st : state) : state :=
  match promises st !! n with
  | Some Pending =>
      State (clock st) (stores st) (saveQueues st) (saveRetryAttempts st)
            (timers st) (next_timer st) (<[n := p]> (promises st)) (manager st)
  | _ => st
  end.

Definition clearTimeout (timeoutId : nat) (st : state) : state :=
  State (clock st) (stores st) (saveQueues st) (saveRetryAttempts st)
        (delete timeoutId (timers st)) (next_timer st) (promises st) (manager st).

Definition setTimeout (tm : timer) (st : state) : state * nat :=
  (State (clock st) (stores st) (saveQueues st) (saveRetryAttempts st)
         (<[next_timer st := tm]> (timers st)) (S (next_timer st)) (promises st)
         (manager st),
   next_timer st).

Definition with_saveQueues (q : gmap string queue_entry) (st : state) : state :=
  State (clock st) (stores st) q (saveRetryAttempts st)
        (timers st) (next_timer st) (promises st) (manager st).

Definition with_manager (m : StorageManager.state World) (st : state) : state :=
  State (clock st) (stores st) (saveQueues st) (saveRetryAttempts st)
        (timers st) (next_timer st) (promises st) m.

Definition delete_saveRetryAttempts (queueKey : string) (st : state) : state :=
  State (clock st) (stores st) (saveQueues st) (delete queueKey (saveRetryAttempts st))
        (timers st) (next_timer st) (promises st) (manager st).

Definition cancelled : JS.error := Error "Save cancelled due to new save request".

(** [store.saveToStorage(key)]: the new state and the promise returned. *)
Definition saveToStorage (store : store_def) (key : string) (st : state) : state * nat :=
  if negb (truthy (storageMap store)) || negb (truthy (prop (storageMap store) key)) then
    new_promise Resolved st
  else if negb (retrieved (store_of st store)) then
    new_promise Resolved st
  else
    let storageKey := prop (storageMap store) key in
    let queueKey := id store +:+ ":" +:+ key in
    let st :=
      match saveQueues st !! queueKey with
      | Some existingQueue =>
          settle (settles existingQueue) (Rejected cancelled)
                 (clearTimeout (timeoutId existingQueue) st)
      | None => st
      end in
    let '(st, p) := new_promise Pending st in
    let '(st, timeoutId) :=
      setTimeout {| deadline := clock st + debounce; t_store := store; t_key := key;
                    t_storageKey := storageKey; t_queueKey := queueKey;
                    t_settles := p |} st in
    (with_saveQueues (<[queueKey := {| timeoutId := timeoutId; settles := p |}]>
                        (saveQueues st)) st,
     p).

(** The structure check on a [workflows] value about to be saved; the
    counting of valid entries after it only writes to the console. *)
Definition check_workflows (key : string) (value : value) : result unit :=
  if String.eqb key "workflows" && truthy value && is_object_type value then
    let keys := keys (entries value) in
    if truthy (prop value "workflows") && is_object_type (prop value "workflows") then
      let workflowsValue := prop value "workflows" in
      let isActualWorkflow :=
        truthy (prop workflowsValue "id")
        && String.eqb (typeof (prop workflowsValue "id")) "string" in
      if negb isActualWorkflow then
        let hasOnlyWorkflowsKey :=
          bool_decide (length keys = 1%nat) && bool_decide (keys !! 0%nat = Some "workflows") in
        if hasOnlyWorkflowsKey then
          Throw (Error "Refusing to save corrupted workflows structure with nesting")
        else Ok tt
      else Ok tt
    else Ok tt
  else Ok tt.

(** The value handed to the manager: a deep copy of [store[key]], checked. *)
Definition snapshot (key : string) (current : value) : result value :=
  match json_clone current with
  | Throw serializeError =>
      Throw (Error ("Cannot serialize " +:+ key +:+ ": " +:+ message serializeError))
  | Ok value =>
      match check_workflows key value with
      | Throw e => Throw e
      | Ok _ => Ok value
      end
  end.

Definition isCritical (key : string) : bool :=
  String.eqb key "workflows" || String.eqb key "packages" || String.eqb key "savedBlocks".

(** The callback of the timer.  It is run to its end when the timer
    fires: the suspensions inside [storageManager.set] are not points
    where another task of this model runs.  This is the callback that
    nothing interrupts; module [Async] keeps the suspensions and lets
    other tasks run at each of them. *)
Definition fire (tm : timer) (st : state) : state :=
  let st := with_saveQueues (delete (t_queueKey tm) (saveQueues st)) st in
  match snapshot (t_key tm) (prop (VObject (fields (store_of st (t_store tm)))) (t_key tm)) with
  | Throw error => settle (t_settles tm) (Rejected error) st
  | Ok value =>
      let '(m, r) :=
        StorageManager.set local_get local_set Date_now toISOString storageManager
          (VObject [(to_string (t_storageKey tm), value)])
          {| StorageManager.backup := isCritical (t_key tm);
             StorageManager.critical := isCritical (t_key tm) |}
          (manager st) in
      let st := delete_saveRetryAttempts (t_queueKey tm) (with_manager m st) in
      match r with
      | Ok _ => settle (t_settles tm) Resolved st
      | Throw error => settle (t_settles tm) (Rejected error) st
      end
  end.

(** Timers fire in the order of their deadlines, then of their arming. *)
Definition earlier (a b : nat * timer) : Prop :=
  deadline a.2 < deadline b.2 \/ (deadline a.2 = deadline b.2 /\ (a.1 <= b.1)%nat).

#[local] Instance earlier_dec a b : Decision (earlier a b).
Proof. unfold earlier. apply _. Defined.

Definition due (t : Z) (st : state) : list (nat * timer) :=
  merge_sort earlier
    (filter (fun it => deadline it.2 <= t) (map_to_list (timers st))).

(** Time passes until [t]: every timer due by then fires, unless it has
    been cleared meanwhile. *)
Definition advance (t : Z) (st : state) : state :=
  let st :=
    foldl (fun st it =>
             match timers st !! it.1 with
             | Some tm => fire tm (clearTimeout it.1 st)
             | None => st
             end) st (due t st) in
  State (Z.max (clock st) t) (stores st) (saveQueues st) (saveRetryAttempts st)
        (timers st) (next_timer st) (promises st) (manager st).

(** The application assigns [store[key] = value]. *)
Definition mutate (store : store_def) (key : string) (value : value) (st : state) : state :=
  let old := store_of st store in
  State (clock st)
        (<[id store := {| retrieved := retrieved old;
                          fields := assign key value (fields old) |}]> (stores st))
        (saveQueues st) (saveRetryAttempts st)
        (timers st) (next_timer st) (promises st) (manager st).

(** [store.loadFromStorage(key)], which reads the storage area itself:
    the value stored under the mapped name, or [null]; what the read
    throws is caught.  The names in a [storageMap] are strings. *)
Definition loadFromStorage (store : store_def) (key : string) (w : World) : World * value :=
  if negb (truthy (storageMap store)) || negb (truthy (prop (storageMap store) key)) then
    (w, VNull)
  else
    let storageKey := to_string (prop (storageMap store) key) in
    match local_get (StorageManager.Key storageKey) w with
    | (w', Ok result) =>
        let value := prop (VObject result) storageKey in
        if negb (match value with VUndefined => true | _ => false end)
        then (w', value) else (w', VNull)
    | (w', Throw _) => (w', VNull)
    end.

(** The state in which exactly one request, for [store] and [key], is
    pending: its promise is the last one created, its timer [n] is the
    only one armed, and it is due at [due_at]. *)
Definition one_pending (store : store_def) (key : string) (due_at : Z) (n : nat)
    (c : Z) (ss : gmap string store_state) (ra : gmap string Z) (nt : nat)
    (ps : list promise) (m : StorageManager.state World) : state :=
  State c ss
    {[ id store +:+ ":" +:+ key := {| timeoutId := n; settles := length ps |} ]} ra
    {[ n := {| deadline := due_at; t_store := store; t_key := key;
               t_storageKey := prop (storageMap store) key;
               t_queueKey := id store +:+ ":" +:+ key;
               t_settles := length ps |} ]}
    nt (ps ++ [Pending]) m.

(** What happens around the plugin, in order: the application asks for
    a save, assigns a state property, or lets time pass. *)
Inductive action : Type :=
  | Save (store : store_def) (key : string)
  | Assign (store : store_def) (key : string) (value : value)
  | Wait (until : Z).

Definition step (st : state) (a : action) : state :=
  match a with
  | Save store key => (saveToStorage store key st).1
  | Assign store key value => mutate store key value st
  | Wait t => advance t st
  end.

Definition run (script : list action) (st : state) : state := foldl step st script.

End Pinia.

(** One more request of a burst: the value assigned since the request
    before, the time of the request, the request. *)
Definition again (store : store_def) (key : string) (r : value * Z) : list action :=
  [Assign store key r.1; Wait r.2; Save store key].

(** Each request of the burst is made within the window opened by the
    one before it, the first of them at [t]. *)
Fixpoint within_window (t : Z) (reqs : list (value * Z)) : Prop :=
  match reqs with
  | [] => True
  | r :: tl => t <= r.2 /\ r.2 < t + debounce /\ within_window r.2 tl
  end.

(** The time of the last request of a burst that starts at [t]. *)
Definition last_request (t : Z) (reqs : list (value * Z)) : Z :=
  default t (last reqs.*2).

(** How the promise of a save that reached the manager is settled. *)
Definition outcome (r : result bool) : promise :=
  match r with Ok _ => Resolved | Throw error => Rejected error end.

End Pinia.

(* ===================================================================== *)
(** * The plugin with the suspensions of its timer callback *)
(* ===================================================================== *)

(** The callback of the debounce timer is an [async] function: it
    awaits [storageManager.set], which awaits every call of the storage
    area and every [_sleep].  At each of these it is suspended, and the
    application and other callbacks run meanwhile.  Here the manager's
    [set] is written once more, as the sequence of its suspensions, and
    the plugin is run over it one task at a time.  The return of
    [createBackup] or [restoreFromBackup] to the [set] that awaits it is
    taken together with what follows it: no timer and no answer of the
    storage area comes in between. *)
Module Async.

Import StorageManager.

(** An [async] function of the manager from where it stands: it has
    returned or thrown, or it goes on after the call or pause it is
    suspended at, or after a synchronous reading of the clock or line on
    the console. *)
Inductive proc (A : Type) : Type :=
  | Done (r : result A)
  | Get (keys : query) (k : result (list (string * value)) -> proc A)
      (** [await browser.storage.local.get(keys)] *)
  | Put (items : list (string * value)) (k : result unit -> proc A)
      (** [await browser.storage.local.set(items)] *)
  | Pause (ms : Z) (k : proc A)
      (** [await new Promise(resolve => setTimeout(resolve, ms))] *)
  | Now (k : Z -> proc A)
      (** [Date.now()] *)
  | Emit (e : event) (k : proc A).
Arguments Done {A} r.
Arguments Get {A} keys k.
Arguments Put {A} items k.
Arguments Pause {A} ms k.
Arguments Now {A} k.
Arguments Emit {A} e k.

(** What follows a function: [f] is given what it returned or threw. *)
Fixpoint pbind {A B} (p : proc A) (f : result A -> proc B) : proc B :=
  match p with
  | Done r => f r
  | Get keys k => Get keys (fun r => pbind (k r) f)
  | Put items k => Put items (fun r => pbind (k r) f)
  | Pause ms k => Pause ms (pbind k f)
  | Now k => Now (fun z => pbind (k z) f)
  | Emit e k => Emit e (pbind k f)
  end.

Definition ret {A} (a : A) : proc A := Done (Ok a).
Definition throw {A} (e : JS.error) : proc A := Done (Throw e).
Definition bind {A B} (m : proc A) (k : A -> proc B) : proc B :=
  pbind m (fun r => match r with Ok a => k a | Throw e => Done (Throw e) end).
Definition try_catch {A} (m : proc A) (h : JS.error -> proc A) : proc A :=
  pbind m (fun r => match r with Ok a => Done (Ok a) | Throw e => h e end).
Definition emit (e : event) : proc unit := Emit e (Done (Ok tt)).
Definition local_get (keys : query) : proc (list (string * value)) := Get keys Done.
Definition local_set (items : list (string * value)) : proc unit := Put items Done.
Definition now : proc Z := Now (fun z => Done (Ok z)).
Definition of_result {A} (r : result A) : proc A := Done r.

Declare Scope async_scope.
Delimit Scope async_scope with async.
Notation "'let*' x ':=' m 'in' k" := (bind m (fun x => k))
  (at level 10, x name, k at level 200) : async_scope.
Notation "m '>>' k" := (bind m (fun _ => k))
  (at level 100, k at level 200, right associativity) : async_scope.
Local Open Scope async_scope.

(** ** The manager's [set], with its suspensions *)

Section Manager.

Variable toISOString : value -> result string.

Fixpoint for_each {A B} (xs : list A) (f : A -> proc B) : proc unit :=
  match xs with
  | [] => ret tt
  | x :: tl => f x >> for_each tl f
  end.

Definition _sleep (ms : Z) : proc unit := emit (Sleep ms) >> Pause ms (Done (Ok tt)).

Definition _notifyUser (this : t) (message : string) : proc unit :=
  emit (UserAlert message).

Definition createBackup (key : string) : proc bool :=
  try_catch
    (let* r := local_get (Key key) in
     let currentValue := prop (VObject r) key in
     if negb (is_undefined currentValue) then
       let backupKey := BACKUP_PREFIX +:+ key in
       let* timestamp := now in
       let backup := VObject [("data", currentValue);
                              ("timestamp", VNumber timestamp);
                              ("version", VString CURRENT_VERSION)] in
       local_set [(backupKey, backup)] >>
       emit (BackupCreated key) >>
       ret true
     else ret false)
    (fun error => emit (BackupFailed key error) >> ret false).

Definition restoreFromBackup (key : string) : proc bool :=
  try_catch
    (let backupKey := BACKUP_PREFIX +:+ key in
     let* r := local_get (Key backupKey) in
     let backup := prop (VObject r) backupKey in
     if truthy backup && negb (is_undefined (prop backup "data")) then
       local_set [(key, prop backup "data")] >>
       let* iso := of_result (toISOString (prop backup "timestamp")) in
       emit (Restored key iso) >>
       ret true
     else
       emit (NoBackupFound key) >>
       ret false)
    (fun error => emit (RestoreFailed key error) >> ret false).

Definition write_once (items : list (string * value)) (options : options) : proc bool :=
  local_set items >>
  (if critical options then
     let* verification := local_get (Keys (keys items)) in
     of_result (verify verification items)
   else ret tt) >>
  ret true.

Fixpoint set_loop (this : t) (items : list (string * value)) (options : options)
    (retries : nat) (lastError : option JS.error) : proc bool :=
  match retries with
  | O =>
      emit (WriteFailedRollback lastError) >>
      (if backup options || critical options then
         for_each (keys items) restoreFromBackup
       else ret tt) >>
      _notifyUser this save_failed >>
      throw (default (Error "undefined") lastError)
  | S retries' =>
      try_catch
        (write_once items options)
        (fun error =>
           (if bool_decide (0 < retries')%nat then
              emit (WriteRetry (MAX_RETRIES - retries') (backoffDelay retries') error) >>
              _sleep (backoffDelay retries')
            else ret tt) >>
           set_loop this items options retries' (Some error))
  end.

Definition backups (fields : list (string * value)) (options : options) : proc unit :=
  if backup options || critical options then
    for_each (keys fields)
      (fun key =>
         if String.eqb key "workflows" || String.eqb key "savedBlocks"
            || critical options
         then createBackup key else ret false)
  else ret tt.

Definition set (this : t) (items : value) (options : options) : proc bool :=
  if negb (truthy items) || negb (is_object_type items) || isArray items then
    throw (Error "Items must be a non-array object")
  else
    let fields := entries items in
    backups fields options >>
    set_loop this fields options MAX_RETRIES None.

End Manager.

(** The number of suspensions of a function is at most [n], however
    the calls it awaits turn out. *)
Inductive bounded {A : Type} : nat -> proc A -> Prop :=
  | bounded_Done n r : bounded n (Done r)
  | bounded_Get n keys k : (forall r, bounded n (k r)) -> bounded (S n) (Get keys k)
  | bounded_Put n items k : (forall r, bounded n (k r)) -> bounded (S n) (Put items k)
  | bounded_Pause n ms k : bounded n k -> bounded (S n) (Pause ms k)
  | bounded_Now n k : (forall z, bounded n (k z)) -> bounded n (Now k)
  | bounded_Emit n e k : bounded n k -> bounded n (Emit e k).

(** Suspended at an [await]. *)
Definition awaiting {A} (p : proc A) : bool :=
  match p with Get _ _ | Put _ _ | Pause _ _ => true | _ => false end.

(** The pause it is suspended at, if it is. *)
Definition pausing {A} (p : proc A) : option Z :=
  match p with Pause ms _ => Some ms | _ => None end.

(** ** Running a function *)

Section Run.

Context {World : Type}.
Variable browser_get : query -> World -> World * result (list (string * value)).
Variable browser_set : list (string * value) -> World -> World * result unit.
Variable Date_now : World -> Z.

(** To its end, every call answered at once: what the function does
    when nothing else runs meanwhile. *)
Fixpoint exec {A} (p : proc A) (s : StorageManager.state World)
  : StorageManager.state World * result A :=
  match p with
  | Done r => (s, r)
  | Get keys k =>
      let '(w, r) := browser_get keys (world s) in
      exec (k r) (StorageManager.State w (console s))
  | Put items k =>
      let '(w, r) := browser_set items (world s) in
      exec (k r) (StorageManager.State w (console s))
  | Pause ms k => exec k s
  | Now k => exec (k (Date_now (world s))) s
  | Emit e k => exec k (StorageManager.State (world s) (console s ++ [e]))
  end.

(** To its next suspension. *)
Fixpoint sync {A} (p : proc A) (s : StorageManager.state World)
  : proc A * StorageManager.state World :=
  match p with
  | Now k => sync (k (Date_now (world s))) s
  | Emit e k => sync k (StorageManager.State (world s) (console s ++ [e]))
  | _ => (p, s)
  end.

(** [p], run to its end with nothing in between, is [m]. *)
Definition refines {A} (p : proc A) (m : StorageManager.M World A) : Prop :=
  forall s, exec p s = m s.

(** ** The event loop *)

(** A timer callback suspended inside [storageManager.set]: the key and
    the promise it was armed for, the time it was suspended, and how it
    goes on. *)
Record task : Type := Task {
  a_queueKey : string;
  a_settles : nat;
  a_since : Z;
  a_cont : proc bool
}.

(** The plugin's state as in [Pinia], and the suspended callbacks. *)
Record state : Type := State {
  base : Pinia.state World;
  inflight : list task
}.

Variable toISOString : value -> result string.
Variable storageManager : StorageManager.t.

Definition with_clock (c : Z) (b : Pinia.state World) : Pinia.state World :=
  Pinia.State c (Pinia.stores b) (Pinia.saveQueues b) (Pinia.saveRetryAttempts b)
    (Pinia.timers b) (Pinia.next_timer b) (Pinia.promises b) (Pinia.manager b).

(** After [await storageManager.set(...)]: the [try] and the [catch]
    around it both forget the retry counter and settle the promise. *)
Definition finish (tk : task) (r : result bool) (b : Pinia.state World)
  : Pinia.state World :=
  Pinia.settle (a_settles tk) (Pinia.outcome r)
    (Pinia.delete_saveRetryAttempts (a_queueKey tk) b).

(** A callback goes on with [p] until it is suspended again or done. *)
Definition proceed (tk : task) (p : proc bool) (st : state) : state :=
  let '(p', m) := sync p (Pinia.manager (base st)) in
  let b := Pinia.with_manager m (base st) in
  match p' with
  | Done r => State (finish tk r b) (inflight st)
  | _ =>
      State b (inflight st
               ++ [Task (a_queueKey tk) (a_settles tk) (Pinia.clock b) p'])
  end.

(** What happens, one task at a time: the application asks for a save,
    assigns a state property or lets the clock reach [t]; an armed timer
    fires, when it is due; a suspended callback is resumed, when the
    call it awaits is answered or its pause is over. *)
Inductive move : Type :=
  | Save (store : Pinia.store_def) (key : string)
  | Assign (store : Pinia.store_def) (key : string) (value : value)
  | Tick (t : Z)
  | Fire (n : nat)
  | Resume (i : nat).

(** The callback of timer [n], up to its first suspension. *)
Definition fire (n : nat) (tm : Pinia.timer) (st : state) : state :=
  let b := with_clock (Z.max (Pinia.clock (base st)) (Pinia.deadline tm))
             (Pinia.clearTimeout n (base st)) in
  let b := Pinia.with_saveQueues (delete (Pinia.t_queueKey tm) (Pinia.saveQueues b)) b in
  match Pinia.snapshot (Pinia.t_key tm)
          (prop (VObject (Pinia.fields (Pinia.store_of b (Pinia.t_store tm))))
             (Pinia.t_key tm)) with
  | Throw error =>
      State (Pinia.settle (Pinia.t_settles tm) (Pinia.Rejected error) b) (inflight st)
  | Ok value =>
      proceed (Task (Pinia.t_queueKey tm) (Pinia.t_settles tm) (Pinia.clock b)
                 (Done (Ok true)))
        (set toISOString storageManager
           (VObject [(to_string (Pinia.t_storageKey tm), value)])
           {| StorageManager.backup := Pinia.isCritical (Pinia.t_key tm);
              StorageManager.critical := Pinia.isCritical (Pinia.t_key tm) |})
        (State b (inflight st))
  end.

(** The callback [tk], taken out of the suspended ones, goes on after
    the call or pause it awaited.  The storage area serves a call when
    the callback is resumed: calls that are outstanding together are
    served in any order.  A pause is over at the earliest [ms] after it
    began. *)
Definition resume (tk : task) (st : state) : state :=
  let b := base st in
  let m := Pinia.manager b in
  match a_cont tk with
  | Get keys k =>
      let '(w, r) := browser_get keys (world m) in
      proceed tk (k r)
        (State (Pinia.with_manager (StorageManager.State w (console m)) b) (inflight st))
  | Put items k =>
      let '(w, r) := browser_set items (world m) in
      proceed tk (k r)
        (State (Pinia.with_manager (StorageManager.State w (console m)) b) (inflight st))
  | Pause ms k =>
      proceed tk k
        (State (with_clock (Z.max (Pinia.clock b) (a_since tk + ms)) b) (inflight st))
  | p => proceed tk p st
  end.

Definition do (st : state) (mv : move) : state :=
  match mv with
  | Save store key => State (Pinia.saveToStorage store key (base st)).1 (inflight st)
  | Assign store key value => State (Pinia.mutate store key value (base st)) (inflight st)
  | Tick t => State (with_clock (Z.max (Pinia.clock (base st)) t) (base st)) (inflight st)
  | Fire n =>
      match Pinia.timers (base st) !! n with
      | Some tm => fire n tm st
      | None => st
      end
  | Resume i =>
      match inflight st !! i with
      | Some tk => resume tk (State (base st) (delete i (inflight st)))
      | None => st
      end
  end.

Definition run (moves : list move) (st : state) : state := foldl do st moves.

(** A step the application has no part in. *)
Definition internal (st st' : state) : Prop :=
  (exists n, is_Some (Pinia.timers (base st) !! n) /\ st' = do st (Fire n))
  \/ (exists i, is_Some (inflight st !! i) /\ st' = do st (Resume i)).

(** Nothing is armed and nothing is suspended. *)
Definition at_rest (st : state) : Prop :=
  Pinia.timers (base st) = ∅ /\ inflight st = [].

(** Left to itself, the plugin comes to rest: it cannot go on forever,
    and when it is at rest every promise is settled and the queue is
    empty. *)
Inductive settles_down (st : state) : Prop :=
  | SettlesDown :
      (at_rest st ->
       Forall (fun p => p <> Pinia.Pending) (Pinia.promises (base st))
       /\ Pinia.saveQueues (base st) = ∅) ->
      (forall st', internal st st' -> settles_down st') ->
      settles_down st.

(** Nothing is pending. *)
Definition idle (st : state) : Prop :=
  at_rest st /\ Pinia.saveQueues (base st) = ∅
  /\ Forall (fun p => p <> Pinia.Pending) (Pinia.promises (base st)).

(** The number of calls of [saveToStorage] among the moves. *)
Fixpoint requests (moves : list move) : nat :=
  match moves with
  | [] => 0
  | Save _ _ :: tl => S (requests tl)
  | _ :: tl => requests tl
  end.

(** The plugin hands [set] one key: a save is suspended thirteen times
    at most. *)
Definition max_suspensions : nat := 13.

(** A suspended callback stands at an [await], with a bounded number of
    them to come. *)
Definition task_ok (tk : task) : Prop :=
  awaiting (a_cont tk) = true /\ bounded max_suspensions (a_cont tk).

(** [b'] is [b] but for the stores, the clock, the retry counters and
    the manager. *)
Definition unchanged (b b' : Pinia.state World) : Prop :=
  Pinia.timers b' = Pinia.timers b
  /\ Pinia.saveQueues b' = Pinia.saveQueues b
  /\ Pinia.next_timer b' = Pinia.next_timer b
  /\ Pinia.promises b' = Pinia.promises b.

(** The same, but for promise [i], which may have been settled. *)
Definition settled (i : nat) (b b' : Pinia.state World) : Prop :=
  Pinia.timers b' = Pinia.timers b
  /\ Pinia.saveQueues b' = Pinia.saveQueues b
  /\ Pinia.next_timer b' = Pinia.next_timer b
  /\ length (Pinia.promises b') = length (Pinia.promises b)
  /\ forall j, Pinia.promises b' !! j = Some Pinia.Pending ->
       Pinia.promises b !! j = Some Pinia.Pending /\ j <> i.

(** What is left to do when the suspended callbacks have [bs]
    suspensions to come: every armed timer starts a callback. *)
Definition cost (bs : list nat) (b : Pinia.state World) : nat :=
  sum_list_with S bs + (max_suspensions + 2) * size (Pinia.timers b).

(** What holds between two tasks: a pending promise has an armed timer
    or a suspended callback that will settle it, an entry of
    [saveQueues] names an armed timer of its own key, and every armed
    timer was numbered by [setTimeout]. *)
Record consistent (st : state) : Prop := Consistent {
  pending_owned :
    forall i, Pinia.promises (base st) !! i = Some Pinia.Pending ->
      (exists n tm, Pinia.timers (base st) !! n = Some tm /\ Pinia.t_settles tm = i)
      \/ (exists tk, tk ∈ inflight st /\ a_settles tk = i);
  queue_has_timer :
    forall q e, Pinia.saveQueues (base st) !! q = Some e ->
      exists tm, Pinia.timers (base st) !! Pinia.timeoutId e = Some tm
                 /\ Pinia.t_settles tm = Pinia.settles e /\ Pinia.t_queueKey tm = q;
  timers_numbered :
    forall n tm, Pinia.timers (base st) !! n = Some tm -> (n < Pinia.next_timer (base st))%nat
}.

End Run.

Arguments state : clear implicits.
Arguments State {World} base inflight.
Arguments base {World} s.
Arguments inflight {World} s.

End Async.

(* ===================================================================== *)
(** * Concrete collaborators for the examples *)
(* ===================================================================== *)

Module Memory.

(** An electron-store that keeps its entries in memory and never throws. *)
Definition Store_get (s : list (string * value)) (key : string) : result value :=
  Ok (default VUndefined (assoc key s)).

Definition Store_set (s : list (string * value)) (key : string) (v : value)
  : list (string * value) * result unit :=
  (assign key v s, Ok tt).

(** An electron-store whose file cannot be written. *)
Definition Store_set_readonly (s : list (string * value)) (key : string) (v : value)
  : list (string * value) * result unit :=
  (s, Throw (Error "EACCES: permission denied")).

Definition secure (inner : list (string * value)) : SecureStore.t (list (string * value)) :=
  {| SecureStore.innerStore := inner; SecureStore.encryptionKey := "secret";
     SecureStore.name := "config"; SecureStore._migrated := false |}.

Definition _computeHmac := SecureStore._computeHmac
  Crypto.SHA256 Crypto.HmacSHA256 Crypto.toString (Store := list (string * value)).
Definition _wrapWithHmac := SecureStore._wrapWithHmac
  Crypto.SHA256 Crypto.HmacSHA256 Crypto.toString (Store := list (string * value)).
Definition _unwrapWithHmac := SecureStore._unwrapWithHmac
  Crypto.SHA256 Crypto.HmacSHA256 Crypto.toString (Store := list (string * value)).
Definition get := SecureStore.get
  Crypto.SHA256 Crypto.HmacSHA256 Crypto.toString Store_get.
Definition set := SecureStore.set
  Crypto.SHA256 Crypto.HmacSHA256 Crypto.toString Store_set.

Definition a64 : string :=
  "aaaaaaaaaaaaaaaaaaaaaaaaaaaaaaaaaaaaaaaaaaaaaaaaaaaaaaaaaaaaaaaa".

(** An entry whose tag was overwritten after it was stored. *)
Definition tampered : value :=
  VObject [("data", VString "payload"); ("hmac", VString a64); ("_v", VNumber 1)].

(** [_wrapWithHmac(1)] under the key of [secure]. *)
Definition sealed_one : value :=
  VObject [("data", VNumber 1);
           ("hmac", VString "6510e69889ceb554137535a04566bf0831c78121b1dabbd4aa5be4661d2a220e");
           ("_v", VNumber 1)].

(** A storage area for [browser.storage.local]: its content, the clock,
    how many of the next reads and writes throw, and whether it drops
    the writes it accepts. *)
Record World : Type := MkWorld {
  data : list (string * value);
  time : Z;
  read_faults : nat;
  write_faults : nat;
  lossy : bool
}.

Definition select (q : StorageManager.query) (d : list (string * value))
  : list (string * value) :=
  match q with
  | StorageManager.All => d
  | StorageManager.Key k => omap (fun k => pair k <$> assoc k d) [k]
  | StorageManager.Keys ks => omap (fun k => pair k <$> assoc k d) ks
  end.

Definition local_get (q : StorageManager.query) (w : World)
  : World * result (list (string * value)) :=
  match read_faults w with
  | S n => (MkWorld (data w) (time w) n (write_faults w) (lossy w), Throw (Error "I/O error"))
  | O => (w, Ok (select q (data w)))
  end.

Definition local_set (items : list (string * value)) (w : World) : World * result unit :=
  match write_faults w with
  | S n => (MkWorld (data w) (time w) (read_faults w) n (lossy w), Throw (Error "I/O error"))
  | O =>
      if lossy w then (w, Ok tt)
      else (MkWorld (spread (data w) items) (time w) (read_faults w) 0 false, Ok tt)
  end.

Definition toISOString (v : value) : result string :=
  match v with
  | VNumber n => Ok ("T+" +:+ pretty n)
  | _ => Throw (Error "Invalid time value")
  end.

Definition start (w : World) : StorageManager.state World := StorageManager.State w [].

Definition flow (id : string) : value :=
  VObject [("id", VString id); ("name", VString "My flow"); ("drawflow", VObject [])].

(** A healthy area whose next two reads throw. *)
Definition two_read_faults : World :=
  MkWorld [("workflows", VObject [("a", flow "a")])] 1700000000000 2 0 false.

(** An area that accepts every write and keeps none, holding one workflow
    and an earlier backup of the collection. *)
Definition dropping_writes : World :=
  MkWorld [("workflows", VObject [("a", flow "a")]);
           ("__backup__workflows",
            VObject [("data", VObject []); ("timestamp", VNumber 1600000000000);
                     ("version", VString "1.0.0")])]
          1700000000000 0 0 true.

(** The collection the application tries to save there. *)
Definition two_flows : list (string * value) :=
  [("workflows", VObject [("a", flow "a"); ("b", flow "b")])].

(** An area last written by release [version]. *)
Definition written_by (version : string) : World :=
  MkWorld [("workflows", VObject [("a", flow "a")]);
           ("__storage_version__", VString version)]
          1700000000000 0 0 false.

Definition manager_get := StorageManager.get local_get.
Definition manager_set := StorageManager.set local_get local_set time toISOString.
Definition manager_initialize := StorageManager.initialize local_get local_set.

(** The workflow store as the plugin sees it, already retrieved. *)
Definition workflow_store : Pinia.store_def :=
  {| Pinia.id := "workflow";
     Pinia.storageMap := VObject [("workflows", VString "workflows")] |}.

Definition retrieved_stores : gmap string Pinia.store_state :=
  {[ "workflow" := {| Pinia.retrieved := true; Pinia.fields := [("workflows", VObject [])] |} ]}.

Definition one (id : string) : value := VObject [(id, flow id)].
Definition two (id1 id2 : string) : value := VObject [(id1, flow id1); (id2, flow id2)].

(** Nothing pending at time 0, over a healthy storage area. *)
Definition quiet : Pinia.state World :=
  Pinia.State 0 retrieved_stores ∅ ∅ ∅ 0 [] (start (written_by "1.0.0")).

(** Three saves of [workflows] at 0ms, 100ms and 250ms, the collection
    growing meanwhile and once more before the last window elapses. *)
Definition burst : list Pinia.action :=
  [Pinia.Save workflow_store "workflows";
   Pinia.Assign workflow_store "workflows" (one "a"); Pinia.Wait 100;
   Pinia.Save workflow_store "workflows";
   Pinia.Assign workflow_store "workflows" (two "a" "b"); Pinia.Wait 250;
   Pinia.Save workflow_store "workflows";
   Pinia.Assign workflow_store "workflows" (two "a" "c"); Pinia.Wait 550].

Definition pinia_run :=
  Pinia.run local_get local_set time toISOString (StorageManager.new true).

(** An electron-store that keeps what [JSON.parse] reads from the text of
    what it is given, as one that goes through its file does. *)
Definition Store_set_file (s : list (string * value)) (key : string) (v : value)
  : list (string * value) * result unit :=
  (assign key (reparse v) s, Ok tt).

(** The rest of the in-memory electron-store. *)
Definition Store_store (s : list (string * value)) : result (list (string * value)) := Ok s.

Definition migrateToHmac := SecureStore.migrateToHmac
  Crypto.SHA256 Crypto.HmacSHA256 Crypto.toString Store_get Store_set Store_store.
Definition get_store := SecureStore.get_store
  Crypto.SHA256 Crypto.HmacSHA256 Crypto.toString Store_store.

(** A store written before tags were introduced, with one entry wrapped
    since. *)
Definition legacy : list (string * value) :=
  [("theme", VString "dark"); ("count", sealed_one); ("recent", VArray [VString "a"])].

(** [browser.storage.local.remove] on the storage area. *)
Definition local_remove (q : StorageManager.query) (w : World) : World * result unit :=
  match write_faults w with
  | S n => (MkWorld (data w) (time w) (read_faults w) n (lossy w), Throw (Error "I/O error"))
  | O =>
      if lossy w then (w, Ok tt) else
      let gone (k : string) : bool :=
        match q with
        | StorageManager.All => false
        | StorageManager.Key k' => String.eqb k' k
        | StorageManager.Keys ks => bool_decide (k ∈ ks)
        end in
      (MkWorld (filter (fun kv => negb (gone kv.1)) (data w)) (time w) (read_faults w) 0 (lossy w),
       Ok tt)
  end.

(** A storage area that keeps the JSON copy of what it is given: a
    property that serializes to [undefined] is not stored, an
    [undefined] array element is stored as [null]. *)
Definition local_set_json (items : list (string * value)) (w : World) : World * result unit :=
  local_set (reparse_members items) w.

Definition manager_set_json := StorageManager.set local_get local_set_json time toISOString.

(** Items with an array that has an [undefined] element. *)
Definition recent_undefined : list (string * value) :=
  [("recent", VArray [VString "a"; VUndefined])].

(** A manager with two steps, registered the later one first; each
    leaves its label in the data. *)
Definition mark (label : string) (data : list (string * value))
  : result (list (string * value)) :=
  Ok (assign "steps"
        (match assoc "steps" data with
         | Some (VString done) => VString (done +:+ "," +:+ label)
         | _ => VString label
         end) data).

Definition two_steps : StorageManager.t :=
  {| StorageManager.isElectron := true;
     StorageManager.migrationHandlers := [("1.0.0", mark "1.0.0"); ("0.9.5", mark "0.9.5")] |}.

Definition manager_remove := StorageManager.remove local_remove.
Definition manager_createBackup := StorageManager.createBackup local_get local_set time.
Definition manager_restoreFromBackup :=
  StorageManager.restoreFromBackup local_get local_set toISOString.
Definition manager_getStats := StorageManager.getStats local_get.
Definition manager_clearBackups := StorageManager.clearBackups local_get local_remove.
Definition manager_runMigrations := StorageManager._runMigrations local_get local_set.

(** An area whose next three writes throw. *)
Definition three_write_faults : World :=
  MkWorld [("settings", VObject [("theme", VString "light")])] 1700000000000 0 3 false.

(** The settings the application tries to save there. *)
Definition settings : list (string * value) :=
  [("settings", VObject [("theme", VString "dark")])].

(** A healthy area that holds a backup. *)
Definition with_backup : World :=
  MkWorld [("workflows", VObject [("a", flow "a")]);
           ("__backup__workflows",
            VObject [("data", VObject []); ("timestamp", VNumber 1600000000000);
                     ("version", VString "1.0.0")]);
           ("__storage_version__", VString "1.0.0")]
          1700000000000 0 0 false.

(** A manager with a later migration that throws. *)
Definition failing_migration : StorageManager.t :=
  {| StorageManager.isElectron := true;
     StorageManager.migrationHandlers :=
       [("1.0.0", fun data => Ok data);
        ("1.1.0", fun _ => Throw (Error "Cannot read properties of undefined"))] |}.

Definition pinia_advance :=
  Pinia.advance local_get local_set time toISOString (StorageManager.new true).

(** The workflow store holding its collection under the collection's
    own name. *)
Definition nested_stores : gmap string Pinia.store_state :=
  {[ "workflow" := {| Pinia.retrieved := true;
                      Pinia.fields := [("workflows", WorkflowStore.wrapper (one "a"))] |} ]}.

(** Three more requests after the first, each with the collection as
    assigned since. *)
Definition more_requests : list (value * Z) :=
  [(one "a", 100); (two "a" "b", 250); (two "a" "c", 500)].

(** The area after a backup of [workflows] was taken and the collection
    itself was lost. *)
Definition lost_after_backup : World :=
  (local_remove (StorageManager.Key "workflows")
     (StorageManager.world
        (manager_createBackup "workflows" (start (written_by "1.0.0"))).1)).1.

(** An area that holds no workflows yet and whose next two writes throw. *)
Definition two_write_faults : World :=
  MkWorld [("settings", VObject [("theme", VString "light")])] 1700000000000 0 2 false.

(** Nothing pending and nothing suspended at time 0, over that area. *)
Definition quiet_faulty : Async.state World :=
  Async.State (Pinia.State 0 retrieved_stores ∅ ∅ ∅ 0 [] (start two_write_faults)) [].

Definition async_run :=
  Async.run local_get local_set time toISOString (StorageManager.new true).

Definition pinia_fire :=
  Pinia.fire local_get local_set time toISOString (StorageManager.new true).

(** The timer armed by the first request for [workflows] at time 0. *)
Definition workflows_timer : Pinia.timer :=
  {| Pinia.deadline := 300; Pinia.t_store := workflow_store; Pinia.t_key := "workflows";
     Pinia.t_storageKey := VString "workflows"; Pinia.t_queueKey := "workflow:workflows";
     Pinia.t_settles := 0 |}.

(** A save of [workflows] whose timer fires and whose callback goes on
    until the second pause of the manager, after the read for the backup
    and two writes that failed; the clock then reaches 750ms. *)
Definition save_until_second_pause : list Async.move :=
  [Async.Save workflow_store "workflows";
   Async.Assign workflow_store "workflows" (one "a");
   Async.Fire 0;
   Async.Resume 0; Async.Resume 0; Async.Resume 0; Async.Resume 0;
   Async.Tick 750].

(** The same with a second request while the callback of the first is
    suspended, and the timer of the second firing before the first
    callback goes on. *)
Definition save_during_save : list Async.move :=
  [Async.Save workflow_store "workflows";
   Async.Assign workflow_store "workflows" (one "a");
   Async.Fire 0;
   Async.Resume 0;
   Async.Assign workflow_store "workflows" (two "a" "b");
   Async.Save workflow_store "workflows";
   Async.Resume 0;
   Async.Fire 1].

End Memory.

(* ===================================================================== *)
(** * Properties of SecureStore *)
(* ===================================================================== *)

Section JSON_properties.

(** Induction on values, through the lists of arrays and objects. *)
Lemma value_nested_ind (P : value -> Prop) :
  P VUndefined -> P VNull -> (forall b, P (VBool b)) -> (forall n, P (VNumber n)) ->
  (forall n, P (VBigInt n)) -> (forall s, P (VString s)) ->
  (forall xs, Forall P xs -> P (VArray xs)) ->
  (forall fs, Forall (fun kv => P kv.2) fs -> P (VObject fs)) ->
  forall v, P v.
Proof.
  intros Hu Hn Hb Hz Hg Hs Ha Ho. fix IH 1.
  intros [| |b|n|n|s|xs|fs];
    [exact Hu | exact Hn | apply Hb | apply Hz | apply Hg | apply Hs | | ].
  - apply Ha. induction xs as [|x xs IHxs]; constructor; [apply IH | exact IHxs].
  - apply Ho. induction fs as [|[k x] fs IHfs]; constructor; [apply IH | exact IHfs].
Qed.

(** [stringify] and [reparse] on arrays and objects, through the named
    loops. *)
Lemma stringify_array (xs : list value) :
  stringify (VArray xs)
  = match stringify_elements xs with
    | Throw e => Throw e
    | Ok r => Ok (Some ("[" +:+ String.concat "," r +:+ "]"))
    end.
Proof. reflexivity. Qed.

Lemma stringify_object (fs : list (string * value)) :
  stringify (VObject fs)
  = match stringify_members fs with
    | Throw e => Throw e
    | Ok r => Ok (Some ("{" +:+ String.concat "," r +:+ "}"))
    end.
Proof. reflexivity. Qed.

Lemma reparse_array (xs : list value) :
  reparse (VArray xs) = VArray (map reparse_element xs).
Proof. reflexivity. Qed.

Lemma reparse_object (fs : list (string * value)) :
  reparse (VObject fs) = VObject (reparse_members fs).
Proof. reflexivity. Qed.

(** Only [undefined] serializes to [undefined]. *)
Lemma stringify_undefined (v : value) : stringify v = Ok None -> v = VUndefined.
Proof.
  destruct v as [| |b|n|n|s|xs|fs]; try discriminate; [reflexivity| |].
  - rewrite stringify_array. destruct (stringify_elements xs); discriminate.
  - rewrite stringify_object. destruct (stringify_members fs); discriminate.
Qed.

(** Reading a serialized value back and serializing it again gives the
    same text, or throws the same error. *)
Lemma stringify_reparse (v : value) : stringify (reparse v) = stringify v.
Proof.
  induction v as [| |b|n|n|t|xs IH|fs IH] using value_nested_ind; try reflexivity.
  - rewrite reparse_array, !stringify_array.
    assert (E : stringify_elements (map reparse_element xs) = stringify_elements xs);
      [|rewrite E; reflexivity].
    induction IH as [|x xs Hx _ IHxs]; [reflexivity|].
    cbn [map stringify_elements]. rewrite IHxs.
    destruct x; try (unfold reparse_element; rewrite Hx; reflexivity).
    cbn. destruct (stringify_elements xs); reflexivity.
  - rewrite reparse_object, !stringify_object.
    assert (E : stringify_members (reparse_members fs) = stringify_members fs);
      [|rewrite E; reflexivity].
    induction IH as [|[k x] fs Hx _ IHfs]; [reflexivity|]. cbn [snd] in Hx.
    destruct x; try (cbn [reparse_members stringify_members]; rewrite Hx, IHfs; reflexivity).
    cbn [reparse_members stringify_members stringify]. rewrite IHfs.
    destruct (stringify_members fs); reflexivity.
Qed.

End JSON_properties.

Section SecureStore_properties.

Context {WordArray Store : Type}.
Variable SHA256 : string -> WordArray.
Variable HmacSHA256 : option string -> WordArray -> WordArray.
Variable toString : WordArray -> string.
Variable Store_get : Store -> string -> result value.
Variable Store_set : Store -> string -> value -> Store * result unit.

#[local] Abbreviation _computeHmac := (SecureStore._computeHmac SHA256 HmacSHA256 toString).
#[local] Abbreviation _wrapWithHmac := (SecureStore._wrapWithHmac SHA256 HmacSHA256 toString).
#[local] Abbreviation _unwrapWithHmac := (SecureStore._unwrapWithHmac SHA256 HmacSHA256 toString).
#[local] Abbreviation get := (SecureStore.get SHA256 HmacSHA256 toString Store_get).
#[local] Abbreviation set := (SecureStore.set SHA256 HmacSHA256 toString Store_set).

#[local] Abbreviation tag_is_64_hex := (SecureStore.tag_is_64_hex HmacSHA256 toString).

Lemma wrapped_shape (data : value) (hmac : string) (rest : list (string * value)) :
  String.length hmac = 64%nat ->
  SecureStore._isHmacWrapped
    (VObject (("data", data) :: ("hmac", VString hmac) :: rest)) = true.
Proof.
  intros Hlen. unfold SecureStore._isHmacWrapped. cbn. rewrite Hlen. reflexivity.
Qed.

Lemma wrapped_is_object (v : value) :
  SecureStore._isHmacWrapped v = true -> exists fs, v = VObject fs.
Proof. destruct v; try discriminate. eauto. Qed.

Lemma wrapped_hmac_string (v : value) :
  SecureStore._isHmacWrapped v = true -> exists h, prop v "hmac" = VString h.
Proof.
  unfold SecureStore._isHmacWrapped. intros H.
  repeat (apply andb_prop in H as [H ?]).
  destruct (prop v "hmac"); try discriminate. eauto.
Qed.

(** C1. Reading a key whose stored entry has the wrapped shape but whose
    stored hmac is not the tag recomputed over the stored data returns
    the supplied default (never the stored data), without throwing, and
    writes exactly one security-incident record, which carries the
    clock reading, the store name, the key and the failure kind. *)
Theorem get_tampered_returns_default
    (this : SecureStore.t Store) (now : Z) (key : string)
    (defaultValue wrapped : value) (hmac expectedHmac : string) :
  Store_get (SecureStore.innerStore this) key = Ok wrapped ->
  SecureStore._isHmacWrapped wrapped = true ->
  prop wrapped "hmac" = VString hmac ->
  _computeHmac this (prop wrapped "data") = Ok expectedHmac ->
  hmac <> expectedHmac ->
  (get this now key defaultValue).2 = Ok defaultValue
  /\ SecureStore.incidents (get this now key defaultValue).1
     = [ {| SecureStore.timestamp := now;
            SecureStore.store := SecureStore.name this;
            SecureStore.key := key;
            SecureStore.error :=
              "HMAC verification failed for key: " +:+ key +:+
              ". Data may be tampered or corrupted.";
            SecureStore.type := "HMAC_VERIFICATION_FAILED" |} ].
Proof.
  intros Hget Hshape Hhmac Htag Hne.
  unfold SecureStore.get. rewrite Hget.
  destruct (wrapped_is_object _ Hshape) as [fs ->].
  unfold SecureStore._unwrapWithHmac.
  rewrite Hshape, Hhmac, Htag. cbn [negb].
  destruct (String.eqb_spec hmac expectedHmac) as [|_]; [contradiction|].
  cbn. split; reflexivity.
Qed.

(** ** Wrapping and unwrapping *)

Lemma wrap_of_wrapped (this : SecureStore.t Store) (v : value) :
  SecureStore._isHmacWrapped v = true -> _wrapWithHmac this v = Ok v.
Proof. intros H. unfold SecureStore._wrapWithHmac. rewrite H. reflexivity. Qed.

Lemma wrap_of_raw (this : SecureStore.t Store) (v w : value) :
  SecureStore._isHmacWrapped v = false ->
  _wrapWithHmac this v = Ok w ->
  exists hmac, _computeHmac this v = Ok hmac
    /\ w = VObject [("data", v); ("hmac", VString hmac); ("_v", VNumber 1)].
Proof.
  intros Hraw. unfold SecureStore._wrapWithHmac. rewrite Hraw.
  destruct (_computeHmac this v) as [hmac|e] eqn:E; [|discriminate].
  intros [= <-]. eauto.
Qed.

Lemma computeHmac_length (this : SecureStore.t Store) (v : value) (hmac : string) :
  tag_is_64_hex -> _computeHmac this v = Ok hmac -> String.length hmac = 64%nat.
Proof.
  intros Hlen. unfold SecureStore._computeHmac.
  destruct (stringify v); [|discriminate]. intros [= <-]. apply Hlen.
Qed.

(** C2, as the code has it.  Whenever [_wrapWithHmac] returns, wrapping
    its result again returns that same result; and for a value that is
    not itself of the wrapped shape, [_unwrapWithHmac] of the wrapped
    value returns the value, writing nothing to the console. *)
Theorem wrap_idempotent_unwrap_inverts_raw
    (this : SecureStore.t Store) (key : string) (v w : value) :
  tag_is_64_hex ->
  _wrapWithHmac this v = Ok w ->
  _wrapWithHmac this w = Ok w
  /\ (SecureStore._isHmacWrapped v = false -> _unwrapWithHmac this w key = ([], Ok v)).
Proof.
  intros Hlen Hwrap.
  destruct (SecureStore._isHmacWrapped v) eqn:Hshape.
  - rewrite (wrap_of_wrapped this v Hshape) in Hwrap. injection Hwrap as <-.
    split; [apply wrap_of_wrapped; assumption | discriminate].
  - destruct (wrap_of_raw this v w Hshape Hwrap) as (hmac & Htag & ->).
    pose proof (computeHmac_length this v hmac Hlen Htag) as H64.
    pose proof (wrapped_shape v hmac [("_v", VNumber 1)] H64) as Hw.
    split; [apply wrap_of_wrapped; assumption|]. intros _.
    unfold SecureStore._unwrapWithHmac. rewrite Hw. cbn [negb].
    change (prop (VObject [("data", v); ("hmac", VString hmac); ("_v", VNumber 1)]) "data")
      with v.
    change (prop (VObject [("data", v); ("hmac", VString hmac); ("_v", VNumber 1)]) "hmac")
      with (VString hmac).
    rewrite Htag, String.eqb_refl. reflexivity.
Qed.

(** ** The tag and the serialization *)

(** C3, as the code has it.  The tag is computed from the text
    [JSON.stringify] gives for the value and from nothing else: two
    values with the same text have the same tag, and so has a value and
    what [JSON.parse] reads back from its text. *)
Theorem tag_of_serialization (this : SecureStore.t Store) (v1 v2 : value) :
  stringify v1 = stringify v2 \/ json_clone v1 = Ok v2 ->
  _computeHmac this v1 = _computeHmac this v2.
Proof.
  intros [H|H].
  - unfold SecureStore._computeHmac. rewrite H. reflexivity.
  - unfold json_clone in H.
    destruct (stringify v1) as [[s|]|e] eqn:E; try discriminate.
    injection H as <-.
    unfold SecureStore._computeHmac. rewrite stringify_reparse. reflexivity.
Qed.

(** ** [set] *)

(** C10. [set] returns and never throws: it returns [true], writing
    nothing to the console, exactly when wrapping returned and the
    inner store took the wrapped value; otherwise it returns [false]
    after one console line naming the key and the error caught. *)
Theorem set_never_throws (this : SecureStore.t Store) (key : string) (v : value) :
  exists b : bool,
    (set this key v).2 = Ok b
    /\ (b = true <->
        exists wrapped, _wrapWithHmac this v = Ok wrapped
          /\ (Store_set (SecureStore.innerStore this) key wrapped).2 = Ok tt)
    /\ (if b then (set this key v).1.2 = []
        else exists e, (set this key v).1.2 = [SecureStore.FailedToSet key e]).
Proof.
  unfold SecureStore.set.
  destruct (_wrapWithHmac this v) as [wrapped|e] eqn:Hwrap.
  - destruct (Store_set (SecureStore.innerStore this) key wrapped) as [inner [[]|e]] eqn:Hset.
    + exists true. cbn. split; [reflexivity|]. split; [|reflexivity].
      split; [|reflexivity]. intros _. exists wrapped. rewrite Hset. split; reflexivity.
    + exists false. cbn. split; [reflexivity|]. split; [|eauto].
      split; [discriminate|]. intros (w' & [= <-] & H). rewrite Hset in H. discriminate.
  - exists false. cbn. split; [reflexivity|]. split; [|eauto].
    split; [discriminate|]. intros (w' & [=] & _).
Qed.

End SecureStore_properties.

(** C1, on a stored entry whose tag was overwritten. *)
Lemma get_tampered_returns_default_witness :
  (Memory.get (Memory.secure [("token", Memory.tampered)]) 1700000000000 "token" VNull).2
  = Ok VNull.
Proof.
  refine (proj1 (get_tampered_returns_default
                   Crypto.SHA256 Crypto.HmacSHA256 Crypto.toString Memory.Store_get
                   (Memory.secure [("token", Memory.tampered)]) 1700000000000 "token" VNull
                   Memory.tampered Memory.a64
                   "17d7b255c7cae8556398899b0101deb0bbca918eda492cbd05e621a16c18ff6f"
                   _ _ _ _ _)).
  - reflexivity.
  - reflexivity.
  - reflexivity.
  - vm_compute. reflexivity.
  - discriminate.
Defined.

(** The crypto-js instance prints 64 characters. *)
Lemma sha256_hex_length (msg : list Z) :
  String.length (Crypto.toString (Crypto.sha256 msg)) = 64%nat.
Proof.
  unfold Crypto.sha256.
  generalize (Crypto.blocks (length (Crypto.words (Crypto.pad msg))) Crypto.H0
                            (Crypto.words (Crypto.pad msg))).
  intros h. reflexivity.
Qed.

Lemma Crypto_tag_is_64_hex : SecureStore.tag_is_64_hex Crypto.HmacSHA256 Crypto.toString.
Proof. intros m k. apply sha256_hex_length. Qed.

(** C2, on the number 1 and its wrapping under the key of [Memory.secure]. *)
Lemma wrap_idempotent_unwrap_inverts_raw_witness :
  Memory._wrapWithHmac (Memory.secure []) Memory.sealed_one = Ok Memory.sealed_one
  /\ (SecureStore._isHmacWrapped (VNumber 1) = false ->
      Memory._unwrapWithHmac (Memory.secure []) Memory.sealed_one "count"
      = ([], Ok (VNumber 1))).
Proof.
  refine (wrap_idempotent_unwrap_inverts_raw
            Crypto.SHA256 Crypto.HmacSHA256 Crypto.toString
            (Memory.secure []) "count" (VNumber 1) Memory.sealed_one
            Crypto_tag_is_64_hex _).
  vm_compute. reflexivity.
Defined.

(** C2 as stated fails on a value that already has the wrapped shape:
    wrapping returns it as it is, and unwrapping then returns its [data]
    property, not the value. *)
Lemma unwrap_wrap_of_wrapped_shape :
  Memory._wrapWithHmac (Memory.secure []) Memory.sealed_one = Ok Memory.sealed_one
  /\ (Memory._unwrapWithHmac (Memory.secure []) Memory.sealed_one "count").2 = Ok (VNumber 1)
  /\ VNumber 1 <> Memory.sealed_one.
Proof. split; [|split]; [vm_compute; reflexivity | vm_compute; reflexivity | discriminate]. Qed.

(** C3, on an object with an [undefined] property and the object read
    back from its text. *)
Lemma tag_of_serialization_witness :
  Memory._computeHmac (Memory.secure [])
    (VObject [("a", VNumber 1); ("u", VUndefined)])
  = Memory._computeHmac (Memory.secure []) (VObject [("a", VNumber 1)]).
Proof.
  refine (tag_of_serialization Crypto.SHA256 Crypto.HmacSHA256 Crypto.toString
            (Memory.secure [])
            (VObject [("a", VNumber 1); ("u", VUndefined)])
            (VObject [("a", VNumber 1)]) _).
  right. reflexivity.
Defined.

(** C3 as stated fails: the same two fields in the other order have
    another text and, under HMAC-SHA256, another tag. *)
Lemma tag_depends_on_field_order :
  Permutation [("a", VNumber 1); ("b", VNumber 2)] [("b", VNumber 2); ("a", VNumber 1)]
  /\ Memory._computeHmac (Memory.secure []) (VObject [("a", VNumber 1); ("b", VNumber 2)])
     <> Memory._computeHmac (Memory.secure []) (VObject [("b", VNumber 2); ("a", VNumber 1)]).
Proof. split; [apply perm_swap | vm_compute; discriminate]. Qed.

Example tag_a_b :
  Memory._computeHmac (Memory.secure []) (VObject [("a", VNumber 1); ("b", VNumber 2)])
  = Ok "144da7d6f1350125f8b5f7368d9c5c2ac400efaf678136c523a6f926ed9d24f4".
Proof. vm_compute. reflexivity. Qed.

Example tag_b_a :
  Memory._computeHmac (Memory.secure []) (VObject [("b", VNumber 2); ("a", VNumber 1)])
  = Ok "9dccd3f52048e16992521e463b476e9a10e82012060e9b3711544da3f7843af0".
Proof. vm_compute. reflexivity. Qed.

(** C10 on a store whose file cannot be written: [false], not an error. *)
Example set_readonly_returns_false :
  (SecureStore.set Crypto.SHA256 Crypto.HmacSHA256 Crypto.toString Memory.Store_set_readonly
     (Memory.secure []) "count" (VNumber 1)).2 = Ok false.
Proof. vm_compute. reflexivity. Qed.

(** and on a value that cannot be serialized. *)
Example set_bigint_returns_false :
  (Memory.set (Memory.secure []) "count" (VBigInt 1)).2 = Ok false.
Proof. vm_compute. reflexivity. Qed.

(* ===================================================================== *)
(** * Properties of StorageManager *)
(* ===================================================================== *)

Section StorageManager_properties.

Import StorageManager.

Context {World : Type}.
Variable local_get : query -> World -> World * result (list (string * value)).
Variable local_set : list (string * value) -> World -> World * result unit.
Variable Date_now : World -> Z.
Variable toISOString : value -> result string.

#[local] Abbreviation get := (StorageManager.get local_get).
#[local] Abbreviation set := (StorageManager.set local_get local_set Date_now toISOString).
#[local] Abbreviation set_loop :=
  (StorageManager.set_loop local_get local_set toISOString).
#[local] Abbreviation write_once := (StorageManager.write_once local_get local_set).
#[local] Abbreviation createBackup := (StorageManager.createBackup local_get local_set Date_now).
#[local] Abbreviation restoreFromBackup :=
  (StorageManager.restoreFromBackup local_get local_set toISOString).
#[local] Abbreviation _runMigrations := (StorageManager._runMigrations local_get local_set).

(** ** Retries of [get] *)

Lemma lift_eq {A} (f : World -> World * result A) (s : state World) :
  lift f s = (State (f (world s)).1 (console s), (f (world s)).2).
Proof. unfold lift. destruct (f (world s)). reflexivity. Qed.

Lemma get_loop_returns (keys : query) (retries : nat) (lastError : option JS.error)
    (s : state World) (w : World) (r : list (string * value)) :
  local_get keys (world s) = (w, Ok r) ->
  get_loop local_get keys (S retries) lastError s = (State w (console s), Ok r).
Proof.
  intros H. cbn [get_loop]. unfold try_catch. rewrite lift_eq, H. reflexivity.
Qed.

Lemma get_loop_retries (keys : query) (retries : nat) (lastError : option JS.error)
    (s : state World) (w : World) (e : JS.error) :
  local_get keys (world s) = (w, Throw e) ->
  get_loop local_get keys (S retries) lastError s
  = get_loop local_get keys retries (Some e)
      (State w (console s ++ read_retry retries e)).
Proof.
  intros H. cbn [get_loop]. unfold try_catch at 1. rewrite lift_eq, H. cbn [fst snd].
  unfold read_retry, bind at 1.
  destruct (bool_decide (0 < retries)%nat); cbn.
  - rewrite <- app_assoc. reflexivity.
  - rewrite app_nil_r. reflexivity.
Qed.

(** C5, as the code has it.  When the read throws twice and then
    returns, [get] returns that result after exactly two pauses, of
    200ms and then 400ms; and the pause the loop takes before attempt
    [n], for [2 <= n <= MAX_RETRIES], is [2^(n-1) * 100] ms. *)
Theorem get_third_attempt_pauses
    (keys : query) (s : state World) (w1 w2 w3 : World) (e1 e2 : JS.error)
    (r : list (string * value)) :
  local_get keys (world s) = (w1, Throw e1) ->
  local_get keys w1 = (w2, Throw e2) ->
  local_get keys w2 = (w3, Ok r) ->
  get keys s
  = (State w3 (console s ++ [ReadRetry 1 200 e1; Sleep 200; ReadRetry 2 400 e2; Sleep 400]),
     Ok r)
  /\ sleeps (console (get keys s).1) = sleeps (console s) ++ [200; 400]
  /\ forall n : nat, (2 <= n <= MAX_RETRIES)%nat ->
       backoffDelay (MAX_RETRIES - (n - 1)) = 2 ^ (Z.of_nat n - 1) * 100.
Proof.
  intros H1 H2 H3.
  assert (E : get keys s
    = (State w3 (console s ++ [ReadRetry 1 200 e1; Sleep 200; ReadRetry 2 400 e2; Sleep 400]),
       Ok r)).
  { unfold StorageManager.get, MAX_RETRIES.
    rewrite (get_loop_retries keys 2 None s w1 e1 H1).
    erewrite get_loop_retries by (cbn [world]; exact H2).
    erewrite get_loop_returns by (cbn [world]; exact H3).
    cbn. rewrite <- app_assoc. reflexivity. }
  split; [exact E|]. split.
  - rewrite E. cbn [fst console]. unfold sleeps. rewrite omap_app. reflexivity.
  - intros n Hn. unfold MAX_RETRIES in *.
    assert (n = 2 \/ n = 3)%nat as [-> | ->] by lia; reflexivity.
Qed.

(** ** Backups, and the rollback of [set] *)

(** The lines of a log that are neither a pause, an alert nor the
    outcome of a restore. *)
Lemma quiet_app (l1 l2 : list event) :
  sleeps (l1 ++ l2) = sleeps l1 ++ sleeps l2
  /\ alerts (l1 ++ l2) = alerts l1 ++ alerts l2
  /\ restore_attempts (l1 ++ l2) = restore_attempts l1 ++ restore_attempts l2.
Proof. unfold sleeps, alerts, restore_attempts. rewrite !omap_app. auto. Qed.

(** [createBackup] returns, and writes one line at most, about the
    backup. *)
Lemma createBackup_returns (key : string) (s : state World) :
  exists (b : bool) (w : World) (log : list event),
    createBackup key s = (State w (console s ++ log), Ok b)
    /\ sleeps log = [] /\ alerts log = [] /\ restore_attempts log = [].
Proof.
  unfold StorageManager.createBackup, try_catch, bind at 1. rewrite lift_eq.
  destruct (local_get (Key key) (world s)) as [w [r|e]]; cbn [fst snd].
  - destruct (StorageManager.is_undefined (prop (VObject r) key)); cbn [negb].
    + exists false, w, []. cbn. rewrite app_nil_r. auto.
    + unfold bind, now. cbn [fst snd world console]. rewrite lift_eq. cbn [world console].
      destruct (local_set _ w) as [w' [[]|e]]; cbn.
      * exists true, w', [BackupCreated key]. auto.
      * exists false, w', [BackupFailed key e]. auto.
  - exists false, w, [BackupFailed key e]. cbn. auto.
Qed.

(** [restoreFromBackup] returns, and writes exactly one line, the
    outcome of the restore of that key. *)
Lemma restoreFromBackup_returns (key : string) (s : state World) :
  exists (b : bool) (w : World) (line : event),
    restoreFromBackup key s = (State w (console s ++ [line]), Ok b)
    /\ sleeps [line] = [] /\ alerts [line] = [] /\ restore_attempts [line] = [key].
Proof.
  unfold StorageManager.restoreFromBackup, try_catch, bind at 1. rewrite lift_eq.
  destruct (local_get _ (world s)) as [w [r|e]]; cbn [fst snd].
  - destruct (truthy _ && negb _).
    + unfold bind at 1. rewrite lift_eq. cbn [world console].
      destruct (local_set _ w) as [w' [[]|e]]; cbn [fst snd].
      * unfold bind, of_result.
        destruct (toISOString _) as [iso|e]; cbn.
        -- exists true, w', (Restored key iso). auto.
        -- exists false, w', (RestoreFailed key e). auto.
      * cbn. exists false, w', (RestoreFailed key e). auto.
    + cbn. exists false, w, (NoBackupFound key). auto.
  - cbn. exists false, w, (RestoreFailed key e). auto.
Qed.

Lemma for_each_restore (keys : list string) (s : state World) :
  exists (w : World) (log : list event),
    for_each keys restoreFromBackup s = (State w (console s ++ log), Ok tt)
    /\ sleeps log = [] /\ alerts log = [] /\ restore_attempts log = keys.
Proof.
  revert s. induction keys as [|key keys IH]; intros s.
  - exists (world s), []. cbn. rewrite app_nil_r. destruct s. auto.
  - cbn [for_each]. unfold bind.
    destruct (restoreFromBackup_returns key s) as (b & w1 & line & -> & Hs & Ha & Hk).
    destruct (IH (State w1 (console s ++ [line]))) as (w & log & -> & Hs' & Ha' & Hk').
    exists w, (line :: log). cbn [console]. rewrite <- app_assoc.
    split; [reflexivity|].
    change (line :: log) with ([line] ++ log).
    destruct (quiet_app [line] log) as (-> & -> & ->).
    rewrite Hs, Ha, Hk, Hs', Ha', Hk'. auto.
Qed.

Lemma backups_return (fields : list (string * value)) (options : options)
    (s : state World) :
  exists (w : World) (log : list event),
    backups local_get local_set Date_now fields options s
    = (State w (console s ++ log), Ok tt)
    /\ sleeps log = [] /\ alerts log = [] /\ restore_attempts log = [].
Proof.
  unfold backups.
  destruct (backup options || critical options);
    [|exists (world s), []; cbn; rewrite app_nil_r; destruct s; auto].
  generalize (keys fields) as ks. intros ks. revert s.
  induction ks as [|key ks IH]; intros s.
  - exists (world s), []. cbn. rewrite app_nil_r. destruct s. auto.
  - cbn [for_each]. unfold bind at 1.
    assert (H : exists (b : bool) (w : World) (log : list event),
               (if String.eqb key "workflows" || String.eqb key "savedBlocks"
                   || critical options
                then createBackup key else ret false) s
               = (State w (console s ++ log), Ok b)
               /\ sleeps log = [] /\ alerts log = [] /\ restore_attempts log = []).
    { destruct (_ || _ || _); [apply createBackup_returns|].
      exists false, (world s), []. cbn. rewrite app_nil_r. destruct s. auto. }
    destruct H as (b & w1 & l1 & -> & Hs & Ha & Hk).
    destruct (IH (State w1 (console s ++ l1))) as (w & log & -> & Hs' & Ha' & Hk').
    exists w, (l1 ++ log). cbn [console]. rewrite <- app_assoc.
    split; [reflexivity|].
    destruct (quiet_app l1 log) as (-> & -> & ->).
    rewrite Hs, Ha, Hk, Hs', Ha', Hk'. auto.
Qed.

(** A critical write that is accepted and then read back with another
    text is a failed attempt. *)
Lemma write_once_unverified (fields : list (string * value)) (options : options)
    (s : state World) (w1 w2 : World) (verification : list (string * value))
    (e : JS.error) :
  critical options = true ->
  local_set fields (world s) = (w1, Ok tt) ->
  local_get (Keys (keys fields)) w1 = (w2, Ok verification) ->
  verify verification fields = Throw e ->
  write_once fields options s = (State w2 (console s), Throw e).
Proof.
  intros Hc Hset Hget Hver. unfold StorageManager.write_once, bind at 1.
  rewrite lift_eq, Hset, Hc. cbn [fst snd]. unfold bind. rewrite lift_eq.
  cbn [world console]. rewrite Hget. cbn [fst snd]. unfold of_result. rewrite Hver.
  reflexivity.
Qed.

Lemma set_loop_retries (this : t) (fields : list (string * value)) (options : options)
    (retries : nat) (lastError : option JS.error) (s s1 : state World) (e : JS.error) :
  write_once fields options s = (s1, Throw e) ->
  set_loop this fields options (S retries) lastError s
  = set_loop this fields options retries (Some e)
      (State (world s1) (console s1 ++ write_retry retries e)).
Proof.
  intros H. cbn [StorageManager.set_loop]. unfold try_catch at 1. rewrite H.
  unfold write_retry, bind at 1.
  destruct (bool_decide (0 < retries)%nat); cbn.
  - rewrite <- app_assoc. reflexivity.
  - rewrite app_nil_r. destruct s1. reflexivity.
Qed.

(** When the attempts are used up: restore every key, alert, throw the
    last error. *)
Lemma set_loop_exhausted (this : t) (fields : list (string * value)) (options : options)
    (s : state World) (e : JS.error) :
  critical options = true ->
  exists (w : World) (restores : list event),
    set_loop this fields options 0 (Some e) s
    = (State w (console s ++ [WriteFailedRollback (Some e)] ++ restores
                ++ [UserAlert save_failed]),
       Throw e)
    /\ sleeps restores = [] /\ alerts restores = []
    /\ restore_attempts restores = keys fields.
Proof.
  intros Hc. cbn [StorageManager.set_loop]. rewrite Hc, orb_true_r.
  unfold bind at 1. cbn [emit fst snd].
  unfold bind at 1.
  destruct (for_each_restore (keys fields)
              (State (world s) (console s ++ [WriteFailedRollback (Some e)])))
    as (w & restores & -> & Hs & Ha & Hk).
  exists w, restores. cbn. rewrite <- !app_assoc. auto.
Qed.

(** A read-back whose text differs for some key makes [verify] throw
    the verification error of the first such key. *)
Lemma read_back_differs_fails (verification items : list (string * value)) :
  read_back_differs verification items ->
  exists key : string,
    key ∈ keys items
    /\ verify verification items
       = Throw (Error ("Write verification failed for " +:+ key)).
Proof.
  intros [Hok Hdiff].
  induction items as [|[k v] items IH]; [inversion Hdiff|].
  apply Forall_cons in Hok as [[Hv Hr] Hok]. cbn [fst snd] in Hv, Hr.
  cbn [verify].
  destruct (stringify (prop (VObject verification) k)) as [a|e] eqn:Ha; [|discriminate].
  destruct (stringify v) as [b|e] eqn:Hb; [|discriminate].
  destruct (bool_decide_reflect (a <> b)) as [Hne|Heq].
  - exists k. split; [left | reflexivity].
  - apply dec_stable in Heq. subst b.
    apply Exists_cons in Hdiff as [Hd|Hd]; [cbn [fst snd] in Hd; congruence|].
    destruct (IH Hok Hd) as (key & Hin & E). exists key. split; [right; exact Hin | exact E].
Qed.

(** Texts that differ belong to values that differ. *)
Lemma read_back_differs_unequal (verification items : list (string * value)) :
  read_back_differs verification items ->
  Exists (fun kv => prop (VObject verification) kv.1 <> kv.2) items.
Proof.
  intros [_ H]. eapply Exists_impl; [exact H|]. intros kv Hne E. apply Hne. rewrite E.
  reflexivity.
Qed.

(** What [restoreFromBackup] does to the storage area. *)
Lemma restoreFromBackup_world (key : string) (s : state World) :
  world (restoreFromBackup key s).1 = restored local_get local_set key (world s).
Proof.
  unfold StorageManager.restoreFromBackup, restored, try_catch, bind at 1. rewrite lift_eq.
  destruct (local_get _ (world s)) as [w [r|e]]; cbn [fst snd]; [|reflexivity].
  destruct (truthy _ && negb _); [|reflexivity].
  unfold bind at 1. rewrite lift_eq. cbn [world console].
  destruct (local_set _ w) as [w' [[]|e]]; cbn [fst snd]; [|reflexivity].
  unfold bind, of_result. destruct (toISOString _); reflexivity.
Qed.

Lemma for_each_restore_world (keys : list string) (s : state World) :
  world (for_each keys restoreFromBackup s).1
  = foldl (fun w key => restored local_get local_set key w) (world s) keys.
Proof.
  revert s. induction keys as [|key keys IH]; intros s; [reflexivity|].
  cbn [for_each foldl]. unfold bind.
  destruct (restoreFromBackup_returns key s) as (b & w1 & line & E & _).
  pose proof (restoreFromBackup_world key s) as Hw. rewrite E in Hw |- *.
  cbn [fst world] in Hw. rewrite <- Hw. apply IH.
Qed.

Lemma set_loop_exhausted_world (this : t) (fields : list (string * value))
    (options : options) (s : state World) (e : JS.error) :
  critical options = true ->
  world (set_loop this fields options 0 (Some e) s).1
  = foldl (fun w key => restored local_get local_set key w) (world s) (keys fields).
Proof.
  intros Hc. cbn [StorageManager.set_loop]. rewrite Hc, orb_true_r.
  unfold bind at 1. cbn [emit fst snd]. unfold bind at 1.
  pose proof (for_each_restore_world (keys fields)
                (State (world s) (console s ++ [WriteFailedRollback (Some e)]))) as Hw.
  destruct (for_each_restore (keys fields)
              (State (world s) (console s ++ [WriteFailedRollback (Some e)])))
    as (w & restores & E & _).
  rewrite E in Hw |- *. cbn in Hw |- *. exact Hw.
Qed.

(** C4, as the code has it.  A critical [set] over a storage area that
    accepts every write and, when the keys are read back, returns for
    some key a value whose JSON text is not the text of the value
    written: each attempt counts as a failed write, and after the third
    the manager restores every key of [items] from its backup (it reads
    the backup and writes its data back), then raises the alert, then
    throws the verification error of the last attempt, which names a key
    of [items]. *)
Theorem set_critical_unverified_write_fails
    (this : t) (fields : list (string * value)) (options : options)
    (s : state World) (silently_lost : World -> Prop) :
  critical options = true ->
  (forall w, silently_lost w ->
     exists (w1 w2 : World) (verification : list (string * value)),
       local_set fields w = (w1, Ok tt)
       /\ local_get (Keys (keys fields)) w1 = (w2, Ok verification)
       /\ read_back_differs verification fields
       /\ silently_lost w2) ->
  silently_lost (world (backups local_get local_set Date_now fields options s).1) ->
  exists (key : string) (before restores : list event) (w3 : World),
    key ∈ keys fields
    /\ (set this (VObject fields) options s).2
       = Throw (Error ("Write verification failed for " +:+ key))
    /\ console (set this (VObject fields) options s).1
       = console s ++ before ++ restores ++ [UserAlert save_failed]
    /\ restore_attempts restores = keys fields
    /\ restore_attempts before = [] /\ alerts before = [] /\ alerts restores = []
    /\ sleeps (before ++ restores) = [200; 400]
    /\ silently_lost w3
    /\ world (set this (VObject fields) options s).1
       = foldl (fun w key => restored local_get local_set key w) w3 (keys fields).
Proof.
  intros Hc Hlost H0.
  assert (E : set this (VObject fields) options s
              = (backups local_get local_set Date_now fields options >>
                 set_loop this fields options MAX_RETRIES None)%js s) by reflexivity.
  rewrite E. clear E. unfold bind at 1 2 3.
  destruct (backups_return fields options s) as (w0 & l0 & Hb & Hs0 & Ha0 & Hk0).
  rewrite Hb in H0 |- *. cbn [fst world] in H0.
  destruct (Hlost _ H0) as (w1 & w2 & v1 & Hset1 & Hget1 & Hd1 & I1).
  destruct (Hlost _ I1) as (w3 & w4 & v2 & Hset2 & Hget2 & Hd2 & I2).
  destruct (Hlost _ I2) as (w5 & w6 & v3 & Hset3 & Hget3 & Hd3 & I3).
  destruct (read_back_differs_fails v1 fields Hd1) as (k1 & _ & Hv1).
  destruct (read_back_differs_fails v2 fields Hd2) as (k2 & _ & Hv2).
  destruct (read_back_differs_fails v3 fields Hd3) as (k3 & Hin & Hv3).
  unfold MAX_RETRIES.
  erewrite set_loop_retries
    by (eapply write_once_unverified; [exact Hc | exact Hset1 | exact Hget1 | exact Hv1]).
  erewrite set_loop_retries
    by (eapply write_once_unverified; [exact Hc | exact Hset2 | exact Hget2 | exact Hv2]).
  erewrite set_loop_retries
    by (eapply write_once_unverified; [exact Hc | exact Hset3 | exact Hget3 | exact Hv3]).
  cbn [world console].
  match goal with |- context [set_loop this fields options 0 (Some ?e) ?st] =>
    pose proof (set_loop_exhausted_world this fields options st e Hc) as Hw;
    destruct (set_loop_exhausted this fields options st e Hc)
      as (w & restores & Eset & Hs & Ha & Hk) end.
  rewrite Eset in Hw |- *. cbn [fst world] in Hw.
  exists k3, (l0 ++ write_retry 2 (Error ("Write verification failed for " +:+ k1))
                 ++ write_retry 1 (Error ("Write verification failed for " +:+ k2))
                 ++ [WriteFailedRollback (Some (Error ("Write verification failed for " +:+ k3)))]),
         restores, w6.
  cbn [fst snd console world].
  split; [exact Hin|]. split; [reflexivity|]. split.
  { cbn. rewrite app_nil_r, <- !app_assoc. reflexivity. }
  split; [exact Hk|].
  destruct (quiet_app l0 (write_retry 2 (Error ("Write verification failed for " +:+ k1))
                 ++ write_retry 1 (Error ("Write verification failed for " +:+ k2))
                 ++ [WriteFailedRollback (Some (Error ("Write verification failed for " +:+ k3)))]))
    as (Eq1 & Eq2 & Eq3).
  rewrite Eq3, Eq2, Hk0, Ha0.
  split; [reflexivity|]. split; [reflexivity|]. split; [exact Ha|].
  split; [rewrite (proj1 (quiet_app _ restores)), Eq1, Hs0, Hs; reflexivity|].
  split; [exact I3 | exact Hw].
Qed.

Lemma verify_first_mismatch (verification pre post : list (string * value))
    (key : string) (value : value) (a b : option string) :
  verify verification pre = Ok tt ->
  stringify (prop (VObject verification) key) = Ok a ->
  stringify value = Ok b ->
  a <> b ->
  verify verification (pre ++ (key, value) :: post)
  = Throw (Error ("Write verification failed for " +:+ key)).
Proof.
  intros Hpre Ha Hb Hne. induction pre as [|[k x] pre IH]; cbn [app verify] in *.
  - rewrite Ha, Hb. rewrite bool_decide_true by assumption. reflexivity.
  - destruct (stringify (prop (VObject verification) k)); [|discriminate].
    destruct (stringify x); [|discriminate].
    destruct (bool_decide _); [discriminate|]. apply IH. assumption.
Qed.

(** ** Migrations *)

Lemma apply_migrations_returns (this : t) (versions : list string)
    (data data' : list (string * value)) (s s' : state World) :
  apply_migrations this versions data s = (s', Ok data') ->
  world s' = world s /\ console s' = console s ++ map ApplyingMigration versions.
Proof.
  revert data s. induction versions as [|v versions IH]; intros data s.
  - cbn. intros [= <- _]. rewrite app_nil_r. auto.
  - cbn [apply_migrations]. unfold bind at 1. cbn [emit fst snd].
    unfold bind at 1.
    destruct (find_handler this v) as [f|]; [|discriminate].
    unfold of_result at 1. destruct (f data) as [d|e]; [|discriminate].
    intros H. apply IH in H as [-> ->]. cbn. rewrite <- app_assoc. auto.
Qed.

Lemma applied_ApplyingMigration (versions : list string) :
  applied (map ApplyingMigration versions) = versions.
Proof. induction versions as [|v vs IH]; [reflexivity|]. cbn. f_equal. exact IH. Qed.

(** The order in which migrations are taken: the registered labels,
    sorted as strings. *)
Lemma sorted_versions_sorted (this : t) :
  Sorted (fun a b : string => String.leb a b) (sorted_versions this)
  /\ sorted_versions this ≡ₚ (migrationHandlers this).*1.
Proof.
  split.
  - apply (Sorted_merge_sort (fun a b : string => String.leb a b));
      intros a b; destruct (String.leb_total a b) as [H|H]; rewrite H; cbn; auto.
  - apply merge_sort_Permutation.
Qed.

(** The loop over the versions never touches the storage area, and
    returns or throws what the handlers do. *)
Lemma apply_migrations_run (this : t) (versions : list string)
    (data : list (string * value)) (s : state World) :
  exists log : list event,
    apply_migrations this versions data s
    = (State (world s) (console s ++ log), run_handlers this versions data)
    /\ exists n, log = ApplyingMigration <$> take n versions.
Proof.
  revert data s. induction versions as [|version versions IH]; intros data s.
  - exists []. cbn. rewrite app_nil_r. destruct s. split; [reflexivity|].
    exists 0%nat. reflexivity.
  - cbn [StorageManager.apply_migrations run_handlers]. unfold bind at 1.
    cbn [emit fst snd]. unfold bind at 1.
    destruct (find_handler this version) as [f|].
    + unfold of_result. destruct (f data) as [data'|e].
      * destruct (IH data' (State (world s) (console s ++ [ApplyingMigration version])))
          as (log & -> & n & ->).
        exists (ApplyingMigration version :: (ApplyingMigration <$> take n versions)).
        cbn [world console]. rewrite <- app_assoc. split; [reflexivity|].
        exists (S n). reflexivity.
      * exists [ApplyingMigration version]. split; [reflexivity|].
        exists 1%nat. destruct versions; reflexivity.
    + exists [ApplyingMigration version]. split; [reflexivity|].
      exists 1%nat. destruct versions; reflexivity.
Qed.

Lemma apply_migrations_ok (this : t) (versions : list string)
    (data data' : list (string * value)) (s : state World) :
  run_handlers this versions data = Ok data' ->
  apply_migrations this versions data s
  = (State (world s) (console s ++ map ApplyingMigration versions), Ok data').
Proof.
  intros H. destruct (apply_migrations_run this versions data s) as (log & E & _).
  rewrite H in E. destruct (apply_migrations_returns _ _ _ _ _ _ E) as [_ Hc].
  rewrite E. cbn [console] in Hc. rewrite Hc. reflexivity.
Qed.

(** [indexOf]: [-1] for a label that is not there, else the place of
    its first occurrence. *)
Lemma indexOf_absent (x : string) (l : list string) : x ∉ l -> indexOf x l = -1.
Proof.
  induction l as [|y l IH]; [reflexivity|]. intros H.
  apply not_elem_of_cons in H as [Hne H]. cbn [indexOf].
  destruct (String.eqb_spec y x) as [E|_]; [congruence|].
  rewrite (IH H). reflexivity.
Qed.

Lemma indexOf_first (x : string) (pre post : list string) :
  x ∉ pre -> indexOf x (pre ++ x :: post) = Z.of_nat (length pre).
Proof.
  induction pre as [|y pre IH]; intros H.
  - cbn. rewrite String.eqb_refl. reflexivity.
  - apply not_elem_of_cons in H as [Hne H]. cbn [app indexOf length].
    destruct (String.eqb_spec y x) as [E|_]; [congruence|].
    rewrite (IH H). destruct (Z.ltb_spec (Z.of_nat (length pre)) 0); lia.
Qed.

(** C9, as the code has it.  A migration pass returns in exactly three
    ways, after reading the persisted version.  It is [CURRENT_VERSION]:
    nothing else is read, nothing is written, nothing is logged.  It is
    absent (falsy): [CURRENT_VERSION] is written under the version key.
    It is another (truthy) value, earlier or later: the whole data is
    read, the handlers of the steps are run on it in order, each on the
    result of the one before, that result is written, and then
    [CURRENT_VERSION] is written under the version key.  The steps are
    the registered labels in the sorted order of strings: all of them
    when the persisted version is not a registered label, else those
    after its first place in that order, without a gap. *)
Theorem runMigrations_version (this : t) (s s' : state World) :
  let versions := sorted_versions this in
  (_runMigrations this s = (s', Ok tt)
   <-> exists (w1 : World) (r : list (string * value)),
         local_get (Key MIGRATION_VERSION_KEY) (world s) = (w1, Ok r)
         /\ let currentVersion := prop (VObject r) MIGRATION_VERSION_KEY in
            let steps := drop (startIndex currentVersion versions) versions in
            (currentVersion = VString CURRENT_VERSION /\ s' = State w1 (console s))
            \/ (truthy currentVersion = false
                /\ local_set [(MIGRATION_VERSION_KEY, VString CURRENT_VERSION)] w1
                   = (world s', Ok tt)
                /\ console s' = console s ++ [VersionInitialized CURRENT_VERSION])
            \/ (truthy currentVersion = true
                /\ currentVersion <> VString CURRENT_VERSION
                /\ exists (w2 w3 : World) (allData migrated : list (string * value)),
                     local_get All w1 = (w2, Ok allData)
                     /\ run_handlers this steps (spread [] allData) = Ok migrated
                     /\ local_set migrated w2 = (w3, Ok tt)
                     /\ local_set [(MIGRATION_VERSION_KEY, VString CURRENT_VERSION)] w3
                        = (world s', Ok tt)
                     /\ console s'
                        = console s ++ [MigrationNeeded currentVersion CURRENT_VERSION]
                          ++ map ApplyingMigration steps
                          ++ [MigrationComplete CURRENT_VERSION]))
  /\ Sorted (fun a b : string => String.leb a b) versions
  /\ versions ≡ₚ (migrationHandlers this).*1
  /\ (forall v, v ∉ versions ->
        drop (startIndex (VString v) versions) versions = versions)
  /\ (forall v pre post, versions = pre ++ v :: post -> v ∉ pre ->
        drop (startIndex (VString v) versions) versions = post).
Proof.
  intros versions.
  split; [|split; [apply sorted_versions_sorted|split; [apply sorted_versions_sorted|split]]].
  2:{ intros v Hv. unfold startIndex. rewrite (indexOf_absent v versions Hv). reflexivity. }
  2:{ intros v pre post E Hv. unfold startIndex. rewrite E, (indexOf_first v pre post Hv).
      replace (Z.to_nat (Z.of_nat (length pre) + 1)) with (length pre + 1)%nat by lia.
      rewrite drop_app_add'; reflexivity. }
  unfold StorageManager._runMigrations, try_catch.
  unfold bind at 1. rewrite lift_eq.
  destruct (local_get (Key MIGRATION_VERSION_KEY) (world s)) as [w1 [r|e]] eqn:Hget;
    cbn [fst snd].
  2:{ cbn. split; [discriminate|]. intros (x1 & x2 & [=] & _). }
  fold versions.
  remember (prop (VObject r) MIGRATION_VERSION_KEY) as currentVersion eqn:Ecv.
  assert (Hcases : forall (P : World -> list (string * value) -> Prop) (Q : Prop),
             (Q <-> P w1 r) ->
             (Q <-> exists (x1 : World) (x2 : list (string * value)),
                      (w1, Ok r) = (x1, Ok x2) /\ P x1 x2)).
  { intros P Q HPQ. rewrite HPQ. split.
    - intros H. exists w1, r. auto.
    - intros (x1 & x2 & [= <- <-] & H). exact H. }
  apply Hcases. cbv zeta. rewrite <- Ecv. clear Hcases.
  set (steps := drop (startIndex currentVersion versions) versions).
  assert (Hcur : match currentVersion with
                 | VString v => String.eqb v CURRENT_VERSION
                 | _ => false
                 end = true <-> currentVersion = VString CURRENT_VERSION).
  { destruct currentVersion; try (split; discriminate).
    rewrite String.eqb_eq. split; [intros ->; reflexivity | intros [= ->]; reflexivity]. }
  destruct (truthy currentVersion) eqn:Ht; cbn [negb orb].
  - destruct (match currentVersion with VString v => String.eqb v CURRENT_VERSION | _ => false end)
      eqn:Hc.
    + (* already current *)
      cbn. split.
      * intros [= <-]. left. split; [apply Hcur; reflexivity | reflexivity].
      * intros [[_ ->] | [[[=] _] | (_ & Hne & _)]]; [reflexivity|].
        destruct Hne. apply Hcur. reflexivity.
    + (* another version: migrate *)
      assert (Hne : currentVersion <> VString CURRENT_VERSION).
      { intros E. apply Hcur in E. congruence. }
      unfold bind at 1. cbn [emit fst snd world console].
      unfold bind at 1. rewrite lift_eq. cbn [world console].
      destruct (local_get All w1) as [w2 [allData|e]] eqn:Hall; cbn [fst snd].
      2:{ cbn. split; [discriminate|].
          intros [[E _] | [[[=] _] | (_ & _ & x2 & x3 & d & m & [=] & _)]].
          destruct (Hne E). }
      unfold bind at 1. fold steps.
      destruct (run_handlers this steps (spread [] allData)) as [migrated|e] eqn:Hrun.
      2:{ destruct (apply_migrations_run this steps (spread [] allData)
                      (State w2 (console s
                                 ++ [MigrationNeeded currentVersion CURRENT_VERSION])))
            as (log & -> & _).
          rewrite Hrun. cbn. split; [discriminate|].
          intros [[E _] | [[[=] _] | (_ & _ & x2 & x3 & d & m & [= <- <-] & E & _)]];
            [destruct (Hne E) | congruence]. }
      rewrite (apply_migrations_ok this steps _ migrated _ Hrun).
      cbn [world console].
      unfold bind at 1. rewrite lift_eq. cbn [world console].
      destruct (local_set migrated w2) as [w3 [[]|e]] eqn:Hset; cbn [fst snd].
      2:{ cbn. split; [discriminate|].
          intros [[E _] | [[[=] _] | (_ & _ & x2 & x3 & d & m & [= <- <-] & E & E' & _)]];
            [destruct (Hne E) | congruence]. }
      unfold bind at 1. rewrite lift_eq. cbn [world console].
      destruct (local_set [(MIGRATION_VERSION_KEY, VString CURRENT_VERSION)] w3)
        as [w4 [[]|e]] eqn:Hlast; cbn [fst snd].
      2:{ cbn. split; [discriminate|].
          intros [[E _] | [[[=] _]
                          | (_ & _ & x2 & x3 & d & m & [= <- <-] & E & E' & E'' & _)]];
            [destruct (Hne E) | congruence]. }
      cbn. split.
      * intros [= <-]. right. right. split; [reflexivity|]. split; [exact Hne|].
        exists w2, w3, allData, migrated. cbn [world console].
        rewrite <- !app_assoc. auto.
      * intros [[E _] | [[[=] _]
                        | (_ & _ & x2 & x3 & d & m & [= <- <-] & E & E' & E'' & Hcons)]];
          [destruct (Hne E)|].
        assert (m = migrated) as -> by congruence.
        assert (x3 = w3) as -> by congruence.
        destruct s' as [ws' cs']. cbn [world console] in *.
        rewrite Hlast in E''. injection E'' as <-. rewrite Hcons, <- !app_assoc.
        reflexivity.
  - (* no version yet *)
    unfold bind at 1. rewrite lift_eq. cbn [world console].
    destruct (local_set [(MIGRATION_VERSION_KEY, VString CURRENT_VERSION)] w1)
      as [w2 [[]|e]] eqn:Hlast; cbn [fst snd].
    2:{ cbn. split; [discriminate|].
        intros [[E _] | [(_ & E & _) | ([=] & _)]]; [|congruence].
        rewrite E in Ht. discriminate. }
    cbn. split.
    + intros [= <-]. right. left. auto.
    + intros [[E _] | [(_ & E & Hcons) | ([=] & _)]].
      * rewrite E in Ht. discriminate.
      * destruct s' as [ws' cs']. cbn [world console] in *.
        injection E as <-. rewrite Hcons. reflexivity.
Qed.

End StorageManager_properties.

(** C5, on an area whose first two reads throw. *)
Lemma get_third_attempt_pauses_witness :
  StorageManager.sleeps
    (StorageManager.console
       (Memory.manager_get (StorageManager.Key "workflows")
          (Memory.start Memory.two_read_faults)).1)
  = [200; 400].
Proof.
  refine (proj1 (proj2 (get_third_attempt_pauses Memory.local_get
            (StorageManager.Key "workflows") (Memory.start Memory.two_read_faults)
            (Memory.MkWorld (Memory.data Memory.two_read_faults) 1700000000000 1 0 false)
            (Memory.MkWorld (Memory.data Memory.two_read_faults) 1700000000000 0 0 false)
            (Memory.MkWorld (Memory.data Memory.two_read_faults) 1700000000000 0 0 false)
            (Error "I/O error") (Error "I/O error")
            [("workflows", VObject [("a", Memory.flow "a")])] _ _ _)));
    reflexivity.
Defined.

(** C5 as stated fails: after two failed reads the third succeeds, and
    the two pauses taken were not of 100ms and 200ms. *)
Lemma get_pauses_not_100_200 :
  (Memory.manager_get (StorageManager.Key "workflows")
     (Memory.start Memory.two_read_faults)).2
  = Ok [("workflows", VObject [("a", Memory.flow "a")])]
  /\ StorageManager.sleeps
       (StorageManager.console
          (Memory.manager_get (StorageManager.Key "workflows")
             (Memory.start Memory.two_read_faults)).1)
     <> [100; 200].
Proof. split; [reflexivity | vm_compute; discriminate]. Qed.

(** C4, on an area that accepts the write of two workflows and keeps the
    one it had. *)
Lemma set_critical_unverified_write_fails_witness :
  exists (key : string) (before restores : list StorageManager.event) (w3 : Memory.World),
    key ∈ keys Memory.two_flows
    /\ (Memory.manager_set (StorageManager.new true) (VObject Memory.two_flows)
          {| StorageManager.backup := true; StorageManager.critical := true |}
          (Memory.start Memory.dropping_writes)).2
       = Throw (Error ("Write verification failed for " +:+ key))
    /\ StorageManager.console
         (Memory.manager_set (StorageManager.new true) (VObject Memory.two_flows)
            {| StorageManager.backup := true; StorageManager.critical := true |}
            (Memory.start Memory.dropping_writes)).1
       = [] ++ before ++ restores ++ [StorageManager.UserAlert StorageManager.save_failed]
    /\ StorageManager.restore_attempts restores = keys Memory.two_flows
    /\ StorageManager.restore_attempts before = []
    /\ StorageManager.alerts before = [] /\ StorageManager.alerts restores = []
    /\ StorageManager.sleeps (before ++ restores) = [200; 400]
    /\ w3 = Memory.dropping_writes
    /\ StorageManager.world
         (Memory.manager_set (StorageManager.new true) (VObject Memory.two_flows)
            {| StorageManager.backup := true; StorageManager.critical := true |}
            (Memory.start Memory.dropping_writes)).1
       = foldl (fun w key => StorageManager.restored Memory.local_get Memory.local_set key w)
           w3 (keys Memory.two_flows).
Proof.
  refine (set_critical_unverified_write_fails
            Memory.local_get Memory.local_set Memory.time Memory.toISOString
            (StorageManager.new true) Memory.two_flows
            {| StorageManager.backup := true; StorageManager.critical := true |}
            (Memory.start Memory.dropping_writes)
            (fun w => w = Memory.dropping_writes) _ _ _).
  - reflexivity.
  - intros w ->.
    exists Memory.dropping_writes, Memory.dropping_writes,
      [("workflows", VObject [("a", Memory.flow "a")])].
    split; [reflexivity|]. split; [reflexivity|]. split; [|reflexivity].
    split.
    + repeat constructor.
    + left. cbn [fst snd]. vm_compute. discriminate.
  - vm_compute. reflexivity.
Defined.

(** The claim as it stands fails where a read-back differs from the
    value written and has the same text: over an area that keeps the JSON
    copy of what it is given, a critical [set] of an array with an
    [undefined] element reads back an array with [null] in its place,
    and returns [true] at the first attempt, with no alert. *)
Lemma set_accepts_unequal_read_back :
  exists (w1 w2 : Memory.World) (verification : list (string * value)),
    Memory.local_set_json Memory.recent_undefined (Memory.written_by "1.0.0") = (w1, Ok tt)
    /\ Memory.local_get (StorageManager.Keys (keys Memory.recent_undefined)) w1
       = (w2, Ok verification)
    /\ prop (VObject verification) "recent" <> prop (VObject Memory.recent_undefined) "recent"
    /\ Memory.manager_set_json (StorageManager.new true) (VObject Memory.recent_undefined)
         {| StorageManager.backup := true; StorageManager.critical := true |}
         (Memory.start (Memory.written_by "1.0.0"))
       = (StorageManager.State w2 [], Ok true).
Proof.
  eexists _, _, _. split; [reflexivity|]. split; [reflexivity|].
  split; [vm_compute; discriminate | vm_compute; reflexivity].
Qed.

Example set_dropping_writes_log :
  StorageManager.console
    (Memory.manager_set (StorageManager.new true) (VObject Memory.two_flows)
       {| StorageManager.backup := true; StorageManager.critical := true |}
       (Memory.start Memory.dropping_writes)).1
  = [StorageManager.BackupCreated "workflows";
     StorageManager.WriteRetry 1 200 (Error "Write verification failed for workflows");
     StorageManager.Sleep 200;
     StorageManager.WriteRetry 2 400 (Error "Write verification failed for workflows");
     StorageManager.Sleep 400;
     StorageManager.WriteFailedRollback (Some (Error "Write verification failed for workflows"));
     StorageManager.Restored "workflows" "T+1600000000000";
     StorageManager.UserAlert StorageManager.save_failed].
Proof. vm_compute. reflexivity. Qed.

(** C9, on an area last written by a release 0.9.0, with two steps
    registered out of their order. *)
Lemma runMigrations_version_witness :
  exists (w1 : Memory.World) (r : list (string * value)),
    Memory.local_get (StorageManager.Key StorageManager.MIGRATION_VERSION_KEY)
      (Memory.written_by "0.9.0") = (w1, Ok r)
    /\ let final :=
         (Memory.manager_initialize Memory.two_steps
            (Memory.start (Memory.written_by "0.9.0"))).1 in
       let currentVersion := prop (VObject r) StorageManager.MIGRATION_VERSION_KEY in
       let steps :=
         drop (StorageManager.startIndex currentVersion
                 (StorageManager.sorted_versions Memory.two_steps))
              (StorageManager.sorted_versions Memory.two_steps) in
       (currentVersion = VString StorageManager.CURRENT_VERSION
        /\ final = StorageManager.State w1 [])
       \/ (truthy currentVersion = false
           /\ Memory.local_set
                [(StorageManager.MIGRATION_VERSION_KEY, VString StorageManager.CURRENT_VERSION)]
                w1
              = (StorageManager.world final, Ok tt)
           /\ StorageManager.console final
              = [] ++ [StorageManager.VersionInitialized StorageManager.CURRENT_VERSION])
       \/ (truthy currentVersion = true
           /\ currentVersion <> VString StorageManager.CURRENT_VERSION
           /\ exists (w2 w3 : Memory.World) (allData migrated : list (string * value)),
                Memory.local_get StorageManager.All w1 = (w2, Ok allData)
                /\ StorageManager.run_handlers Memory.two_steps steps (spread [] allData)
                   = Ok migrated
                /\ Memory.local_set migrated w2 = (w3, Ok tt)
                /\ Memory.local_set
                     [(StorageManager.MIGRATION_VERSION_KEY,
                       VString StorageManager.CURRENT_VERSION)] w3
                   = (StorageManager.world final, Ok tt)
                /\ StorageManager.console final
                   = [] ++ [StorageManager.MigrationNeeded currentVersion
                              StorageManager.CURRENT_VERSION]
                     ++ map StorageManager.ApplyingMigration steps
                     ++ [StorageManager.MigrationComplete StorageManager.CURRENT_VERSION]).
Proof.
  refine (proj1 (proj1 (runMigrations_version Memory.local_get Memory.local_set
                          Memory.two_steps (Memory.start (Memory.written_by "0.9.0"))
                          (Memory.manager_initialize Memory.two_steps
                             (Memory.start (Memory.written_by "0.9.0"))).1)) _).
  vm_compute. reflexivity.
Defined.

(** What that pass does: the step registered second comes first, and
    the data written is what the two handlers made of the data read. *)
Example two_steps_in_sorted_order :
  StorageManager.sorted_versions Memory.two_steps = ["0.9.5"; "1.0.0"]
  /\ StorageManager.applied
       (StorageManager.console
          (Memory.manager_initialize Memory.two_steps
             (Memory.start (Memory.written_by "0.9.0"))).1)
     = ["0.9.5"; "1.0.0"]
  /\ Memory.data
       (StorageManager.world
          (Memory.manager_initialize Memory.two_steps
             (Memory.start (Memory.written_by "0.9.0"))).1)
     = [("workflows", VObject [("a", Memory.flow "a")]);
        ("__storage_version__", VString "1.0.0");
        ("steps", VString "0.9.5,1.0.0")].
Proof. repeat split; vm_compute; reflexivity. Qed.

(** C9 as stated fails: on an area last written by a release 2.0.0 the
    pass returns and leaves the version 1.0.0, which is the earlier one. *)
Lemma initialize_lowers_later_version :
  (Memory.manager_initialize (StorageManager.new true)
     (Memory.start (Memory.written_by "2.0.0"))).2 = Ok tt
  /\ assoc StorageManager.MIGRATION_VERSION_KEY
       (Memory.data (StorageManager.world
          (Memory.manager_initialize (StorageManager.new true)
             (Memory.start (Memory.written_by "2.0.0"))).1))
     = Some (VString "1.0.0")
  /\ String.ltb "1.0.0" "2.0.0" = true.
Proof. repeat split; vm_compute; reflexivity. Qed.

Example initialize_current_is_noop :
  Memory.manager_initialize (StorageManager.new true)
    (Memory.start (Memory.written_by "1.0.0"))
  = (Memory.start (Memory.written_by "1.0.0"), Ok tt).
Proof. vm_compute. reflexivity. Qed.

(* ===================================================================== *)
(** * Properties of the workflow-collection repair *)
(* ===================================================================== *)

Section WorkflowStore_properties.

Import WorkflowStore.

(** ** Property lists *)

Lemma assoc_assign (k k' : string) (x : value) (fs : list (string * value)) :
  assoc k (assign k' x fs) = if String.eqb k' k then Some x else assoc k fs.
Proof.
  induction fs as [|[k0 y] fs IH]; cbn.
  - destruct (String.eqb k' k); reflexivity.
  - destruct (String.eqb_spec k0 k') as [->|Hne]; cbn.
    + destruct (String.eqb k' k); reflexivity.
    + rewrite IH. destruct (String.eqb_spec k0 k) as [->|]; [|reflexivity].
      destruct (String.eqb_spec k' k) as [->|]; [contradiction|reflexivity].
Qed.

Lemma assoc_None (k : string) (fs : list (string * value)) :
  k ∉ keys fs -> assoc k fs = None.
Proof.
  induction fs as [|[k0 y] fs IH]; cbn; [reflexivity|]. intros H.
  apply not_elem_of_cons in H as [Hne H].
  destruct (String.eqb_spec k0 k); [congruence|]. apply IH, H.
Qed.

(** In [{ ...a, ...b }] the properties of [b] win. *)
Lemma assoc_spread (k : string) (a b : list (string * value)) :
  NoDup (keys b) ->
  assoc k (spread a b) = match assoc k b with Some x => Some x | None => assoc k a end.
Proof.
  unfold spread. revert a. induction b as [|[k0 y] b IH]; intros a Hnd; [reflexivity|].
  cbn in Hnd. apply NoDup_cons in Hnd as [Hfresh Hnd].
  cbn [foldl fst snd assoc]. rewrite (IH _ Hnd), assoc_assign.
  destruct (String.eqb_spec k0 k) as [->|]; [|reflexivity].
  rewrite (assoc_None k b Hfresh). reflexivity.
Qed.

Lemma assoc_without (k k' : string) (fs : list (string * value)) :
  assoc k (without k' fs) = if String.eqb k k' then None else assoc k fs.
Proof.
  unfold without. induction fs as [|[k0 y] fs IH].
  - cbn. destruct (String.eqb k k'); reflexivity.
  - rewrite filter_cons. cbn [fst assoc]. destruct (decide (k0 <> k')) as [Hne|Heq].
    + cbn [assoc]. rewrite IH. destruct (String.eqb_spec k0 k) as [->|]; [|reflexivity].
      destruct (String.eqb_spec k k'); [contradiction|reflexivity].
    + assert (k0 = k') as -> by (destruct (decide (k0 = k')); [assumption|contradiction]).
      rewrite IH. destruct (String.eqb_spec k' k) as [->|Hne].
      * rewrite String.eqb_refl. reflexivity.
      * reflexivity.
Qed.

Lemma NoDup_without (k : string) (fs : list (string * value)) :
  NoDup (keys fs) -> NoDup (keys (without k fs)).
Proof.
  unfold without, keys. induction fs as [|[k0 y] fs IH]; [auto|]. intros Hnd.
  cbn [fmap list_fmap fst] in Hnd.
  apply NoDup_cons in Hnd as [Hfresh Hnd]. rewrite filter_cons.
  destruct (decide _); [|auto]. cbn [fmap list_fmap fst]. apply NoDup_cons. split; [|auto].
  intros Hin. apply Hfresh. apply list_elem_of_fmap in Hin as ([k1 y1] & -> & Hin).
  apply list_elem_of_filter in Hin as [_ Hin]. apply list_elem_of_fmap. exists (k1, y1). auto.
Qed.

(** ** The loop *)

(** One turn of the [while] loop, with the property read from the
    object as the source reads it. *)
Lemma unwrap_loop_eq (unwrapped : value) (unwrapCount : nat) :
  unwrap_loop unwrapped unwrapCount
  = if nested unwrapped unwrapCount then
      let workflowsValue := prop unwrapped "workflows" in
      if isActualWorkflow workflowsValue then Ok unwrapped
      else if bool_decide (length (keys (entries unwrapped)) = 1%nat)
      then unwrap_loop workflowsValue (S unwrapCount)
      else
        match convertWorkflowsToObject workflowsValue with
        | Throw e => Throw e
        | Ok unwrappedNested =>
            Ok (VObject (spread (spread [] (entries unwrappedNested))
                                (without "workflows" (entries unwrapped))))
        end
    else Ok unwrapped.
Proof.
  destruct unwrapped as [| |b|n|n|s|xs|fs];
    try (cbn; unfold nested; cbn; rewrite ?andb_false_r; reflexivity).
  cbn [unwrap_loop].
  match goal with |- context [match ?f with Some _ => _ | None => _ end] =>
    assert (Hfind : f = unwrap_loop <$> assoc "workflows" fs) end.
  { clear. induction fs as [|[k x] fs IH]; [reflexivity|]. cbn [assoc].
    destruct (String.eqb k "workflows"); [reflexivity | exact IH]. }
  rewrite Hfind. clear Hfind.
  destruct (nested (VObject fs) unwrapCount) eqn:Hn; [|reflexivity].
  cbv zeta. cbn [prop entries].
  destruct (assoc "workflows" fs) as [w|] eqn:Hw.
  - cbn [default fmap option_fmap option_map].
    destruct (isActualWorkflow w); [reflexivity|].
    destruct (bool_decide _); [reflexivity|].
    unfold convertWorkflowsToObject. destruct w; reflexivity.
  - unfold nested in Hn. cbn [prop] in Hn. rewrite Hw in Hn. cbn in Hn.
    discriminate.
Qed.

Lemma nested_first (fields : list (string * value)) (w : value) :
  assoc "workflows" fields = Some w -> truthy w = true -> is_object_type w = true ->
  nested (VObject fields) 0 = true.
Proof.
  intros Hw Ht Ho. unfold nested. cbn [prop truthy]. rewrite Hw. cbn [default from_option id].
  rewrite Ht, Ho. reflexivity.
Qed.

Lemma isActualWorkflow_spec (w : value) :
  isActualWorkflow w = true <-> exists id, prop w "id" = VString id /\ id <> "".
Proof.
  unfold isActualWorkflow. split.
  - intros H. apply andb_prop in H as [Ht Hs].
    destruct (prop w "id") as [| |b|n|n|id|xs|fs]; try discriminate.
    exists id. split; [reflexivity|]. intros ->. discriminate.
  - intros (id & -> & Hne). cbn.
    destruct (String.eqb_spec id ""); [contradiction|reflexivity].
Qed.

(** The first turn of the loop on an object whose [workflows] property
    is an object. *)
Lemma convert_on_nested (fields : list (string * value)) (w : value) :
  assoc "workflows" fields = Some w ->
  truthy w = true ->
  is_object_type w = true ->
  convertWorkflowsToObject (VObject fields)
  = if isActualWorkflow w then Ok (VObject fields)
    else if bool_decide (length fields = 1%nat)
    then or_empty <$> unwrap_loop w 1
    else
      match convertWorkflowsToObject w with
      | Throw e => Throw e
      | Ok unwrappedNested =>
          Ok (VObject (spread (spread [] (entries unwrappedNested))
                              (without "workflows" fields)))
      end.
Proof.
  intros Hw Ht Ho.
  pose proof (nested_first fields w Hw Ht Ho) as Hn.
  assert (E0 : convertWorkflowsToObject (VObject fields)
               = or_empty <$> unwrap_loop (VObject fields) 0) by reflexivity.
  rewrite E0, unwrap_loop_eq, Hn. cbv zeta.
  cbn [prop entries]. rewrite Hw. cbn [default from_option id]. unfold keys. rewrite length_fmap.
  destruct (isActualWorkflow w); [reflexivity|].
  destruct (bool_decide (length fields = 1%nat)); [reflexivity|].
  destruct (convertWorkflowsToObject w); reflexivity.
Qed.

(** C7, as the code has it.  On an object whose [workflows] property is
    itself an object, the repair stops at once and returns the object
    unchanged exactly when that nested value has an [id] that is a
    non-empty string, whatever the string; otherwise it goes on: a pure
    wrapper is unwrapped, a mixed object is merged. *)
Theorem convert_stops_on_nested_id (fields : list (string * value)) (w : value) :
  assoc "workflows" fields = Some w ->
  truthy w = true ->
  is_object_type w = true ->
  ((exists id, prop w "id" = VString id /\ id <> "") ->
     convertWorkflowsToObject (VObject fields) = Ok (VObject fields))
  /\ (~ (exists id, prop w "id" = VString id /\ id <> "") ->
        convertWorkflowsToObject (VObject fields)
        = if bool_decide (length fields = 1%nat)
          then or_empty <$> unwrap_loop w 1
          else
            match convertWorkflowsToObject w with
            | Throw e => Throw e
            | Ok unwrappedNested =>
                Ok (VObject (spread (spread [] (entries unwrappedNested))
                                    (without "workflows" fields)))
            end).
Proof.
  intros Hw Ht Ho. rewrite (convert_on_nested fields w Hw Ht Ho). split.
  - intros Hid. apply isActualWorkflow_spec in Hid. rewrite Hid. reflexivity.
  - intros Hid. destruct (isActualWorkflow w) eqn:E; [|reflexivity].
    exfalso. apply Hid, isActualWorkflow_spec, E.
Qed.

(** C8. On an object that has, next to a [workflows] property holding
    an object without a string [id], other properties of its own: the
    nested value is repaired by the function itself and merged with the
    other properties, and that is the result; in it every property of
    the root other than [workflows] has the root's value, and every
    other key has what the repaired nested value has. *)
Theorem convert_mixed_merges (fields : list (string * value)) (w : value) :
  NoDup (keys fields) ->
  assoc "workflows" fields = Some w ->
  truthy w = true ->
  is_object_type w = true ->
  isActualWorkflow w = false ->
  length fields <> 1%nat ->
  convertWorkflowsToObject (VObject fields)
  = match convertWorkflowsToObject w with
    | Throw e => Throw e
    | Ok unwrappedNested =>
        Ok (VObject (spread (spread [] (entries unwrappedNested))
                            (without "workflows" fields)))
    end
  /\ forall (unwrappedNested : value) (k : string),
       convertWorkflowsToObject w = Ok unwrappedNested ->
       prop (VObject (spread (spread [] (entries unwrappedNested))
                             (without "workflows" fields))) k
       = if bool_decide (k <> "workflows" /\ k ∈ keys fields)
         then prop (VObject fields) k
         else prop (VObject (spread [] (entries unwrappedNested))) k.
Proof.
  intros Hnd Hw Ht Ho Hid Hlen. split.
  - rewrite (convert_on_nested fields w Hw Ht Ho), Hid.
    rewrite bool_decide_false by assumption. reflexivity.
  - intros n k _. cbn [prop].
    rewrite (assoc_spread k _ _ (NoDup_without "workflows" fields Hnd)), assoc_without.
    destruct (String.eqb_spec k "workflows") as [->|Hne].
    + rewrite bool_decide_false by (intros [? _]; congruence). reflexivity.
    + destruct (assoc k fields) as [x|] eqn:Hk.
      * rewrite bool_decide_true; [reflexivity|]. split; [assumption|].
        destruct (decide (k ∈ keys fields)) as [|Hnot]; [assumption|].
        rewrite (assoc_None k fields Hnot) in Hk. discriminate.
      * rewrite bool_decide_false; [reflexivity|]. intros [_ Hin].
        clear -Hin Hk. induction fields as [|[k0 y] fs IH]; [inversion Hin|].
        cbn in Hk, Hin. destruct (String.eqb_spec k0 k) as [->|Hne]; [discriminate|].
        apply elem_of_cons in Hin as [->|Hin]; [contradiction|]. apply IH; assumption.
Qed.

End WorkflowStore_properties.

(** C7, on the workflow that is named like the collection. *)
Lemma convert_stops_on_nested_id_witness :
  WorkflowStore.convertWorkflowsToObject
    (VObject [("workflows", VObject [("id", VString "workflows"); ("name", VString "My flow")])])
  = Ok (VObject [("workflows", VObject [("id", VString "workflows"); ("name", VString "My flow")])]).
Proof.
  refine (proj1 (convert_stops_on_nested_id
            [("workflows", VObject [("id", VString "workflows"); ("name", VString "My flow")])]
            (VObject [("id", VString "workflows"); ("name", VString "My flow")])
            _ _ _) _);
    [reflexivity | reflexivity | reflexivity |].
  exists "workflows". split; [reflexivity | discriminate].
Defined.

(** C7 as stated fails: a nested value whose [id] is not the name of the
    outer key stops the repair just as well, and the wrapper stays. *)
Lemma convert_keeps_wrapper_with_other_id :
  WorkflowStore.convertWorkflowsToObject
    (VObject [("workflows", VObject [("id", VString "abc"); ("name", VString "My flow")])])
  = Ok (VObject [("workflows", VObject [("id", VString "abc"); ("name", VString "My flow")])])
  /\ "abc" <> "workflows".
Proof. split; [vm_compute; reflexivity | discriminate]. Qed.

(** C8, on the mixed collection of the specification. *)
Lemma convert_mixed_merges_witness :
  WorkflowStore.convertWorkflowsToObject
    (VObject [("workflows", VObject [("a", VObject [("id", VString "a")])]);
              ("c", VObject [("id", VString "c")])])
  = Ok (VObject [("a", VObject [("id", VString "a")]);
                 ("c", VObject [("id", VString "c")])]).
Proof.
  refine (proj1 (convert_mixed_merges
            [("workflows", VObject [("a", VObject [("id", VString "a")])]);
             ("c", VObject [("id", VString "c")])]
            (VObject [("a", VObject [("id", VString "a")])]) _ _ _ _ _ _)).
  - apply (bool_decide_unpack _). vm_compute. exact I.
  - reflexivity.
  - reflexivity.
  - reflexivity.
  - reflexivity.
  - discriminate.
Defined.

Example convert_pure_wrapper :
  WorkflowStore.convertWorkflowsToObject
    (VObject [("workflows", VObject [("a", VObject [("id", VString "a")]);
                                     ("b", VObject [("id", VString "b")])])])
  = Ok (VObject [("a", VObject [("id", VString "a")]);
                 ("b", VObject [("id", VString "b")])]).
Proof. vm_compute. reflexivity. Qed.

(** On a collision the merged collection has the root's entry. *)
Example convert_mixed_collision :
  WorkflowStore.convertWorkflowsToObject
    (VObject [("workflows", VObject [("a", VObject [("id", VString "a"); ("name", VString "old")])]);
              ("a", VObject [("id", VString "a"); ("name", VString "new")])])
  = Ok (VObject [("a", VObject [("id", VString "a"); ("name", VString "new")])]).
Proof. vm_compute. reflexivity. Qed.

(* ===================================================================== *)
(** * Properties of the debounced save *)
(* ===================================================================== *)

Section Pinia_properties.

Import Pinia.

Context {World : Type}.
Variable local_get : StorageManager.query -> World -> World * result (list (string * value)).
Variable local_set : list (string * value) -> World -> World * result unit.
Variable Date_now : World -> Z.
Variable toISOString : value -> result string.
Variable storageManager : StorageManager.t.

#[local] Abbreviation saveToStorage := (@Pinia.saveToStorage World).
#[local] Abbreviation fire :=
  (Pinia.fire local_get local_set Date_now toISOString storageManager).
#[local] Abbreviation advance :=
  (Pinia.advance local_get local_set Date_now toISOString storageManager).
#[local] Abbreviation manager_set :=
  (StorageManager.set local_get local_set Date_now toISOString storageManager).

#[local] Arguments StorageManager.set : simpl never.

(** ** Single steps *)

(** A first request: one pending promise, one timer, one queue entry. *)
Lemma saveToStorage_first (store : store_def) (key : string) (st : state World) :
  truthy (storageMap store) = true ->
  truthy (prop (storageMap store) key) = true ->
  retrieved (store_of st store) = true ->
  saveQueues st !! (id store +:+ ":" +:+ key) = None ->
  saveToStorage store key st
  = (State (clock st) (stores st)
       (<[id store +:+ ":" +:+ key :=
            {| timeoutId := next_timer st; settles := length (promises st) |}]>
          (saveQueues st))
       (saveRetryAttempts st)
       (<[next_timer st :=
            {| deadline := clock st + debounce; t_store := store; t_key := key;
               t_storageKey := prop (storageMap store) key;
               t_queueKey := id store +:+ ":" +:+ key;
               t_settles := length (promises st) |}]> (timers st))
       (S (next_timer st)) (promises st ++ [Pending]) (manager st),
     length (promises st)).
Proof.
  intros Hm Hk Hr Hq. unfold Pinia.saveToStorage. rewrite Hm, Hk, Hr, Hq. reflexivity.
Qed.

(** A request that finds an entry for the same store and key: its timer
    is cleared and its promise rejected, then the new window starts. *)
Lemma saveToStorage_supersedes (store : store_def) (key : string) (st : state World)
    (existingQueue : queue_entry) :
  truthy (storageMap store) = true ->
  truthy (prop (storageMap store) key) = true ->
  retrieved (store_of st store) = true ->
  saveQueues st !! (id store +:+ ":" +:+ key) = Some existingQueue ->
  promises st !! settles existingQueue = Some Pending ->
  saveToStorage store key st
  = (State (clock st) (stores st)
       (<[id store +:+ ":" +:+ key :=
            {| timeoutId := next_timer st; settles := length (promises st) |}]>
          (saveQueues st))
       (saveRetryAttempts st)
       (<[next_timer st :=
            {| deadline := clock st + debounce; t_store := store; t_key := key;
               t_storageKey := prop (storageMap store) key;
               t_queueKey := id store +:+ ":" +:+ key;
               t_settles := length (promises st) |}]>
          (delete (timeoutId existingQueue) (timers st)))
       (S (next_timer st))
       (<[settles existingQueue := Rejected cancelled]> (promises st) ++ [Pending])
       (manager st),
     length (promises st)).
Proof.
  intros Hm Hk Hr Hq Hp. unfold Pinia.saveToStorage. rewrite Hm, Hk, Hr, Hq.
  cbn [negb orb]. unfold settle, clearTimeout. cbn [promises]. rewrite Hp.
  unfold new_promise, setTimeout, with_saveQueues. cbn.
  rewrite length_insert. reflexivity.
Qed.

(** Time passing while the only timer is not yet due. *)
Lemma advance_before (t : Z) (st : state World) (n : nat) (tm : timer) :
  timers st = {[n := tm]} ->
  t < deadline tm ->
  advance t st
  = State (Z.max (clock st) t) (stores st) (saveQueues st) (saveRetryAttempts st)
          (timers st) (next_timer st) (promises st) (manager st).
Proof.
  destruct st as [c ss q ra ts nt ps m]. cbn [timers]. intros -> Hlt.
  unfold Pinia.advance, due. cbn [timers]. rewrite map_to_list_singleton.
  rewrite filter_cons, filter_nil. cbn [snd].
  destruct (decide (deadline tm <= t)); [lia|]. reflexivity.
Qed.

(** Time passing until the only timer is due: it fires. *)
Lemma advance_fires (t : Z) (st : state World) (n : nat) (tm : timer) :
  timers st = {[n := tm]} ->
  deadline tm <= t ->
  advance t st
  = let st' := fire tm (clearTimeout n st) in
    State (Z.max (clock st') t) (stores st') (saveQueues st') (saveRetryAttempts st')
          (timers st') (next_timer st') (promises st') (manager st').
Proof.
  destruct st as [c ss q ra ts nt ps m]. cbn [timers]. intros -> Hle.
  unfold Pinia.advance, due. cbn [timers]. rewrite map_to_list_singleton.
  rewrite filter_cons, filter_nil. cbn [snd].
  destruct (decide (deadline tm <= t)); [|lia].
  change (merge_sort earlier [(n, tm)]) with [(n, tm)].
  cbn [foldl fst snd timers]. rewrite lookup_singleton_eq. reflexivity.
Qed.

Lemma store_of_mutate (store : store_def) (key : string) (v : value) (st : state World) :
  store_of (mutate store key v st) store
  = {| retrieved := retrieved (store_of st store);
       fields := assign key v (fields (store_of st store)) |}.
Proof. unfold store_of, mutate. cbn [stores]. rewrite lookup_insert_eq. reflexivity. Qed.

Lemma settle_last (ps : list promise) (outcome : promise) (st : state World) :
  promises st = ps ++ [Pending] ->
  settle (length ps) outcome st
  = State (clock st) (stores st) (saveQueues st) (saveRetryAttempts st)
          (timers st) (next_timer st) (ps ++ [outcome]) (manager st).
Proof.
  intros Hp. unfold settle. rewrite Hp, list_lookup_middle by reflexivity.
  rewrite insert_app_r_alt by lia. rewrite Nat.sub_diag. reflexivity.
Qed.

(** ** One request pending *)

Lemma first_request (store : store_def) (key : string)
    (c : Z) (ss : gmap string store_state)
    (ra : gmap string Z) (nt : nat) (ps : list promise) (m : StorageManager.state World) :
  truthy (storageMap store) = true ->
  truthy (prop (storageMap store) key) = true ->
  retrieved (store_of (State c ss ∅ ra ∅ nt ps m) store) = true ->
  saveToStorage store key (State c ss ∅ ra ∅ nt ps m)
  = (one_pending store key (c + debounce) nt c ss ra (S nt) ps m, length ps).
Proof.
  intros Hm Hk Hr.
  rewrite saveToStorage_first; [| assumption | assumption | assumption | apply lookup_empty].
  unfold one_pending. cbn. rewrite !insert_empty. reflexivity.
Qed.

Lemma next_request (store : store_def) (key : string)
    (due_at : Z) (n : nat) (c : Z) (ss : gmap string store_state)
    (ra : gmap string Z) (nt : nat) (ps : list promise) (m : StorageManager.state World) :
  truthy (storageMap store) = true ->
  truthy (prop (storageMap store) key) = true ->
  retrieved (store_of (one_pending store key due_at n c ss ra nt ps m) store) = true ->
  saveToStorage store key (one_pending store key due_at n c ss ra nt ps m)
  = (one_pending store key (c + debounce) nt c ss ra (S nt)
       (ps ++ [Rejected cancelled]) m,
     S (length ps)).
Proof.
  intros Hm Hk Hr.
  rewrite saveToStorage_supersedes
    with (existingQueue := {| timeoutId := n; settles := length ps |});
    [| assumption | assumption | assumption
     | unfold one_pending; cbn; apply lookup_singleton_eq
     | unfold one_pending; cbn; apply list_lookup_middle; reflexivity].
  unfold one_pending. cbn.
  rewrite insert_singleton_eq, delete_singleton_eq, insert_empty.
  rewrite insert_app_r_alt by lia. rewrite Nat.sub_diag. cbn.
  rewrite !length_app. cbn. rewrite Nat.add_1_r. reflexivity.
Qed.

Lemma assign_pending (store : store_def) (key : string) (v : value)
    (due_at : Z) (n : nat) (c : Z) (ss : gmap string store_state)
    (ra : gmap string Z) (nt : nat) (ps : list promise) (m : StorageManager.state World) :
  mutate store key v (one_pending store key due_at n c ss ra nt ps m)
  = one_pending store key due_at n c
      (<[id store := {| retrieved := retrieved (store_of (State c ss ∅ ra ∅ nt ps m) store);
                        fields := assign key v
                                    (fields (store_of (State c ss ∅ ra ∅ nt ps m) store)) |}]> ss)
      ra nt ps m.
Proof. reflexivity. Qed.

Lemma wait_pending (store : store_def) (key : string) (t : Z)
    (due_at : Z) (n : nat) (c : Z) (ss : gmap string store_state)
    (ra : gmap string Z) (nt : nat) (ps : list promise) (m : StorageManager.state World) :
  t < due_at ->
  advance t (one_pending store key due_at n c ss ra nt ps m)
  = one_pending store key due_at n (Z.max c t) ss ra nt ps m.
Proof. intros Hlt. unfold one_pending. erewrite advance_before; reflexivity || assumption. Qed.

(** The window elapses: the timer fires, the manager is called once with
    the copy of the property, the promise settles by the outcome. *)
Lemma elapse_pending (store : store_def) (key : string) (T : Z) (value : value)
    (due_at : Z) (n : nat) (c : Z) (ss : gmap string store_state)
    (ra : gmap string Z) (nt : nat) (ps : list promise) (m : StorageManager.state World) :
  due_at <= T ->
  snapshot key (prop (VObject (fields (store_of (State c ss ∅ ra ∅ nt ps m) store))) key)
  = Ok value ->
  let write :=
    manager_set (VObject [(to_string (prop (storageMap store) key), value)])
      {| StorageManager.backup := isCritical key;
         StorageManager.critical := isCritical key |} m in
  advance T (one_pending store key due_at n c ss ra nt ps m)
  = State (Z.max c T) ss ∅ (delete (id store +:+ ":" +:+ key) ra) ∅ nt
      (ps ++ [match write.2 with Ok _ => Resolved | Throw e => Rejected e end])
      write.1.
Proof.
  intros Hle Hsnap write. unfold one_pending. erewrite advance_fires; [|reflexivity|assumption].
  unfold Pinia.fire, clearTimeout, with_saveQueues. cbn.
  rewrite !delete_singleton_eq. unfold store_of in Hsnap |- *. cbn in Hsnap |- *.
  rewrite Hsnap. fold write. destruct write as [m' [b|e]]; cbn.
  - unfold delete_saveRetryAttempts, with_manager. cbn.
    erewrite settle_last by reflexivity. reflexivity.
  - unfold delete_saveRetryAttempts, with_manager. cbn.
    erewrite settle_last by reflexivity. reflexivity.
Qed.

(** ** Three requests in one window *)


End Pinia_properties.


(** What that run leaves: the two superseded promises rejected, the third
    resolved, and the collection as it was when the last window elapsed. *)
Example burst_outcome :
  Pinia.promises (Memory.pinia_run Memory.burst Memory.quiet)
  = [Pinia.Rejected Pinia.cancelled; Pinia.Rejected Pinia.cancelled; Pinia.Resolved]
  /\ assoc "workflows"
       (Memory.data (StorageManager.world
          (Pinia.manager (Memory.pinia_run Memory.burst Memory.quiet))))
     = Some (Memory.two "a" "c").
Proof. split; vm_compute; reflexivity. Qed.

(** The digest instance against published values: SHA-256 of "abc"
    (FIPS 180-4, appendix B.1) and an HMAC under a key longer than a block. *)
Example sha256_abc :
  Crypto.toString (Crypto.SHA256 "abc")
  = "ba7816bf8f01cfea414140de5dae2223b00361a396177a9cb410ff61f20015ad".
Proof. vm_compute. reflexivity. Qed.

Example hmac_long_key :
  Crypto.toString (Crypto.hmac_sha256 (replicate 100 120) (Crypto.utf8 "abc"))
  = "c943ae4ba853256e0d741769bad8e0151afddacc654539f0be4776e9fe7b6e89".
Proof. vm_compute. reflexivity. Qed.

(** [JSON.stringify] drops an [undefined] property and prints an
    [undefined] element as [null]. *)
Example stringify_sample :
  stringify (VObject [("a", VNumber 1); ("u", VUndefined);
                      ("b", VArray [VString "x"; VUndefined; VNull; VBool true])])
  = Ok (Some ("{" +:+ quote "a" +:+ ":1," +:+ quote "b" +:+ ":[" +:+ quote "x"
              +:+ ",null,null,true]}")).
Proof. vm_compute. reflexivity. Qed.

(** A save asked for before the store has been retrieved returns a
    resolved promise and arms no timer. *)
Example save_before_retrieved :
  Pinia.saveToStorage Memory.workflow_store "workflows"
    (Pinia.State 0 ∅ ∅ ∅ ∅ 0 [] (Memory.start (Memory.written_by "1.0.0")))
  = (Pinia.State 0 ∅ ∅ ∅ ∅ 0 [Pinia.Resolved] (Memory.start (Memory.written_by "1.0.0")), 0%nat).
Proof. reflexivity. Qed.

(** A collection nested under its own key is refused when its window
    elapses: the promise is rejected and nothing is written. *)
Example save_refuses_nested_collection :
  let final :=
    Memory.pinia_run
      [Pinia.Assign Memory.workflow_store "workflows"
         (VObject [("workflows", Memory.one "a")]);
       Pinia.Save Memory.workflow_store "workflows";
       Pinia.Wait 300] Memory.quiet in
  Pinia.promises final
  = [Pinia.Rejected (Error "Refusing to save corrupted workflows structure with nesting")]
  /\ Pinia.manager final = Memory.start (Memory.written_by "1.0.0").
Proof. split; vm_compute; reflexivity. Qed.


(* ===================================================================== *)
(** * Further properties of SecureStore *)
(* ===================================================================== *)

Section SecureStore_reads.

Context {WordArray Store : Type}.
Variable SHA256 : string -> WordArray.
Variable HmacSHA256 : option string -> WordArray -> WordArray.
Variable toString : WordArray -> string.
Variable Store_get : Store -> string -> result value.
Variable Store_set : Store -> string -> value -> Store * result unit.
Variable Store_store : Store -> result (list (string * value)).

#[local] Abbreviation _computeHmac := (SecureStore._computeHmac SHA256 HmacSHA256 toString).
#[local] Abbreviation _wrapWithHmac := (SecureStore._wrapWithHmac SHA256 HmacSHA256 toString).
#[local] Abbreviation _unwrapWithHmac := (SecureStore._unwrapWithHmac SHA256 HmacSHA256 toString).
#[local] Abbreviation get := (SecureStore.get SHA256 HmacSHA256 toString Store_get).
#[local] Abbreviation set := (SecureStore.set SHA256 HmacSHA256 toString Store_set).
#[local] Abbreviation get_store := (SecureStore.get_store SHA256 HmacSHA256 toString Store_store).
#[local] Abbreviation tag_is_64_hex := (SecureStore.tag_is_64_hex HmacSHA256 toString).
#[local] Abbreviation verified_value :=
  (SecureStore.verified_value SHA256 HmacSHA256 toString (Store := Store)).
#[local] Abbreviation fails_verification :=
  (SecureStore.fails_verification SHA256 HmacSHA256 toString (Store := Store)).

(** What [_unwrapWithHmac] returns, it returns silently, and it is the
    value itself when that has not the wrapped shape, else its [data],
    whose tag is then the stored one. *)
Lemma unwrap_returns (this : SecureStore.t Store) (stored : value) (key : string)
    (log : list SecureStore.event) (v : value) :
  _unwrapWithHmac this stored key = (log, Ok v) ->
  log = []
  /\ ((SecureStore._isHmacWrapped stored = false /\ v = stored)
      \/ (SecureStore._isHmacWrapped stored = true /\ v = prop stored "data"
          /\ exists hmac, prop stored "hmac" = VString hmac
                          /\ _computeHmac this (prop stored "data") = Ok hmac)).
Proof.
  unfold SecureStore._unwrapWithHmac.
  destruct (SecureStore._isHmacWrapped stored) eqn:Hshape; cbn [negb].
  - destruct (wrapped_hmac_string stored Hshape) as [h Hh]. rewrite Hh.
    destruct (_computeHmac this (prop stored "data")) as [expected|e]; [|discriminate].
    destruct (String.eqb_spec h expected) as [->|]; cbn [negb]; [|discriminate].
    intros [= <- <-]. split; [reflexivity|]. right. eauto.
  - intros [= <- <-]. auto.
Qed.

(** What it throws: one error, after the three console lines at most. *)
Lemma unwrap_throws (this : SecureStore.t Store) (stored : value) (key : string)
    (log : list SecureStore.event) (e : JS.error) :
  _unwrapWithHmac this stored key = (log, Throw e) ->
  SecureStore.incidents log = [].
Proof.
  unfold SecureStore._unwrapWithHmac.
  destruct (SecureStore._isHmacWrapped stored); cbn [negb]; [|discriminate].
  destruct (_computeHmac this (prop stored "data")); [|intros [= <- _]; reflexivity].
  destruct (negb _); [|discriminate]. intros [= <- _]. reflexivity.
Qed.

(** X1. [get] never throws, and returns the stored data exactly when
    it verifies.  For a key the inner store does not have it returns the
    default; for a stored value that has not the wrapped shape, that
    value; for a wrapped entry whose stored tag is the tag of its
    [data], that [data]; all three without a line on the console.  For a
    wrapped entry whose tag differs, or whose [data] cannot be
    serialized, and when the inner store throws, it returns the default
    and writes exactly one incident record, which carries the time, the
    name of the store, the key and the message of the error. *)
Theorem get_returns_default_or_verified
    (this : SecureStore.t Store) (now : Z) (key : string) (defaultValue : value) :
  let incident (e : JS.error) :=
    {| SecureStore.timestamp := now;
       SecureStore.store := SecureStore.name this;
       SecureStore.key := key;
       SecureStore.error := message e;
       SecureStore.type := "HMAC_VERIFICATION_FAILED" |} in
  let refused (e : JS.error) :=
    (get this now key defaultValue).2 = Ok defaultValue
    /\ SecureStore.incidents (get this now key defaultValue).1 = [incident e] in
  (exists v : value, (get this now key defaultValue).2 = Ok v)
  /\ (forall e, Store_get (SecureStore.innerStore this) key = Throw e -> refused e)
  /\ (forall stored, Store_get (SecureStore.innerStore this) key = Ok stored ->
        (stored = VUndefined -> get this now key defaultValue = ([], Ok defaultValue))
        /\ (stored <> VUndefined -> SecureStore._isHmacWrapped stored = false ->
            get this now key defaultValue = ([], Ok stored))
        /\ (SecureStore._isHmacWrapped stored = true ->
            exists hmac, prop stored "hmac" = VString hmac
              /\ (forall expected,
                    _computeHmac this (prop stored "data") = Ok expected ->
                    (hmac = expected ->
                     get this now key defaultValue = ([], Ok (prop stored "data")))
                    /\ (hmac <> expected ->
                        refused (Error ("HMAC verification failed for key: " +:+ key +:+
                                        ". Data may be tampered or corrupted."))))
              /\ (forall e, _computeHmac this (prop stored "data") = Throw e -> refused e))).
Proof.
  intros incident refused. subst refused. cbv beta. unfold SecureStore.get.
  destruct (Store_get (SecureStore.innerStore this) key) as [stored|e] eqn:Hget.
  2:{ split; [eexists; reflexivity|]. split; [|discriminate].
      intros e' [= <-]. split; reflexivity. }
  assert (Hu : stored <> VUndefined ->
               match stored with VUndefined => true | _ => false end = false)
    by (destruct stored; congruence).
  split; [|split; [discriminate|]].
  - destruct (match stored with VUndefined => true | _ => false end);
      [eexists; reflexivity|].
    destruct (_unwrapWithHmac this stored key) as [log [v|e]]; eexists; reflexivity.
  - intros stored' [= <-]. split; [intros ->; reflexivity|]. split.
    + intros Hne Hraw. rewrite (Hu Hne). unfold SecureStore._unwrapWithHmac.
      rewrite Hraw. reflexivity.
    + intros Hshape.
      assert (Hne : stored <> VUndefined) by (intros ->; discriminate).
      rewrite (Hu Hne). unfold SecureStore._unwrapWithHmac. rewrite Hshape. cbn [negb].
      destruct (wrapped_hmac_string stored Hshape) as [h Hh]. rewrite Hh.
      exists h. split; [reflexivity|]. split.
      * intros expected ->. split.
        -- intros ->. rewrite String.eqb_refl. reflexivity.
        -- intros Hdiff. apply String.eqb_neq in Hdiff. rewrite Hdiff. cbn [negb].
           split; reflexivity.
      * intros e ->. split; reflexivity.
Qed.

(** ** Writing, then reading *)

Lemma reparse_wrapped (v : value) (hmac : string) :
  v <> VUndefined ->
  reparse (VObject [("data", v); ("hmac", VString hmac); ("_v", VNumber 1)])
  = VObject [("data", reparse v); ("hmac", VString hmac); ("_v", VNumber 1)].
Proof. intros Hv. destruct v; try contradiction; reflexivity. Qed.


(** ** The whole store *)

Lemma get_store_fold (this : SecureStore.t Store) (allData : list (string * value))
    (log : list SecureStore.line) (verified : list (string * value)) (k : string) :
  NoDup (keys allData) ->
  assoc k
    (foldl (fun (acc : list SecureStore.line * list (string * value))
                (entry : string * value) =>
              let '(log, verified) := acc in
              match _unwrapWithHmac this entry.2 entry.1 with
              | (l, Ok data) =>
                  (log ++ (SecureStore.Core <$> l), assign entry.1 data verified)
              | (l, Throw _) =>
                  (log ++ (SecureStore.Core <$> l) ++ [SecureStore.SkippingCorrupted entry.1],
                   verified)
              end) (log, verified) allData).2
  = match assoc k allData with
    | Some stored =>
        match verified_value this k stored with
        | Some v => Some v
        | None => assoc k verified
        end
    | None => assoc k verified
    end.
Proof.
  revert log verified. induction allData as [|[k0 w] allData IH]; intros log verified Hnd.
  - reflexivity.
  - cbn in Hnd. apply NoDup_cons in Hnd as [Hfresh Hnd].
    cbn [foldl fst snd assoc].
    destruct (_unwrapWithHmac this w k0) as [l [data|e]] eqn:Hun.
    + rewrite (IH _ _ Hnd), assoc_assign.
      destruct (String.eqb_spec k0 k) as [->|Hne].
      * rewrite (assoc_None k allData Hfresh). unfold verified_value. rewrite Hun.
        reflexivity.
      * reflexivity.
    + rewrite (IH _ _ Hnd).
      destruct (String.eqb_spec k0 k) as [->|Hne]; [|reflexivity].
      rewrite (assoc_None k allData Hfresh). unfold verified_value. rewrite Hun.
      reflexivity.
Qed.

(** What the [store] getter writes: one line for every entry that
    fails verification, after the lines of the verification itself, and
    no incident record. *)
Lemma get_store_log (this : SecureStore.t Store) (allData : list (string * value))
    (log : list SecureStore.line) (verified : list (string * value)) :
  let log' :=
    (foldl (fun (acc : list SecureStore.line * list (string * value))
                (entry : string * value) =>
              let '(log, verified) := acc in
              match _unwrapWithHmac this entry.2 entry.1 with
              | (l, Ok data) =>
                  (log ++ (SecureStore.Core <$> l), assign entry.1 data verified)
              | (l, Throw _) =>
                  (log ++ (SecureStore.Core <$> l) ++ [SecureStore.SkippingCorrupted entry.1],
                   verified)
              end) (log, verified) allData).1 in
  SecureStore.line_incidents log' = SecureStore.line_incidents log
  /\ SecureStore.skipped_keys log'
     = SecureStore.skipped_keys log
       ++ (filter (fun entry => fails_verification this entry = true) allData).*1.
Proof.
  assert (Hcore : forall l : list SecureStore.event,
             SecureStore.line_incidents (SecureStore.Core <$> l) = SecureStore.incidents l
             /\ SecureStore.skipped_keys (SecureStore.Core <$> l) = []).
  { induction l as [|e l [IH1 IH2]]; [split; reflexivity|].
    split; [|exact IH2].
    change (SecureStore.Core <$> e :: l)
      with (SecureStore.Core e :: (SecureStore.Core <$> l)).
    unfold SecureStore.line_incidents, SecureStore.incidents in *.
    destruct e; cbn [omap list_omap]; rewrite IH1; reflexivity. }
  revert log verified. induction allData as [|[k w] allData IH]; intros log verified.
  - cbn. rewrite app_nil_r. auto.
  - cbn [foldl fst snd].
    destruct (_unwrapWithHmac this w k) as [l [data|e]] eqn:Hun.
    + destruct (IH (log ++ (SecureStore.Core <$> l)) (assign k data verified)) as [H1 H2].
      cbv zeta. rewrite H1, H2.
      rewrite filter_cons_False
        by (unfold SecureStore.fails_verification; cbn [fst snd]; rewrite Hun; cbn;
            discriminate).
      apply unwrap_returns in Hun as [-> _].
      cbn. rewrite app_nil_r. auto.
    + destruct (IH (log ++ (SecureStore.Core <$> l) ++ [SecureStore.SkippingCorrupted k])
                  verified) as [H1 H2].
      cbv zeta. rewrite H1, H2.
      unfold SecureStore.line_incidents, SecureStore.skipped_keys. rewrite !omap_app.
      fold (SecureStore.line_incidents (SecureStore.Core <$> l)).
      fold (SecureStore.skipped_keys (SecureStore.Core <$> l)).
      destruct (Hcore l) as [-> ->]. rewrite (unwrap_throws _ _ _ _ _ Hun).
      rewrite filter_cons_True
        by (unfold SecureStore.fails_verification; cbn [fst snd]; rewrite Hun; reflexivity).
      cbn. rewrite app_nil_r, <- app_assoc. auto.
Qed.

(** X3. The [store] getter returns, when the inner store returns its
    entries, an object that has for every key what [get] returns for it
    with no default: the verified or legacy value of the entry, and
    nothing for an entry that fails verification.  Such an entry is
    reported as skipped, once and in the order of the entries, and
    unlike [get] the getter writes no incident record. *)
Theorem get_store_agrees_with_get
    (this : SecureStore.t Store) (allData : list (string * value)) :
  Store_store (SecureStore.innerStore this) = Ok allData ->
  NoDup (keys allData) ->
  exists (log : list SecureStore.line) (verified : list (string * value)),
    get_store this = (log, Ok verified)
    /\ (forall k, assoc k verified
                  = assoc k allData ≫= verified_value this k)
    /\ (forall k now,
          Store_get (SecureStore.innerStore this) k = Ok (prop (VObject allData) k) ->
          (get this now k VUndefined).2 = Ok (prop (VObject verified) k))
    /\ SecureStore.line_incidents log = []
    /\ SecureStore.skipped_keys log
       = (filter (fun entry => fails_verification this entry = true) allData).*1.
Proof.
  intros Hstore Hnd. unfold SecureStore.get_store. rewrite Hstore.
  pose proof (get_store_log this allData [] []) as Hlog.
  destruct (foldl _ _ allData) as [log verified] eqn:Hfold.
  assert (Hlook : forall k, assoc k verified = assoc k allData ≫= verified_value this k).
  { intros k. pose proof (get_store_fold this allData [] [] k Hnd) as H.
    rewrite Hfold in H. cbn [snd] in H. rewrite H.
    destruct (assoc k allData) as [stored|]; [|reflexivity]. cbn.
    destruct (verified_value this k stored); reflexivity. }
  exists log, verified. split; [reflexivity|]. split; [exact Hlook|].
  split; [|exact Hlog].
  intros k now Hget. unfold SecureStore.get. rewrite Hget. cbn [prop].
  rewrite Hlook. destruct (assoc k allData) as [stored|]; [|reflexivity].
  cbn [default from_option id mbind option_bind]. unfold verified_value.
  destruct stored; try reflexivity;
    destruct (_unwrapWithHmac this _ k) as [l [v|e]]; reflexivity.
Qed.

(** ** Migration *)

#[local] Abbreviation _migrateKey :=
  (SecureStore._migrateKey SHA256 HmacSHA256 toString Store_get Store_set).
#[local] Abbreviation migrate_one :=
  (SecureStore.migrate_one SHA256 HmacSHA256 toString Store_get Store_set).
#[local] Abbreviation migrateToHmac :=
  (SecureStore.migrateToHmac SHA256 HmacSHA256 toString Store_get Store_set Store_store).
#[local] Abbreviation migrated_value :=
  (SecureStore.migrated_value SHA256 HmacSHA256 toString (Store := Store)).
#[local] Abbreviation obeys_get_set :=
  (SecureStore.obeys_get_set Store_get Store_set Store_store).

(** [_migrateKey] changes nothing of the store object but its inner store. *)
Lemma migrateKey_keeps (this : SecureStore.t Store) (key : string) :
  SecureStore.encryptionKey (_migrateKey this key).1.1 = SecureStore.encryptionKey this
  /\ SecureStore.name (_migrateKey this key).1.1 = SecureStore.name this
  /\ SecureStore._migrated (_migrateKey this key).1.1 = SecureStore._migrated this.
Proof.
  unfold SecureStore._migrateKey.
  destruct (Store_get _ key) as [rawValue|e]; [|auto].
  destruct (_ || _); [auto|].
  destruct (_wrapWithHmac this rawValue); [|auto].
  destruct (Store_set _ key _) as [inner [[]|e]]; auto.
Qed.

Lemma migrate_fold_counts (allData : list (string * value)) (ks : list string)
    (this : SecureStore.t Store) (log : list SecureStore.line) (c : SecureStore.report) :
  let '(this', _, c') := foldl (migrate_one allData) (this, log, c) ks in
  (SecureStore.migrated c' + SecureStore.skipped c' + SecureStore.failed c'
   = SecureStore.migrated c + SecureStore.skipped c + SecureStore.failed c + length ks)%nat
  /\ (SecureStore.skipped c'
      = SecureStore.skipped c
        + length (filter (fun k => SecureStore._isHmacWrapped (prop (VObject allData) k) = true)
                         ks))%nat
  /\ SecureStore._migrated this' = SecureStore._migrated this.
Proof.
  revert this log c. induction ks as [|k ks IH]; intros this log c.
  - cbn. repeat split; lia.
  - cbn [foldl]. unfold SecureStore.migrate_one at 2. rewrite filter_cons.
    destruct (SecureStore._isHmacWrapped (prop (VObject allData) k)) eqn:Hshape.
    + specialize (IH this log
        (SecureStore.Report (SecureStore.migrated c) (S (SecureStore.skipped c))
                            (SecureStore.failed c))).
      destruct (foldl _ _ ks) as [[this' log'] c']. cbn in IH |- *.
      destruct (decide (true = true)); [|congruence]. cbn. repeat split; lia || tauto.
    + pose proof (migrateKey_keeps this k) as (_ & _ & Hm).
      destruct (_migrateKey this k) as [[this1 log1] success]. cbn [fst] in Hm.
      destruct (decide (false = true)); [discriminate|].
      destruct success.
      * specialize (IH this1 (log ++ log1)
          (SecureStore.Report (S (SecureStore.migrated c)) (SecureStore.skipped c)
                              (SecureStore.failed c))).
        destruct (foldl _ _ ks) as [[this' log'] c']. cbn in IH |- *.
        rewrite <- Hm. repeat split; lia || tauto.
      * specialize (IH this1 (log ++ log1)
          (SecureStore.Report (SecureStore.migrated c) (SecureStore.skipped c)
                              (S (SecureStore.failed c)))).
        destruct (foldl _ _ ks) as [[this' log'] c']. cbn in IH |- *.
        rewrite <- Hm. repeat split; lia || tauto.
Qed.

(** X4. The first [migrateToHmac] on a store whose inner store returns its
    entries returns a report that accounts for every key once: the three
    counters add up to the number of keys, and [skipped] is the number of
    entries that had the wrapped shape already; it sets the flag, and a
    second call reports nothing and changes nothing. *)
Theorem migrateToHmac_accounts_once
    (this : SecureStore.t Store) (allData : list (string * value)) :
  SecureStore._migrated this = false ->
  Store_store (SecureStore.innerStore this) = Ok allData ->
  exists (this' : SecureStore.t Store) (log : list SecureStore.line)
         (counts : SecureStore.report),
    migrateToHmac this = (this', log, Ok counts)
    /\ (SecureStore.migrated counts + SecureStore.skipped counts + SecureStore.failed counts
        = length allData)%nat
    /\ SecureStore.skipped counts
       = length (filter (fun k => SecureStore._isHmacWrapped (prop (VObject allData) k) = true)
                        (keys allData))
    /\ migrateToHmac this' = (this', [], Ok (SecureStore.Report 0 0 0)).
Proof.
  intros Hflag Hstore. unfold SecureStore.migrateToHmac at 1. rewrite Hflag, Hstore.
  pose proof (migrate_fold_counts allData (keys allData) this
                [SecureStore.CheckingMigration] (SecureStore.Report 0 0 0)) as H.
  destruct (foldl _ _ (keys allData)) as [[this' log] counts].
  destruct H as (Hsum & Hskip & _). cbn in Hsum, Hskip.
  eexists _, _, counts. split; [reflexivity|].
  unfold keys in Hsum. rewrite length_fmap in Hsum.
  split; [exact Hsum|]. split; [exact Hskip|]. reflexivity.
Qed.

(** Unwrapping what [_wrapWithHmac] has just built. *)
Lemma unwrap_fresh_wrap (this : SecureStore.t Store) (v : value) (hmac key : string) :
  tag_is_64_hex ->
  _computeHmac this v = Ok hmac ->
  _unwrapWithHmac this (VObject [("data", v); ("hmac", VString hmac); ("_v", VNumber 1)]) key
  = ([], Ok v).
Proof.
  intros Hlen Htag.
  pose proof (computeHmac_length SHA256 HmacSHA256 toString this v hmac Hlen Htag) as H64.
  unfold SecureStore._unwrapWithHmac.
  rewrite (wrapped_shape v hmac [("_v", VNumber 1)] H64). cbn [negb].
  change (prop (VObject [("data", v); ("hmac", VString hmac); ("_v", VNumber 1)]) "data")
    with v.
  change (prop (VObject [("data", v); ("hmac", VString hmac); ("_v", VNumber 1)]) "hmac")
    with (VString hmac).
  rewrite Htag, String.eqb_refl. reflexivity.
Qed.

(** Reading a key gives the same before and after [_migrateKey] has been
    at its entry. *)
Lemma get_of_migrated (this this' : SecureStore.t Store) (now : Z) (key : string)
    (defaultValue stored : value) :
  tag_is_64_hex ->
  SecureStore.encryptionKey this' = SecureStore.encryptionKey this ->
  SecureStore.name this' = SecureStore.name this ->
  Store_get (SecureStore.innerStore this) key = Ok stored ->
  Store_get (SecureStore.innerStore this') key = Ok (migrated_value this stored) ->
  get this' now key defaultValue = get this now key defaultValue.
Proof.
  intros Hlen Hkey Hname Hget Hget'.
  assert (Hun : forall w, _unwrapWithHmac this' w key = _unwrapWithHmac this w key).
  { intros w. unfold SecureStore._unwrapWithHmac, SecureStore._computeHmac.
    rewrite Hkey. reflexivity. }
  unfold SecureStore.get, SecureStore._logIntegrityFailure. rewrite Hget, Hget', Hname.
  unfold SecureStore.migrated_value.
  destruct (match stored with VUndefined => true | _ => false end) eqn:Hu; cbn [orb].
  - rewrite Hu. reflexivity.
  - destruct (SecureStore._isHmacWrapped stored) eqn:Hshape.
    + rewrite Hu, Hun. reflexivity.
    + destruct (_wrapWithHmac this stored) as [wrapped|e] eqn:Hwrap.
      * destruct (wrap_of_raw SHA256 HmacSHA256 toString this stored wrapped Hshape Hwrap)
          as (hmac & Htag & ->).
        cbn match. rewrite Hun, (unwrap_fresh_wrap this stored hmac key Hlen Htag).
        unfold SecureStore._unwrapWithHmac. rewrite Hshape. reflexivity.
      * rewrite Hu, Hun. reflexivity.
Qed.

Lemma migrated_value_congr (this this' : SecureStore.t Store) (v : value) :
  SecureStore.encryptionKey this' = SecureStore.encryptionKey this ->
  migrated_value this' v = migrated_value this v.
Proof.
  intros Hkey. unfold SecureStore.migrated_value, SecureStore._wrapWithHmac,
    SecureStore._computeHmac. rewrite Hkey. reflexivity.
Qed.

(** The entries of the inner store after the loop of [migrateToHmac] over
    keys [ks], on an inner store that behaves as a map and still holds
    under those keys what the snapshot [allData] holds. *)
Lemma migrate_fold_content (allData : list (string * value)) :
  obeys_get_set ->
  forall (ks : list string) (this : SecureStore.t Store) (c : list (string * value))
         (log : list SecureStore.line) (cnt : SecureStore.report),
    NoDup ks ->
    Store_store (SecureStore.innerStore this) = Ok c ->
    (forall k, k ∈ ks -> prop (VObject c) k = prop (VObject allData) k) ->
    exists c',
      Store_store (SecureStore.innerStore
                     (foldl (migrate_one allData) (this, log, cnt) ks).1.1) = Ok c'
      /\ SecureStore.encryptionKey (foldl (migrate_one allData) (this, log, cnt) ks).1.1
         = SecureStore.encryptionKey this
      /\ SecureStore.name (foldl (migrate_one allData) (this, log, cnt) ks).1.1
         = SecureStore.name this
      /\ forall k, prop (VObject c') k
                   = if bool_decide (k ∈ ks) then migrated_value this (prop (VObject c) k)
                     else prop (VObject c) k.
Proof.
  intros [Lget Lset]. induction ks as [|k0 ks IH]; intros this c log cnt Hnd Hc Hsame.
  - exists c. cbn [foldl fst]. split; [assumption|]. split; [reflexivity|].
    split; [reflexivity|]. intros k.
    rewrite bool_decide_false by (apply not_elem_of_nil). reflexivity.
  - apply NoDup_cons in Hnd as [Hfresh Hnd]. cbn [foldl].
    assert (Hk0 : prop (VObject c) k0 = prop (VObject allData) k0)
      by (apply Hsame; left).
    assert (Hrest : forall k, k ∈ ks -> prop (VObject c) k = prop (VObject allData) k)
      by (intros k Hk; apply Hsame; right; exact Hk).
    (* the three ways a key leaves the store as it is *)
    assert (Hsame_store :
      forall log' cnt',
        migrated_value this (prop (VObject c) k0) = prop (VObject c) k0 ->
        exists c',
          Store_store (SecureStore.innerStore
                         (foldl (migrate_one allData) (this, log', cnt') ks).1.1) = Ok c'
          /\ SecureStore.encryptionKey (foldl (migrate_one allData) (this, log', cnt') ks).1.1
             = SecureStore.encryptionKey this
          /\ SecureStore.name (foldl (migrate_one allData) (this, log', cnt') ks).1.1
             = SecureStore.name this
          /\ forall k, prop (VObject c') k
                       = if bool_decide (k ∈ k0 :: ks)
                         then migrated_value this (prop (VObject c) k)
                         else prop (VObject c) k).
    { intros log' cnt' Hfix.
      destruct (IH this c log' cnt' Hnd Hc Hrest) as (c' & Hc' & Hkey & Hname & Hlook).
      exists c'. repeat split; try assumption. intros k. rewrite Hlook.
      destruct (decide (k = k0)) as [->|Hne].
      - rewrite bool_decide_false by assumption.
        rewrite bool_decide_true by (left). symmetry. exact Hfix.
      - destruct (decide (k ∈ ks)) as [Hin|Hnin].
        + rewrite !bool_decide_true by (assumption || (right; assumption)). reflexivity.
        + rewrite !bool_decide_false; [reflexivity | | assumption].
          intros Hin. apply elem_of_cons in Hin as [?|?]; contradiction. }
    unfold SecureStore.migrate_one at 2 4 6.
    destruct (SecureStore._isHmacWrapped (prop (VObject allData) k0)) eqn:Hshape.
    { apply Hsame_store. unfold SecureStore.migrated_value. rewrite Hk0, Hshape.
      rewrite orb_true_r. reflexivity. }
    unfold SecureStore._migrateKey. rewrite (Lget _ c k0 Hc), Hk0, Hshape.
    destruct (match prop (VObject allData) k0 with VUndefined => true | _ => false end)
      eqn:Hu; cbn [orb].
    { apply Hsame_store. unfold SecureStore.migrated_value. rewrite Hk0, Hu. reflexivity. }
    destruct (_wrapWithHmac this (prop (VObject allData) k0)) as [wrapped|e] eqn:Hwrap.
    2:{ apply Hsame_store. unfold SecureStore.migrated_value.
        rewrite Hk0, Hu, Hshape, Hwrap. reflexivity. }
    destruct (Lset _ c k0 wrapped Hc) as (s' & Hset & Hc1). rewrite Hset.
    assert (Hrest1 : forall k, k ∈ ks ->
              prop (VObject (assign k0 wrapped c)) k = prop (VObject allData) k).
    { intros k Hk. cbn [prop]. rewrite assoc_assign.
      destruct (String.eqb_spec k0 k) as [->|]; [contradiction|]. apply Hrest, Hk. }
    destruct (IH (SecureStore.with_innerStore this s') (assign k0 wrapped c)
                 (log ++ [SecureStore.Migrated k0])
                 (SecureStore.Report (S (SecureStore.migrated cnt)) (SecureStore.skipped cnt)
                                     (SecureStore.failed cnt)) Hnd Hc1 Hrest1)
      as (c' & Hc' & Hkey & Hname & Hlook).
    exists c'. repeat split; try assumption. intros k. rewrite Hlook.
    rewrite (migrated_value_congr this (SecureStore.with_innerStore this s')) by reflexivity.
    cbn [prop]. rewrite assoc_assign.
    destruct (String.eqb_spec k0 k) as [<-|Hne].
    + rewrite bool_decide_false by assumption. rewrite bool_decide_true by (left).
      cbn [default from_option id]. unfold SecureStore.migrated_value.
      change (default VUndefined (assoc k0 c)) with (prop (VObject c) k0).
      rewrite Hk0, Hu, Hshape, Hwrap. reflexivity.
    + destruct (decide (k ∈ ks)) as [Hin|Hnin].
      * rewrite !bool_decide_true by (assumption || (right; assumption)). reflexivity.
      * rewrite !bool_decide_false; [reflexivity | | assumption].
        intros Hin. apply elem_of_cons in Hin as [?|?]; [congruence|contradiction].
Qed.

(** X5. Over an inner store that behaves as a map, [migrateToHmac] does
    not change what any [get] returns or writes, for any key and default;
    and afterwards every entry that was neither [undefined] nor
    unserializable has the wrapped shape. *)
Theorem migrateToHmac_preserves_reads
    (this : SecureStore.t Store) (allData : list (string * value)) :
  obeys_get_set ->
  tag_is_64_hex ->
  SecureStore._migrated this = false ->
  Store_store (SecureStore.innerStore this) = Ok allData ->
  NoDup (keys allData) ->
  exists (this' : SecureStore.t Store) (log : list SecureStore.line)
         (counts : SecureStore.report),
    migrateToHmac this = (this', log, Ok counts)
    /\ (forall now key defaultValue,
          get this' now key defaultValue = get this now key defaultValue)
    /\ (forall key v,
          assoc key allData = Some v -> v <> VUndefined -> is_ok (stringify v) = true ->
          exists stored,
            Store_get (SecureStore.innerStore this') key = Ok stored
            /\ SecureStore._isHmacWrapped stored = true).
Proof.
  intros Hlaws Hlen Hflag Hstore Hnd.
  destruct (migrate_fold_content allData Hlaws (keys allData) this allData
              [SecureStore.CheckingMigration] (SecureStore.Report 0 0 0) Hnd Hstore
              (fun _ _ => eq_refl))
    as (c' & Hc' & Hkey & Hname & Hlook).
  unfold SecureStore.migrateToHmac. rewrite Hflag, Hstore.
  destruct (foldl _ _ (keys allData)) as [[this1 log] counts]. cbn [fst] in *.
  eexists _, _, counts. split; [reflexivity|].
  destruct Hlaws as [Lget Lset].
  assert (Hafter : forall key,
            Store_get (SecureStore.innerStore this1) key
            = Ok (migrated_value this (prop (VObject allData) key))).
  { intros key. rewrite (Lget _ c' key Hc'), Hlook.
    destruct (decide (key ∈ keys allData)) as [Hin|Hnin].
    - rewrite bool_decide_true by assumption. reflexivity.
    - rewrite bool_decide_false by assumption. cbn [prop].
      rewrite (assoc_None key allData Hnin). reflexivity. }
  split.
  - intros now key defaultValue.
    apply (get_of_migrated this _ now key defaultValue (prop (VObject allData) key));
      try assumption.
    + apply (Lget _ allData key Hstore).
    + apply Hafter.
  - intros key v Hv Hdef Hser. eexists. split; [apply Hafter|].
    cbn [prop]. rewrite Hv. cbn [default from_option id].
    unfold SecureStore.migrated_value.
    destruct (SecureStore._isHmacWrapped v) eqn:Hshape.
    + rewrite orb_true_r. exact Hshape.
    + replace (match v with VUndefined => true | _ => false end) with false
        by (destruct v; try reflexivity; contradiction).
      cbn [orb]. unfold SecureStore._wrapWithHmac. rewrite Hshape.
      unfold SecureStore._computeHmac.
      destruct (stringify v) as [text|e]; [|discriminate].
      apply wrapped_shape, Hlen.
Qed.

End SecureStore_reads.


(** X3, on a store with a legacy entry, a verified one and a tampered one. *)
Lemma get_store_agrees_with_get_witness :
  exists (log : list SecureStore.line) (verified : list (string * value)),
    Memory.get_store
      (Memory.secure [("theme", VString "dark"); ("count", Memory.sealed_one);
                      ("token", Memory.tampered)])
    = (log, Ok verified)
    /\ (forall k, assoc k verified
                  = assoc k [("theme", VString "dark"); ("count", Memory.sealed_one);
                             ("token", Memory.tampered)]
                    ≫= SecureStore.verified_value Crypto.SHA256 Crypto.HmacSHA256
                         Crypto.toString
                         (Memory.secure [("theme", VString "dark");
                                         ("count", Memory.sealed_one);
                                         ("token", Memory.tampered)]) k)
    /\ (forall k now,
          Memory.Store_get [("theme", VString "dark"); ("count", Memory.sealed_one);
                            ("token", Memory.tampered)] k
          = Ok (prop (VObject [("theme", VString "dark"); ("count", Memory.sealed_one);
                               ("token", Memory.tampered)]) k) ->
          (Memory.get
             (Memory.secure [("theme", VString "dark"); ("count", Memory.sealed_one);
                             ("token", Memory.tampered)]) now k VUndefined).2
          = Ok (prop (VObject verified) k))
    /\ SecureStore.line_incidents log = []
    /\ SecureStore.skipped_keys log
       = (filter (fun entry =>
                    SecureStore.fails_verification Crypto.SHA256 Crypto.HmacSHA256
                      Crypto.toString
                      (Memory.secure [("theme", VString "dark");
                                      ("count", Memory.sealed_one);
                                      ("token", Memory.tampered)]) entry = true)
                 [("theme", VString "dark"); ("count", Memory.sealed_one);
                  ("token", Memory.tampered)]).*1.
Proof.
  refine (get_store_agrees_with_get Crypto.SHA256 Crypto.HmacSHA256 Crypto.toString
            Memory.Store_get Memory.Store_store
            (Memory.secure [("theme", VString "dark"); ("count", Memory.sealed_one);
                            ("token", Memory.tampered)])
            [("theme", VString "dark"); ("count", Memory.sealed_one);
             ("token", Memory.tampered)] _ _).
  - reflexivity.
  - apply (bool_decide_unpack _). vm_compute. exact I.
Defined.

Example get_store_leaves_out_tampered :
  (Memory.get_store
     (Memory.secure [("theme", VString "dark"); ("count", Memory.sealed_one);
                     ("token", Memory.tampered)])).2
  = Ok [("theme", VString "dark"); ("count", VNumber 1)]
  /\ SecureStore.skipped_keys
       (Memory.get_store
          (Memory.secure [("theme", VString "dark"); ("count", Memory.sealed_one);
                          ("token", Memory.tampered)])).1
     = ["token"].
Proof. split; vm_compute; reflexivity. Qed.

(** The three silent returns of [get], on the same store. *)
Example get_returns_stored_data :
  let this := Memory.secure [("theme", VString "dark"); ("count", Memory.sealed_one);
                             ("token", Memory.tampered)] in
  Memory.get this 0 "theme" VNull = ([], Ok (VString "dark"))
  /\ Memory.get this 0 "count" VNull = ([], Ok (VNumber 1))
  /\ Memory.get this 0 "absent" VNull = ([], Ok VNull)
  /\ (Memory.get this 0 "token" VNull).2 = Ok VNull.
Proof. repeat split; vm_compute; reflexivity. Qed.

(** X4, on a store written before tags were introduced. *)
Lemma migrateToHmac_accounts_once_witness :
  exists (this' : SecureStore.t (list (string * value))) (log : list SecureStore.line)
         (counts : SecureStore.report),
    Memory.migrateToHmac (Memory.secure Memory.legacy) = (this', log, Ok counts)
    /\ (SecureStore.migrated counts + SecureStore.skipped counts + SecureStore.failed counts
        = length Memory.legacy)%nat
    /\ SecureStore.skipped counts
       = length (filter (fun k => SecureStore._isHmacWrapped (prop (VObject Memory.legacy) k)
                                  = true)
                        (keys Memory.legacy))
    /\ Memory.migrateToHmac this' = (this', [], Ok (SecureStore.Report 0 0 0)).
Proof.
  refine (migrateToHmac_accounts_once Crypto.SHA256 Crypto.HmacSHA256 Crypto.toString
            Memory.Store_get Memory.Store_set Memory.Store_store
            (Memory.secure Memory.legacy) Memory.legacy _ _); reflexivity.
Defined.

Example migrate_legacy_report :
  (Memory.migrateToHmac (Memory.secure Memory.legacy)).2
  = Ok (SecureStore.Report 2 1 0).
Proof. vm_compute. reflexivity. Qed.

(** The in-memory store behaves as a map. *)
Lemma Memory_obeys_get_set :
  SecureStore.obeys_get_set Memory.Store_get Memory.Store_set Memory.Store_store.
Proof.
  split.
  - intros s d k [= <-]. reflexivity.
  - intros s d k w [= <-]. exists (assign k w s). split; reflexivity.
Qed.

(** X5, on the same store. *)
Lemma migrateToHmac_preserves_reads_witness :
  exists (this' : SecureStore.t (list (string * value))) (log : list SecureStore.line)
         (counts : SecureStore.report),
    Memory.migrateToHmac (Memory.secure Memory.legacy) = (this', log, Ok counts)
    /\ (forall now key defaultValue,
          Memory.get this' now key defaultValue
          = Memory.get (Memory.secure Memory.legacy) now key defaultValue)
    /\ (forall key v,
          assoc key Memory.legacy = Some v -> v <> VUndefined -> is_ok (stringify v) = true ->
          exists stored,
            Memory.Store_get (SecureStore.innerStore this') key = Ok stored
            /\ SecureStore._isHmacWrapped stored = true).
Proof.
  refine (migrateToHmac_preserves_reads Crypto.SHA256 Crypto.HmacSHA256 Crypto.toString
            Memory.Store_get Memory.Store_set Memory.Store_store
            (Memory.secure Memory.legacy) Memory.legacy
            Memory_obeys_get_set Crypto_tag_is_64_hex _ _ _).
  - reflexivity.
  - reflexivity.
  - apply (bool_decide_unpack _). vm_compute. exact I.
Defined.

(* ===================================================================== *)
(** * Further properties of StorageManager *)
(* ===================================================================== *)

Section StorageManager_retries.

Import StorageManager.

Context {World : Type}.
Variable local_get : query -> World -> World * result (list (string * value)).
Variable local_set : list (string * value) -> World -> World * result unit.
Variable local_remove : query -> World -> World * result unit.
Variable Date_now : World -> Z.
Variable toISOString : value -> result string.

#[local] Abbreviation get := (StorageManager.get local_get).
#[local] Abbreviation set := (StorageManager.set local_get local_set Date_now toISOString).
#[local] Abbreviation set_loop :=
  (StorageManager.set_loop local_get local_set toISOString).
#[local] Abbreviation write_once := (StorageManager.write_once local_get local_set).
#[local] Abbreviation backups := (StorageManager.backups local_get local_set Date_now).
#[local] Abbreviation createBackup := (StorageManager.createBackup local_get local_set Date_now).
#[local] Abbreviation restoreFromBackup :=
  (StorageManager.restoreFromBackup local_get local_set toISOString).
#[local] Abbreviation _runMigrations := (StorageManager._runMigrations local_get local_set).
#[local] Abbreviation remove := (StorageManager.remove local_remove).
#[local] Abbreviation healthCheck :=
  (StorageManager.healthCheck local_get local_set local_remove Date_now).
#[local] Abbreviation getStats := (StorageManager.getStats local_get).
#[local] Abbreviation clearBackups := (StorageManager.clearBackups local_get local_remove).

(** ** Giving up *)

Lemma get_loop_gives_up (keys : query) (e : JS.error) (s : state World) :
  get_loop local_get keys 0 (Some e) s
  = (State (world s) (console s ++ [ReadFailed (Some e)]), Throw e).
Proof. reflexivity. Qed.

(** X6. [get] reads three times at most and pauses only between reads:
    whatever the storage area does, the pauses of a call are none, 200ms,
    or 200ms and 400ms; and it throws only when three reads in a row
    have thrown, then the error of the third, straight after it. *)
Theorem get_gives_up_after_three (keys : query) (s : state World) :
  exists log : list event,
    console (get keys s).1 = console s ++ log
    /\ (sleeps log = [] \/ sleeps log = [200] \/ sleeps log = [200; 400])
    /\ forall e, (get keys s).2 = Throw e ->
         exists (w1 w2 w3 : World) (e1 e2 : JS.error),
           local_get keys (world s) = (w1, Throw e1)
           /\ local_get keys w1 = (w2, Throw e2)
           /\ local_get keys w2 = (w3, Throw e)
           /\ get keys s
              = (State w3 (console s ++ [ReadRetry 1 200 e1; Sleep 200;
                                         ReadRetry 2 400 e2; Sleep 400;
                                         ReadFailed (Some e)]),
                 Throw e).
Proof.
  unfold StorageManager.get, MAX_RETRIES.
  destruct (local_get keys (world s)) as [w1 [r1|e1]] eqn:H1.
  { rewrite (get_loop_returns local_get keys 2 None s w1 r1 H1).
    exists []. cbn. rewrite app_nil_r. split; [reflexivity|]. split; [auto|]. discriminate. }
  rewrite (get_loop_retries local_get keys 2 None s w1 e1 H1).
  destruct (local_get keys w1) as [w2 [r2|e2]] eqn:H2.
  { erewrite get_loop_returns by (cbn [world]; exact H2).
    exists [ReadRetry 1 200 e1; Sleep 200]. cbn.
    split; [reflexivity|]. split; [auto|]. discriminate. }
  erewrite get_loop_retries by (cbn [world]; exact H2).
  destruct (local_get keys w2) as [w3 [r3|e3]] eqn:H3.
  { erewrite get_loop_returns by (cbn [world]; exact H3).
    exists [ReadRetry 1 200 e1; Sleep 200; ReadRetry 2 400 e2; Sleep 400]. cbn.
    rewrite <- app_assoc. split; [reflexivity|]. split; [auto|]. discriminate. }
  erewrite get_loop_retries by (cbn [world]; exact H3).
  rewrite get_loop_gives_up.
  exists [ReadRetry 1 200 e1; Sleep 200; ReadRetry 2 400 e2; Sleep 400; ReadFailed (Some e3)].
  cbn. rewrite app_nil_r, <- !app_assoc. cbn.
  split; [reflexivity|]. split; [auto|].
  intros e [= <-]. exists w1, w2, w3, e1, e2. auto.
Qed.

(** X7. [remove] never returns [false]: it returns [true] as soon as one
    removal returns, after pauses of none, 200ms, or 200ms and 400ms; or
    it throws, when three removals in a row have thrown, the error of
    the third. *)
Theorem remove_true_or_throws (keys : query) (w : World) :
  (exists w' log, remove keys w = (w', log, Ok true)
                  /\ (line_sleeps log = [] \/ line_sleeps log = [200]
                      \/ line_sleeps log = [200; 400]))
  \/ (exists (w1 w2 w3 : World) (e1 e2 e3 : JS.error),
        local_remove keys w = (w1, Throw e1)
        /\ local_remove keys w1 = (w2, Throw e2)
        /\ local_remove keys w2 = (w3, Throw e3)
        /\ remove keys w
           = (w3, [RemoveRetry 1 200 e1; Line (Sleep 200);
                   RemoveRetry 2 400 e2; Line (Sleep 400); RemoveFailed (Some e3)],
              Throw e3)).
Proof.
  unfold StorageManager.remove, MAX_RETRIES. cbn [remove_loop].
  destruct (local_remove keys w) as [w1 [[]|e1]] eqn:H1.
  { left. exists w1, []. auto. }
  destruct (local_remove keys w1) as [w2 [[]|e2]] eqn:H2.
  { left. eexists w2, _. split; [reflexivity|]. cbn. auto. }
  destruct (local_remove keys w2) as [w3 [[]|e3]] eqn:H3.
  { left. eexists w3, _. split; [reflexivity|]. cbn. auto. }
  right. exists w1, w2, w3, e1, e2, e3. auto.
Qed.

(** ** The outcome of [set] *)

#[local] Abbreviation write_accepted :=
  (StorageManager.write_accepted local_get local_set).

(** One attempt writes nothing to the console, and returns only [true],
    after an accepted write. *)
Lemma write_once_outcome (fields : list (string * value)) (options : options)
    (s : state World) :
  console (write_once fields options s).1 = console s
  /\ forall b, (write_once fields options s).2 = Ok b ->
       b = true
       /\ write_accepted fields options (world s) (world (write_once fields options s).1).
Proof.
  unfold StorageManager.write_accepted.
  destruct (local_set fields (world s)) as [w1 [[]|e]] eqn:Hset.
  2:{ assert (E : write_once fields options s = (State w1 (console s), Throw e)).
      { unfold StorageManager.write_once, bind at 1. rewrite lift_eq, Hset. reflexivity. }
      rewrite E. split; [reflexivity | discriminate]. }
  destruct (critical options) eqn:Hc.
  - destruct (local_get (Keys (keys fields)) w1) as [w2 [ver|e]] eqn:Hget.
    + destruct (verify ver fields) as [[]|e] eqn:Hver.
      * assert (E : write_once fields options s = (State w2 (console s), Ok true)).
        { unfold StorageManager.write_once, bind at 1.
          rewrite lift_eq, Hset, Hc. cbn [fst snd]. unfold bind. rewrite lift_eq.
          cbn [world console]. rewrite Hget. cbn [fst snd]. unfold of_result.
          rewrite Hver. reflexivity. }
        rewrite E. split; [reflexivity|]. intros b [= <-]. split; [reflexivity|].
        exists w1. split; [reflexivity|]. exists ver. auto.
      * rewrite (write_once_unverified local_get local_set
                   fields options s w1 w2 ver e Hc Hset Hget Hver).
        split; [reflexivity | discriminate].
    + assert (E : write_once fields options s = (State w2 (console s), Throw e)).
      { unfold StorageManager.write_once, bind at 1.
        rewrite lift_eq, Hset, Hc. cbn [fst snd]. unfold bind. rewrite lift_eq.
        cbn [world console]. rewrite Hget. reflexivity. }
      rewrite E. split; [reflexivity | discriminate].
  - assert (E : write_once fields options s = (State w1 (console s), Ok true)).
    { unfold StorageManager.write_once, bind at 1.
      rewrite lift_eq, Hset, Hc. reflexivity. }
    rewrite E. split; [reflexivity|]. intros b [= <-]. split; [reflexivity|].
    exists w1. auto.
Qed.

Lemma pauses_S (n : nat) :
  pauses (S (S n)) = backoffDelay (S n) :: pauses (S n).
Proof.
  unfold pauses. cbn [Nat.sub]. rewrite Nat.sub_0_r.
  rewrite seq_S, reverse_app. reflexivity.
Qed.

Lemma sleeps_write_retry (n : nat) (e : JS.error) :
  sleeps (write_retry n e) ++ pauses n = pauses (S n)
  /\ alerts (write_retry n e) = [] /\ restore_attempts (write_retry n e) = [].
Proof.
  destruct n as [|n]; [repeat split|].
  rewrite pauses_S. repeat split.
Qed.

(** With no attempt left: the rollback line, one restore per key when
    backups are in use, the alert, the last error. *)
Lemma set_loop_gives_up (this : t) (fields : list (string * value)) (options : options)
    (lastError : option JS.error) (s : state World) :
  exists (w : World) (restores : list event),
    set_loop this fields options 0 lastError s
    = (State w (console s ++ [WriteFailedRollback lastError] ++ restores
                ++ [UserAlert save_failed]),
       Throw (default (Error "undefined") lastError))
    /\ sleeps restores = [] /\ alerts restores = []
    /\ restore_attempts restores
       = if backup options || critical options then keys fields else [].
Proof.
  cbn [StorageManager.set_loop]. unfold bind at 1. cbn [emit fst snd].
  unfold bind at 1.
  destruct (backup options || critical options).
  - destruct (for_each_restore local_get local_set toISOString (keys fields)
                (State (world s) (console s ++ [WriteFailedRollback lastError])))
      as (w & restores & -> & H).
    exists w, restores. cbn. rewrite <- !app_assoc. auto.
  - exists (world s), []. cbn. rewrite <- !app_assoc. auto.
Qed.

(** The loop of [set] from any number of attempts left: what it leaves on
    the console when it returns and when it throws. *)
Lemma set_loop_outcome (this : t) (fields : list (string * value)) (options : options)
    (retries : nat) (lastError : option JS.error) (s : state World) :
  exists log : list event,
    console (set_loop this fields options retries lastError s).1 = console s ++ log
    /\ (forall b, (set_loop this fields options retries lastError s).2 = Ok b ->
          b = true /\ alerts log = [] /\ restore_attempts log = []
          /\ (exists rest, sleeps log ++ rest = pauses retries)
          /\ exists w, write_accepted fields options w
                         (world (set_loop this fields options retries lastError s).1))
    /\ (forall e, (set_loop this fields options retries lastError s).2 = Throw e ->
          alerts log = [save_failed] /\ sleeps log = pauses retries
          /\ restore_attempts log
             = if backup options || critical options then keys fields else []).
Proof.
  revert lastError s. induction retries as [|n IH]; intros lastError s.
  - destruct (set_loop_gives_up this fields options lastError s)
      as (w & restores & -> & Hs & Ha & Hk).
    exists ([WriteFailedRollback lastError] ++ restores ++ [UserAlert save_failed]).
    cbn [fst snd console]. split; [reflexivity|]. split; [discriminate|].
    intros e _.
    change (WriteFailedRollback lastError :: restores ++ [UserAlert save_failed])
      with ([WriteFailedRollback lastError] ++ restores ++ [UserAlert save_failed]).
    destruct (quiet_app [WriteFailedRollback lastError] (restores ++ [UserAlert save_failed]))
      as (-> & -> & ->).
    destruct (quiet_app restores [UserAlert save_failed]) as (-> & -> & ->).
    rewrite Hs, Ha, Hk. cbn. rewrite app_nil_r. auto.
  - destruct (write_once_outcome fields options s) as [Hc Hok].
    destruct (write_once fields options s) as [s1 [b|e1]] eqn:H1.
    + assert (E : set_loop this fields options (S n) lastError s = (s1, Ok b)).
      { cbn [StorageManager.set_loop]. unfold try_catch. rewrite H1. reflexivity. }
      rewrite E. cbn [fst snd] in *. exists []. rewrite app_nil_r.
      split; [exact Hc|]. split; [|discriminate].
      intros b' [= <-]. destruct (Hok b eq_refl) as [-> Hacc].
      repeat split. { exists (pauses (S n)). reflexivity. }
      exists (world s). exact Hacc.
    + rewrite (set_loop_retries local_get local_set toISOString
                 this fields options n lastError s s1 e1 H1).
      cbn [fst snd] in Hc. rewrite Hc. clear Hc Hok H1.
      destruct (IH (Some e1) (State (world s1) (console s ++ write_retry n e1)))
        as (log & Hlog & Hret & Hthrow).
      destruct (sleeps_write_retry n e1) as (Hp & Ha0 & Hk0).
      exists (write_retry n e1 ++ log).
      rewrite Hlog. cbn [console]. rewrite <- app_assoc.
      split; [reflexivity|].
      destruct (quiet_app (write_retry n e1) log) as (-> & -> & ->).
      rewrite Ha0, Hk0. cbn [app].
      split.
      * intros b Hb. destruct (Hret b Hb) as (-> & Ha & Hk & (rest & Hrest) & Hacc).
        repeat split; [exact Ha | exact Hk | | exact Hacc].
        exists rest. rewrite <- app_assoc, Hrest. exact Hp.
      * intros e He. destruct (Hthrow e He) as (Ha & Hs & Hk).
        repeat split; [exact Ha | | exact Hk].
        rewrite Hs. exact Hp.
Qed.

(** On an object, [set] is its backups, which return, followed by its
    loop. *)
Lemma set_object (this : t) (fields : list (string * value)) (options : options)
    (s : state World) :
  set this (VObject fields) options s
  = set_loop this fields options MAX_RETRIES None (backups fields options s).1.
Proof.
  unfold StorageManager.set.
  change (negb (truthy (VObject fields)) || negb (is_object_type (VObject fields))
          || isArray (VObject fields)) with false.
  cbn iota. unfold bind at 1. cbn [entries].
  destruct (backups_return local_get local_set Date_now fields options s)
    as (w0 & before & -> & _).
  reflexivity.
Qed.

(** X8. The outcome of [set] on an object. When it returns, it returns
    [true], the last thing it did was a write the storage area accepted
    (read back with the same text when critical), and it has raised no
    alert and restored nothing. When it throws, it has paused 200ms and
    400ms, raised the alert exactly once, and tried to restore every
    key of [items] if [backup] or [critical] is set, none otherwise. *)
Theorem set_outcome (this : t) (fields : list (string * value)) (options : options)
    (s : state World) :
  exists log : list event,
    console (set this (VObject fields) options s).1 = console s ++ log
    /\ (forall b, (set this (VObject fields) options s).2 = Ok b ->
          b = true /\ alerts log = [] /\ restore_attempts log = []
          /\ (sleeps log = [] \/ sleeps log = [200] \/ sleeps log = [200; 400])
          /\ exists w, write_accepted fields options w
                         (world (set this (VObject fields) options s).1))
    /\ (forall e, (set this (VObject fields) options s).2 = Throw e ->
          alerts log = [save_failed] /\ sleeps log = [200; 400]
          /\ restore_attempts log
             = if backup options || critical options then keys fields else []).
Proof.
  rewrite set_object.
  destruct (backups_return local_get local_set Date_now fields options s)
    as (w0 & before & -> & Hs0 & Ha0 & Hk0).
  cbn [fst].
  destruct (set_loop_outcome this fields options MAX_RETRIES None
              (State w0 (console s ++ before))) as (log & Hlog & Hret & Hthrow).
  exists (before ++ log). rewrite Hlog. cbn [console]. rewrite <- app_assoc.
  split; [reflexivity|].
  destruct (quiet_app before log) as (-> & -> & ->). rewrite Hs0, Ha0, Hk0. cbn [app].
  split.
  - intros b Hb. destruct (Hret b Hb) as (-> & Ha & Hk & (rest & Hrest) & Hacc).
    repeat split; [exact Ha | exact Hk | | exact Hacc].
    change (pauses MAX_RETRIES) with [200; 400] in Hrest.
    destruct (sleeps log) as [|a [|b [|c l]]]; cbn in Hrest.
    + auto.
    + injection Hrest as -> _. auto.
    + injection Hrest as -> -> _. auto.
    + discriminate.
  - intros e He. destruct (Hthrow e He) as (Ha & Hs & Hk). auto.
Qed.

(** X9. [set] throws at once, before it reads or writes anything, when
    [items] is not an object: a primitive, [null], [undefined] or an
    array. *)
Theorem set_rejects_non_objects (this : t) (items : value) (options : options)
    (s : state World) :
  (forall fields, items <> VObject fields) ->
  set this items options s = (s, Throw (Error "Items must be a non-array object")).
Proof.
  intros H. unfold StorageManager.set.
  destruct items as [| |b|n|n|t|xs|fs]; try reflexivity.
  - destruct (negb (truthy (VBool b))); reflexivity.
  - destruct (negb (truthy (VNumber n))); reflexivity.
  - destruct (negb (truthy (VBigInt n))); reflexivity.
  - destruct (negb (truthy (VString t))); reflexivity.
  - destruct (H fs eq_refl).
Qed.

(** Keys other than the two the manager knows are not backed up unless
    the call is critical. *)
Lemma backups_unknown_keys (fields : list (string * value)) (options : options)
    (s : state World) :
  critical options = false ->
  Forall (fun k => k <> "workflows" /\ k <> "savedBlocks") (keys fields) ->
  backups fields options s = (s, Ok tt).
Proof.
  intros Hc H. unfold StorageManager.backups. rewrite Hc, orb_false_r.
  destruct (backup options); [|reflexivity].
  revert s. induction H as [|k ks [H1 H2] _ IH]; intros s; [reflexivity|].
  cbn [for_each]. unfold bind at 1.
  apply String.eqb_neq in H1, H2. rewrite H1, H2. cbn. apply IH.
Qed.

(** X10. A default [set] (backup on, not critical) of keys other than
    [workflows] and [savedBlocks] takes no backup and does not read the
    storage area before it writes; yet when its three writes throw it
    tries to restore every one of these keys from a backup, and throws
    the error of the third write. *)
Theorem set_restores_without_backup
    (this : t) (fields : list (string * value)) (options : options)
    (s : state World) (w1 w2 w3 : World) (e1 e2 e3 : JS.error) :
  backup options = true -> critical options = false ->
  Forall (fun k => k <> "workflows" /\ k <> "savedBlocks") (keys fields) ->
  local_set fields (world s) = (w1, Throw e1) ->
  local_set fields w1 = (w2, Throw e2) ->
  local_set fields w2 = (w3, Throw e3) ->
  backups fields options s = (s, Ok tt)
  /\ exists (w : World) (restores : list event),
       set this (VObject fields) options s
       = (State w (console s ++ [WriteRetry 1 200 e1; Sleep 200;
                                 WriteRetry 2 400 e2; Sleep 400;
                                 WriteFailedRollback (Some e3)]
                   ++ restores ++ [UserAlert save_failed]),
          Throw e3)
       /\ restore_attempts restores = keys fields.
Proof.
  intros Hb Hc Hkeys H1 H2 H3.
  pose proof (backups_unknown_keys fields options s Hc Hkeys) as Hno.
  split; [exact Hno|].
  assert (Hw : forall (s0 : state World) (w : World) (e : JS.error),
             local_set fields (world s0) = (w, Throw e) ->
             write_once fields options s0 = (State w (console s0), Throw e)).
  { intros s0 w e H. unfold StorageManager.write_once, bind at 1.
    rewrite lift_eq, H. reflexivity. }
  rewrite set_object, Hno. cbn [fst]. unfold MAX_RETRIES.
  erewrite set_loop_retries by (apply Hw; exact H1).
  erewrite set_loop_retries by (apply Hw; cbn [world]; exact H2).
  erewrite set_loop_retries by (apply Hw; cbn [world]; exact H3).
  cbn [world console].
  match goal with |- context [set_loop _ _ _ 0 _ ?s0] =>
    destruct (set_loop_gives_up this fields options (Some e3) s0)
      as (w & restores & -> & _ & _ & Hk)
  end.
  rewrite Hb in Hk. exists w, restores. cbn. rewrite <- !app_assoc. auto.
Qed.

(** ** Backups *)

(** X11. A backup that is taken and still there when the restore runs
    brings the key back to the value it had when the backup was taken:
    [createBackup] stores that value under the prefixed key, with the
    time and the version, and [restoreFromBackup] writes that same value
    under the key itself, and reports the time of the backup. *)
Theorem backup_then_restore
    (key : string) (s s' : state World) (w1 w2 w3 w4 : World)
    (r r' : list (string * value)) (iso : string) :
  let currentValue := prop (VObject r) key in
  let backup := VObject [("data", currentValue);
                         ("timestamp", VNumber (Date_now w1));
                         ("version", VString CURRENT_VERSION)] in
  local_get (Key key) (world s) = (w1, Ok r) ->
  currentValue <> VUndefined ->
  local_set [(BACKUP_PREFIX +:+ key, backup)] w1 = (w2, Ok tt) ->
  local_get (Key (BACKUP_PREFIX +:+ key)) (world s') = (w3, Ok r') ->
  prop (VObject r') (BACKUP_PREFIX +:+ key) = backup ->
  local_set [(key, currentValue)] w3 = (w4, Ok tt) ->
  toISOString (VNumber (Date_now w1)) = Ok iso ->
  createBackup key s = (State w2 (console s ++ [BackupCreated key]), Ok true)
  /\ restoreFromBackup key s' = (State w4 (console s' ++ [Restored key iso]), Ok true).
Proof.
  intros currentValue backup Hget Hdef Hset Hget' Hprop Hset' Hiso.
  assert (Hu : negb (StorageManager.is_undefined currentValue) = true).
  { revert Hdef. generalize currentValue. intros [] H; try reflexivity.
    destruct (H eq_refl). }
  split.
  - unfold StorageManager.createBackup, try_catch, bind at 1. rewrite lift_eq, Hget.
    cbn [fst snd]. fold currentValue. rewrite Hu.
    unfold bind at 1, now. cbn [fst snd world console].
    unfold bind at 1. rewrite lift_eq. cbn [world console]. fold backup.
    rewrite Hset. reflexivity.
  - unfold StorageManager.restoreFromBackup, try_catch, bind at 1.
    rewrite lift_eq, Hget'. cbn [fst snd]. rewrite Hprop.
    change (prop backup "data") with currentValue.
    change (prop backup "timestamp") with (VNumber (Date_now w1)).
    rewrite Hu. change (truthy backup) with true. cbn [andb].
    unfold bind at 1. rewrite lift_eq. cbn [world console]. rewrite Hset'.
    cbn [fst snd]. unfold bind, of_result. rewrite Hiso. reflexivity.
Qed.

(** ** Verification *)

(** [verify] returns exactly when every written value is read back
    with the text it was written with. *)
Lemma verify_iff (verification items : list (string * value)) :
  verify verification items = Ok tt
  <-> Forall (fun kv => exists a : option string,
                stringify (prop (VObject verification) kv.1) = Ok a
                /\ stringify kv.2 = Ok a) items.
Proof.
  induction items as [|[key value] items IH]; cbn [verify].
  - split; [constructor | reflexivity].
  - destruct (stringify (prop (VObject verification) key)) as [a|e] eqn:Ha.
    2:{ split; [discriminate|]. intros H. inversion H as [|? ? (a & Ea & _) _]; subst.
        cbn [fst] in Ea. congruence. }
    destruct (stringify value) as [b|e] eqn:Hb.
    2:{ split; [discriminate|]. intros H. inversion H as [|? ? (c & _ & Ec) _]; subst.
        cbn [snd] in Ec. congruence. }
    destruct (bool_decide_reflect (a <> b)) as [Hne|Heq].
    + split; [discriminate|]. intros H. inversion H as [|? ? (c & Ea & Ec) _]; subst.
      cbn [fst snd] in Ea, Ec. congruence.
    + apply dec_stable in Heq. subst b. rewrite IH. split.
      * intros H. constructor; [|exact H]. exists a. cbn [fst snd]. auto.
      * intros H. inversion H; assumption.
Qed.

(** X12. The verification of a critical write accepts a storage area
    that keeps, for every written key, what [JSON.parse] reads from the
    text of the written value, as an area that goes through JSON does:
    if every value can be serialized and each key reads back as that
    copy, [verify] returns. *)
Theorem verify_accepts_json_copy (verification items : list (string * value)) :
  Forall (fun kv => is_ok (stringify kv.2) = true
                    /\ prop (VObject verification) kv.1
                       = match stringify kv.2 with
                         | Ok (Some _) => reparse kv.2
                         | _ => VUndefined
                         end) items ->
  verify verification items = Ok tt.
Proof.
  intros H. apply verify_iff. eapply Forall_impl; [exact H|].
  intros [key value] [Hok Hread]. cbn [fst snd] in *. rewrite Hread.
  destruct (stringify value) as [[text|]|e] eqn:E; [| |discriminate].
  - exists (Some text). rewrite stringify_reparse. auto.
  - exists None. auto.
Qed.

(** ** Migrations *)

(** X13. A migration handler that throws leaves the storage area as it
    was: when the stored version calls for a migration and a handler on
    the way throws, [_runMigrations] has read the version and the whole
    data and written nothing, not even the version, and throws an error
    whose message is the handler's behind [Migration failed: ]. *)
Theorem runMigrations_handler_throws
    (this : t) (s : state World) (w1 w2 : World)
    (r allData : list (string * value)) (e : JS.error) :
  let currentVersion := prop (VObject r) MIGRATION_VERSION_KEY in
  let versions := sorted_versions this in
  local_get (Key MIGRATION_VERSION_KEY) (world s) = (w1, Ok r) ->
  truthy currentVersion = true ->
  currentVersion <> VString CURRENT_VERSION ->
  local_get All w1 = (w2, Ok allData) ->
  run_handlers this (drop (startIndex currentVersion versions) versions)
    (spread [] allData) = Throw e ->
  world (_runMigrations this s).1 = w2
  /\ (_runMigrations this s).2 = Throw (Error ("Migration failed: " +:+ message e))
  /\ last (console (_runMigrations this s).1) = Some (MigrationFailed e).
Proof.
  intros currentVersion versions Hget Ht Hne Hall Hrun.
  assert (Hcur : match currentVersion with
                 | VString v => String.eqb v CURRENT_VERSION
                 | _ => false
                 end = false).
  { destruct currentVersion as [| |b|n|n|v|xs|fs]; try reflexivity.
    apply String.eqb_neq. intros ->. apply Hne. reflexivity. }
  assert (E : exists log : list event,
             _runMigrations this s
             = (State w2 (log ++ [MigrationFailed e]),
                Throw (Error ("Migration failed: " +:+ message e)))).
  { unfold StorageManager._runMigrations, try_catch, bind at 1. rewrite lift_eq, Hget.
    cbn [fst snd]. fold currentVersion. rewrite Ht, Hcur. cbn [negb orb].
    unfold bind at 1. cbn [emit fst snd]. unfold bind at 1. rewrite lift_eq.
    cbn [world console]. rewrite Hall. cbn [fst snd]. unfold bind at 1.
    fold versions.
    match goal with |- context [apply_migrations this ?vs ?d ?s0] =>
      destruct (apply_migrations_run this vs d s0) as (log & -> & _)
    end.
    rewrite Hrun. cbn. eexists. reflexivity. }
  destruct E as [log ->]. cbn. rewrite last_snoc. auto.
Qed.

(** ** Health check, statistics, validation *)

(** X14. [healthCheck] reports the storage area healthy exactly when
    its write, its read and its removal of the test key all return and
    the value read back has the text of the value written; it then says
    so without an error. *)
Theorem healthCheck_healthy_iff (w : World) :
  let testValue := VObject [("timestamp", VNumber (Date_now w))] in
  (healthy (healthCheck w).2 = true
   <-> exists (w1 w2 w3 : World) (r : list (string * value)),
         local_set [(testKey, testValue)] w = (w1, Ok tt)
         /\ local_get (Key testKey) w1 = (w2, Ok r)
         /\ local_remove (Key testKey) w2 = (w3, Ok tt)
         /\ stringify (prop (VObject r) testKey) = stringify testValue)
  /\ (healthy (healthCheck w).2 = true ->
      health_message (healthCheck w).2 = "Storage is operational"
      /\ health_error (healthCheck w).2 = None).
Proof.
  intros testValue. unfold StorageManager.healthCheck. fold testValue.
  assert (Hv : exists text, stringify testValue = Ok (Some text))
    by (eexists; reflexivity).
  destruct Hv as [text Hv]. rewrite Hv.
  destruct (local_set [(testKey, testValue)] w) as [w1 [[]|e]] eqn:H1.
  2:{ cbn [snd healthy]. split; [|discriminate]. split; [discriminate|].
      intros (x1 & x2 & x3 & r' & E1 & E2 & E3 & E4). congruence. }
  destruct (local_get (Key testKey) w1) as [w2 [r|e]] eqn:H2.
  2:{ cbn [snd healthy]. split; [|discriminate]. split; [discriminate|].
      intros (x1 & x2 & x3 & r' & E1 & E2 & E3 & E4). congruence. }
  destruct (local_remove (Key testKey) w2) as [w3 [[]|e]] eqn:H3.
  2:{ cbn [snd healthy]. split; [|discriminate]. split; [discriminate|].
      intros (x1 & x2 & x3 & r' & E1 & E2 & E3 & E4). congruence. }
  destruct (stringify (prop (VObject r) testKey)) as [a|e] eqn:H4.
  2:{ cbn [snd healthy]. split; [|discriminate]. split; [discriminate|].
      intros (x1 & x2 & x3 & r' & E1 & E2 & E3 & E4). congruence. }
  cbn [snd healthy health_message health_error].
  destruct (bool_decide_reflect (a = Some text)) as [->|Hne].
  - split; [|auto]. split; [|reflexivity]. intros _. exists w1, w2, w3, r. auto.
  - split; [|discriminate]. split; [discriminate|].
    intros (x1 & x2 & x3 & r' & E1 & E2 & E3 & E4). congruence.
Qed.

(** X15. [clearBackups] returns the number of keys that [getStats]
    counts but does not list: on the same storage area, the key count of
    the statistics is the number of listed keys plus the number of
    backups cleared. *)
Theorem clearBackups_counts_unlisted_keys
    (w w1 w2 : World) (log1 log2 : list line) (st : stats) (n : nat) :
  getStats w = (w1, log1, Ok st) ->
  clearBackups w = (w2, log2, Ok n) ->
  keyCount st = (length (stats_keys st) + n)%nat
  /\ Forall (fun k => is_backup_key k = false) (stats_keys st).
Proof.
  unfold StorageManager.getStats, StorageManager.clearBackups.
  destruct (local_get All w) as [w' [allData|e]]; [|discriminate].
  destruct (stringify (VObject allData)) as [text|e]; [|discriminate].
  intros [= <- <- <-] H.
  assert (n = length (filter (fun k => is_backup_key k) (keys allData))) as ->.
  { destruct (bool_decide _); [|congruence].
    destruct (local_remove _ w') as [w'' [[]|e]]; congruence. }
  clear H. cbn [keyCount stats_keys]. split.
  - induction (keys allData) as [|k ks IH]; [reflexivity|].
    destruct (is_backup_key k) eqn:E.
    + rewrite (filter_cons_False (fun k => negb (is_backup_key k)))
        by (cbn; rewrite E; exact id).
      rewrite (filter_cons_True (fun k => is_backup_key k)) by (cbn; rewrite E; exact I).
      cbn [length]. lia.
    + rewrite (filter_cons_True (fun k => negb (is_backup_key k)))
        by (cbn; rewrite E; exact I).
      rewrite (filter_cons_False (fun k => is_backup_key k))
        by (cbn; rewrite E; exact id).
      cbn [length]. lia.
  - apply Forall_forall. intros k Hk. apply list_elem_of_filter in Hk as [Hk _].
    destruct (is_backup_key k); [destruct Hk | reflexivity].
Qed.

(** No missing field among the workflows means no error from them. *)
Lemma validate_workflows_none (fs : list (string * value)) :
  validate_workflows fs = Ok []
  <-> Forall (fun kv => truthy (prop kv.2 "id") && truthy (prop kv.2 "name")
                        && truthy (prop kv.2 "drawflow") = true) fs.
Proof.
  induction fs as [|[id workflow] fs IH]; [split; [constructor | reflexivity]|].
  cbn [validate_workflows]. rewrite Forall_cons. cbn [snd].
  assert (Hrest : forall (a b c : list string) (P : Prop),
             (a ++ b ++ c = [] <-> P) ->
             match validate_workflows fs with
             | Throw e => Throw e
             | Ok rest => Ok (a ++ b ++ c ++ rest)
             end = Ok []
             <-> P /\ validate_workflows fs = Ok []).
  { intros a b c P HP. destruct (validate_workflows fs) as [rest|e].
    - split.
      + intros [= H]. rewrite !app_assoc in H. apply app_eq_nil in H as [H ->].
        rewrite <- app_assoc in H. split; [apply HP, H | reflexivity].
      + intros [H [= ->]]. apply HP in H. rewrite !app_assoc, app_nil_r, <- app_assoc, H.
        reflexivity.
    - split; [discriminate | intros [_ [=]]]. }
  destruct workflow as [| |b|n|n|t|xs|ws];
    try (cbn; split; [discriminate | intros [[=] _]]).
  all: rewrite <- IH; apply Hrest; unfold missing;
    destruct (truthy (prop _ "id")), (truthy (prop _ "name")),
      (truthy (prop _ "drawflow"));
    cbn [negb andb app]; split; (reflexivity || discriminate).
Qed.

(** X16. [validateData] finds a collection of workflows valid exactly
    when it can be serialized and every entry has a truthy [id], [name]
    and [drawflow]; an entry that is [null] makes it throw instead of
    reporting. *)
Theorem validateData_workflows_valid (fs : list (string * value)) :
  ((exists errs, validateData "workflows" (VObject fs)
                 = Ok {| valid := true; errors := errs |})
   <-> is_ok (stringify (VObject fs)) = true
       /\ Forall (fun kv => truthy (prop kv.2 "id") && truthy (prop kv.2 "name")
                            && truthy (prop kv.2 "drawflow") = true) fs)
  /\ (Exists (fun kv => kv.2 = VNull \/ kv.2 = VUndefined) fs ->
      is_ok (validateData "workflows" (VObject fs)) = false).
Proof.
  unfold StorageManager.validateData.
  change (String.eqb "workflows" "workflows") with true.
  change (String.eqb "workflows" "savedBlocks") with false.
  change (negb (is_object_type (VObject fs)) || false) with false.
  cbn iota. cbn [entries]. split.
  - rewrite <- validate_workflows_none.
    destruct (validate_workflows fs) as [errors2|e];
      [|split; [intros [? [=]] | intros [_ [=]]]].
    rewrite app_nil_r.
    destruct (stringify (VObject fs)) as [text|e]; cbn [is_ok app].
    + destruct errors2 as [|err errors2].
      * split; [auto|]. intros _. exists []. reflexivity.
      * split; [intros [? [=]] | intros [_ [=]]].
    + split; [intros [? [=]] | intros [[=] _]].
  - intros H. assert (E : is_ok (validate_workflows fs) = false).
    { induction H as [[k v] fs [Hv|Hv] | [k v] fs _ IH]; cbn [snd] in *; subst;
        try reflexivity.
      cbn [validate_workflows]. destruct v; try reflexivity;
        (destruct (validate_workflows fs); [discriminate | reflexivity]). }
    destruct (validate_workflows fs); [discriminate | reflexivity].
Qed.

End StorageManager_retries.

(** X9, on an array. *)
Lemma set_rejects_non_objects_witness :
  Memory.manager_set (StorageManager.new true) (VArray [Memory.flow "a"])
    StorageManager.default_options (Memory.start (Memory.written_by "1.0.0"))
  = (Memory.start (Memory.written_by "1.0.0"),
     Throw (Error "Items must be a non-array object")).
Proof.
  apply (set_rejects_non_objects Memory.local_get Memory.local_set Memory.time
           Memory.toISOString).
  intros fields. discriminate.
Defined.

(** X10, on an area whose next three writes throw. *)
Lemma set_restores_without_backup_witness :
  StorageManager.backups Memory.local_get Memory.local_set Memory.time
    Memory.settings StorageManager.default_options (Memory.start Memory.three_write_faults)
  = (Memory.start Memory.three_write_faults, Ok tt)
  /\ exists (w : Memory.World) (restores : list StorageManager.event),
       Memory.manager_set (StorageManager.new true) (VObject Memory.settings)
         StorageManager.default_options (Memory.start Memory.three_write_faults)
       = (StorageManager.State w
            ([] ++ [StorageManager.WriteRetry 1 200 (Error "I/O error");
                    StorageManager.Sleep 200;
                    StorageManager.WriteRetry 2 400 (Error "I/O error");
                    StorageManager.Sleep 400;
                    StorageManager.WriteFailedRollback (Some (Error "I/O error"))]
             ++ restores ++ [StorageManager.UserAlert StorageManager.save_failed]),
          Throw (Error "I/O error"))
       /\ StorageManager.restore_attempts restores = keys Memory.settings.
Proof.
  refine (set_restores_without_backup Memory.local_get Memory.local_set Memory.time
            Memory.toISOString (StorageManager.new true) Memory.settings
            StorageManager.default_options (Memory.start Memory.three_write_faults)
            _ _ _ _ _ _ _ _ _ _ _ _); try reflexivity.
  repeat constructor; discriminate.
Defined.

Example set_three_write_faults_log :
  StorageManager.console
    (Memory.manager_set (StorageManager.new true) (VObject Memory.settings)
       StorageManager.default_options (Memory.start Memory.three_write_faults)).1
  = [StorageManager.WriteRetry 1 200 (Error "I/O error"); StorageManager.Sleep 200;
     StorageManager.WriteRetry 2 400 (Error "I/O error"); StorageManager.Sleep 400;
     StorageManager.WriteFailedRollback (Some (Error "I/O error"));
     StorageManager.NoBackupFound "settings";
     StorageManager.UserAlert StorageManager.save_failed].
Proof. vm_compute. reflexivity. Qed.

(** X11, on the collection of workflows, lost after its backup. *)
Lemma backup_then_restore_witness :
  exists (w2 w4 : Memory.World),
    Memory.manager_createBackup "workflows" (Memory.start (Memory.written_by "1.0.0"))
    = (StorageManager.State w2 ([] ++ [StorageManager.BackupCreated "workflows"]), Ok true)
    /\ Memory.manager_restoreFromBackup "workflows" (Memory.start Memory.lost_after_backup)
       = (StorageManager.State w4
            ([] ++ [StorageManager.Restored "workflows" "T+1700000000000"]), Ok true).
Proof.
  eexists _, _.
  refine (backup_then_restore Memory.local_get Memory.local_set Memory.time
            Memory.toISOString "workflows" (Memory.start (Memory.written_by "1.0.0"))
            (Memory.start Memory.lost_after_backup) _ _ _ _ _ _ _ _ _ _ _ _ _ _);
    try reflexivity.
  discriminate.
Defined.

Example restore_brings_workflows_back :
  assoc "workflows" (Memory.data Memory.lost_after_backup) = None
  /\ assoc "workflows"
       (Memory.data (StorageManager.world
          (Memory.manager_restoreFromBackup "workflows"
             (Memory.start Memory.lost_after_backup)).1))
     = assoc "workflows" (Memory.data (Memory.written_by "1.0.0")).
Proof. split; vm_compute; reflexivity. Qed.

(** X12, on an area that keeps the JSON copy of what it is given. *)
Lemma verify_accepts_json_copy_witness :
  StorageManager.verify
    [("workflows", VObject [("a", Memory.flow "a")]); ("recent", VArray [VNull])]
    [("workflows", VObject [("a", Memory.flow "a"); ("draft", VUndefined)]);
     ("recent", VArray [VUndefined]); ("selected", VUndefined)]
  = Ok tt.
Proof.
  apply verify_accepts_json_copy.
  repeat constructor.
Defined.

(** X13, on a manager whose second handler throws. *)
Lemma runMigrations_handler_throws_witness :
  StorageManager.world
    (Memory.manager_runMigrations Memory.failing_migration
       (Memory.start (Memory.written_by "0.9.0"))).1
  = Memory.written_by "0.9.0"
  /\ (Memory.manager_runMigrations Memory.failing_migration
        (Memory.start (Memory.written_by "0.9.0"))).2
     = Throw (Error ("Migration failed: "
                     +:+ message (Error "Cannot read properties of undefined")))
  /\ last (StorageManager.console
             (Memory.manager_runMigrations Memory.failing_migration
                (Memory.start (Memory.written_by "0.9.0"))).1)
     = Some (StorageManager.MigrationFailed (Error "Cannot read properties of undefined")).
Proof.
  refine (runMigrations_handler_throws Memory.local_get Memory.local_set
            Memory.failing_migration (Memory.start (Memory.written_by "0.9.0"))
            _ _ _ _ _ _ _ _ _ _); try reflexivity.
  discriminate.
Defined.

(** X15, on an area that holds one backup. *)
Lemma clearBackups_counts_unlisted_keys_witness :
  (StorageManager.keyCount
     {| StorageManager.keyCount := 3; StorageManager.estimatedSize := 169;
        StorageManager.estimatedSizeKB := "0.17"; StorageManager.estimatedSizeMB := "0.00";
        StorageManager.stats_keys := ["workflows"; "__storage_version__"] |}
   = length ["workflows"; "__storage_version__"] + 1)%nat
  /\ Forall (fun k => StorageManager.is_backup_key k = false)
       ["workflows"; "__storage_version__"].
Proof.
  refine (clearBackups_counts_unlisted_keys Memory.local_get Memory.local_remove
            Memory.with_backup _ _ _ _
            {| StorageManager.keyCount := 3; StorageManager.estimatedSize := 169;
               StorageManager.estimatedSizeKB := "0.17";
               StorageManager.estimatedSizeMB := "0.00";
               StorageManager.stats_keys := ["workflows"; "__storage_version__"] |}
            1%nat _ _); vm_compute; reflexivity.
Defined.

(* ===================================================================== *)
(** * Further properties of the workflow store *)
(* ===================================================================== *)

Section WorkflowStore_unwrapping.

Import WorkflowStore.

Lemma wrapped_S (n : nat) (x : value) : wrapped (S n) x = wrapper (wrapped n x).
Proof. reflexivity. Qed.

Lemma wrapped_object (n : nat) (fs : list (string * value)) :
  exists gs, wrapped n (VObject fs) = VObject gs.
Proof. destruct n; eexists; reflexivity. Qed.

Lemma wrapped_not_workflow (n : nat) (fs : list (string * value)) :
  isActualWorkflow (VObject fs) = false ->
  isActualWorkflow (wrapped n (VObject fs)) = false.
Proof. intros H. destruct n; [exact H | reflexivity]. Qed.

Lemma nested_wrapper (y : value) (c : nat) :
  truthy y = true -> is_object_type y = true ->
  nested (wrapper y) c = bool_decide (c < maxUnwrapAttempts)%nat.
Proof.
  intros Ht Ho. unfold nested, wrapper.
  change (prop (VObject [("workflows", y)]) "workflows") with y.
  rewrite Ht, Ho. reflexivity.
Qed.

(** The loop on [n] layers around a collection, with [c] layers already
    counted: it removes layers until the count reaches the limit. *)
Lemma unwrap_loop_wrapped (fs : list (string * value)) (n c : nat) :
  isActualWorkflow (VObject fs) = false ->
  clean (VObject fs) = true ->
  (c <= maxUnwrapAttempts)%nat ->
  unwrap_loop (wrapped n (VObject fs)) c
  = Ok (wrapped (n - (maxUnwrapAttempts - c)) (VObject fs)).
Proof.
  intros Hid Hclean. revert c. induction n as [|n IH]; intros c Hc.
  - change (wrapped 0 (VObject fs)) with (VObject fs).
    change (wrapped (0 - (maxUnwrapAttempts - c)) (VObject fs)) with (VObject fs).
    rewrite unwrap_loop_eq. unfold nested.
    unfold clean in Hclean. apply negb_true_iff in Hclean.
    change (truthy (VObject fs) && is_object_type (VObject fs)) with true.
    cbn [andb]. rewrite Hclean. reflexivity.
  - rewrite wrapped_S, unwrap_loop_eq.
    destruct (wrapped_object n fs) as [gs Egs].
    pose proof (wrapped_not_workflow n fs Hid) as Hn.
    rewrite nested_wrapper by (rewrite Egs; reflexivity).
    change (prop (wrapper (wrapped n (VObject fs))) "workflows")
      with (wrapped n (VObject fs)).
    cbn zeta. rewrite Hn.
    change (bool_decide (length (keys (entries (wrapper (wrapped n (VObject fs)))))
                         = 1%nat)) with true.
    cbn iota. unfold maxUnwrapAttempts in *.
    destruct (bool_decide_reflect (c < 10)%nat) as [Hlt|Hge].
    + rewrite IH by lia.
      replace (S n - (10 - c))%nat with (n - (10 - S c))%nat by lia. reflexivity.
    + replace (10 - c)%nat with 0%nat by lia. rewrite Nat.sub_0_r, wrapped_S. reflexivity.
Qed.

(** X17. A collection stored under its own name [n] times over is
    brought back by one call when [n] is at most ten; from deeper
    nesting one call removes ten layers and leaves the rest. Here the
    collection is an object that has no [workflows] entry of its own to
    unwrap. *)
Theorem convert_removes_ten_layers (fs : list (string * value)) (n : nat) :
  isActualWorkflow (VObject fs) = false ->
  clean (VObject fs) = true ->
  convertWorkflowsToObject (wrapped n (VObject fs))
  = Ok (wrapped (n - maxUnwrapAttempts) (VObject fs)).
Proof.
  intros Hid Hclean.
  destruct (wrapped_object n fs) as [gs Egs].
  destruct (wrapped_object (n - maxUnwrapAttempts) fs) as [hs Ehs].
  rewrite Egs at 1. unfold convertWorkflowsToObject. rewrite <- Egs.
  rewrite (unwrap_loop_wrapped fs n 0 Hid Hclean) by (unfold maxUnwrapAttempts; lia).
  rewrite Nat.sub_0_r, Ehs. reflexivity.
Qed.

(** [reduce] over one more workflow. *)
Lemma reduce_by_id_snoc (ws : list value) (w : value) :
  reduce_by_id (ws ++ [w])
  = match reduce_by_id ws with
    | Throw e => Throw e
    | Ok acc =>
        match w with
        | VUndefined | VNull =>
            Throw (Error "Cannot read properties of undefined (reading 'id')")
        | _ => Ok (assign (to_string (prop w "id")) w acc)
        end
    end.
Proof. unfold reduce_by_id. rewrite foldl_app. reflexivity. Qed.

(** X18. An array of workflows becomes the object that holds, under
    each [id] taken as a property name, the last workflow of the array
    with that [id]; the call throws exactly when an element of the array
    is [null] or [undefined]. *)
Theorem convert_array_keeps_last (ws : list value) :
  (is_ok (convertWorkflowsToObject (VArray ws)) = false
   <-> Exists (fun w => w = VNull \/ w = VUndefined) ws)
  /\ forall v, convertWorkflowsToObject (VArray ws) = Ok v ->
       exists fs, v = VObject fs
         /\ forall k : string,
              assoc k fs
              = last (filter (fun w => to_string (prop w "id") = k) ws).
Proof.
  cbn [convertWorkflowsToObject].
  induction ws as [|w ws [IH1 IH2]] using rev_ind.
  - split.
    + split; [discriminate | intros H; inversion H].
    + intros v [= <-]. exists []. split; reflexivity.
  - rewrite reduce_by_id_snoc, Exists_app.
    destruct (reduce_by_id ws) as [acc|e].
    + assert (Hclean : ~ Exists (fun w => w = VNull \/ w = VUndefined) ws).
      { intros H. apply IH1 in H. discriminate. }
      assert (Hacc : forall k, assoc k acc
                       = last (filter (fun w => to_string (prop w "id") = k) ws)).
      { destruct (IH2 (VObject acc) eq_refl) as (fs & [= <-] & H). exact H. }
      assert (Hk : forall k,
                 assoc k (assign (to_string (prop w "id")) w acc)
                 = last (filter (fun w => to_string (prop w "id") = k) (ws ++ [w]))).
      { intros k. rewrite assoc_assign, filter_app, Hacc.
        destruct (String.eqb_spec (to_string (prop w "id")) k) as [E|E].
        - rewrite filter_cons_True, filter_nil by exact E.
          rewrite last_snoc. reflexivity.
        - rewrite filter_cons_False, filter_nil by exact E.
          rewrite app_nil_r. reflexivity. }
      destruct w; cbn [fmap result_fmap is_ok];
        try (split;
             [split; [discriminate
                     | intros [H | H]; [destruct (Hclean H) |];
                       apply Exists_cons in H as [[H|H] | H];
                       [discriminate H | discriminate H | inversion H]]
             | intros v [= <-]; eexists; split; [reflexivity | exact Hk]]).
      * split; [|discriminate]. split; [|reflexivity].
        intros _. right. constructor. auto.
      * split; [|discriminate]. split; [|reflexivity].
        intros _. right. constructor. auto.
    + cbn [fmap result_fmap is_ok]. split; [|discriminate].
      split; [|reflexivity]. intros _. left. apply IH1. reflexivity.
Qed.

End WorkflowStore_unwrapping.

(** X17, on a collection nested twelve times. *)
Lemma convert_removes_ten_layers_witness :
  WorkflowStore.convertWorkflowsToObject (WorkflowStore.wrapped 12 (Memory.one "a"))
  = Ok (WorkflowStore.wrapped (12 - WorkflowStore.maxUnwrapAttempts) (Memory.one "a")).
Proof.
  apply (convert_removes_ten_layers [("a", Memory.flow "a")] 12); reflexivity.
Defined.

Example convert_twelve_layers_twice :
  WorkflowStore.convertWorkflowsToObject (WorkflowStore.wrapped 12 (Memory.one "a"))
  = Ok (WorkflowStore.wrapped 2 (Memory.one "a"))
  /\ WorkflowStore.convertWorkflowsToObject (WorkflowStore.wrapped 2 (Memory.one "a"))
     = Ok (Memory.one "a").
Proof. split; vm_compute; reflexivity. Qed.

(* ===================================================================== *)
(** * Further properties of the Pinia plugin *)
(* ===================================================================== *)

Section Pinia_bursts.

Import Pinia.

Context {World : Type}.
Variable local_get : StorageManager.query -> World -> World * result (list (string * value)).
Variable local_set : list (string * value) -> World -> World * result unit.
Variable Date_now : World -> Z.
Variable toISOString : value -> result string.
Variable storageManager : StorageManager.t.

#[local] Abbreviation saveToStorage := (Pinia.saveToStorage (World := World)).
#[local] Abbreviation advance :=
  (Pinia.advance local_get local_set Date_now toISOString storageManager).
#[local] Abbreviation run :=
  (Pinia.run local_get local_set Date_now toISOString storageManager).
#[local] Abbreviation manager_set :=
  (StorageManager.set local_get local_set Date_now toISOString storageManager).

Lemma last_request_cons (t : Z) (r : value * Z) (reqs : list (value * Z)) :
  last_request t (r :: reqs) = last_request r.2 reqs.
Proof.
  unfold last_request. cbn [fmap list_fmap]. rewrite last_cons.
  destruct (last _); reflexivity.
Qed.

Lemma run_app (l1 l2 : list action) (st : state World) :
  run (l1 ++ l2) st = run l2 (run l1 st).
Proof. apply foldl_app. Qed.

(** While the requests keep coming within the window, one request is
    pending, the latest, and each of the others has been rejected. *)
Lemma run_burst (store : store_def) (key : string) (reqs : list (value * Z))
    (n : nat) (c : Z) (ss : gmap string store_state)
    (ra : gmap string Z) (nt : nat) (ps : list promise) (m : StorageManager.state World) :
  truthy (storageMap store) = true ->
  truthy (prop (storageMap store) key) = true ->
  retrieved (default {| retrieved := false; fields := [] |} (ss !! id store)) = true ->
  within_window c reqs ->
  exists (n' : nat) (ss' : gmap string store_state) (nt' : nat),
    run (reqs ≫= again store key)
        (one_pending store key (c + debounce) n c ss ra nt ps m)
    = one_pending store key (last_request c reqs + debounce) n' (last_request c reqs)
        ss' ra nt' (ps ++ replicate (length reqs) (Rejected cancelled)) m
    /\ retrieved (default {| retrieved := false; fields := [] |} (ss' !! id store)) = true.
Proof.
  intros Hm Hk. revert n c ss nt ps.
  induction reqs as [|[v t] reqs IH]; intros n c ss nt ps Hr Hw.
  - exists n, ss, nt. cbn. rewrite app_nil_r. auto.
  - destruct Hw as (Hle & Hlt & Hw). cbn [fst snd] in *.
    rewrite last_request_cons. cbn [snd].
    change (((v, t) :: reqs) ≫= again store key)
      with ([Assign store key v; Wait t; Save store key] ++ (reqs ≫= again store key)).
    rewrite run_app. unfold Pinia.run at 2. cbn [foldl step].
    rewrite assign_pending, wait_pending by lia.
    rewrite next_request;
      [| assumption | assumption
       | unfold store_of, one_pending; cbn [stores]; rewrite lookup_insert_eq; exact Hr].
    cbn [fst]. rewrite Z.max_r by lia.
    match goal with |- context [one_pending _ _ _ _ _ ?ss1 _ _ _ _] =>
      destruct (IH nt t ss1 (S nt) (ps ++ [Rejected cancelled])) as (n' & ss' & nt' & E & Hr')
    end.
    { rewrite lookup_insert_eq. exact Hr. }
    { exact Hw. }
    exists n', ss', nt'. rewrite E. split; [|exact Hr'].
    rewrite <- app_assoc. reflexivity.
Qed.

(** X19. However many requests for one key follow each other within
    the window, only the last one writes: every earlier promise is
    rejected as cancelled, and when the window after the last request
    has elapsed the manager is asked once, for the value the store holds
    then, and the last promise is settled by the outcome of that
    write. *)
Theorem burst_writes_once
    (store : store_def) (key : string)
    (stores0 : gmap string store_state) (retry0 : gmap string Z)
    (n0 : nat) (ps0 : list promise) (m0 : StorageManager.state World)
    (t1 T : Z) (reqs : list (value * Z)) (v value : value) :
  let st0 := State t1 stores0 ∅ retry0 ∅ n0 ps0 m0 in
  let write :=
    manager_set (VObject [(to_string (prop (storageMap store) key), value)])
      {| StorageManager.backup := isCritical key;
         StorageManager.critical := isCritical key |} m0 in
  let final :=
    run (Save store key :: (reqs ≫= again store key) ++ [Assign store key v; Wait T]) st0 in
  truthy (storageMap store) = true ->
  truthy (prop (storageMap store) key) = true ->
  retrieved (store_of st0 store) = true ->
  within_window t1 reqs ->
  last_request t1 reqs + debounce <= T ->
  snapshot key v = Ok value ->
  manager final = write.1
  /\ promises final
     = ps0 ++ replicate (length reqs) (Rejected cancelled) ++ [outcome write.2]
  /\ timers final = ∅
  /\ saveQueues final = ∅.
Proof.
  intros st0 write final Hm Hk Hr Hw HT Hsnap.
  assert (E : final
              = advance T
                  (mutate store key v
                     (run (reqs ≫= again store key) (saveToStorage store key st0).1))).
  { unfold final. change (Save store key :: ?l) with ([Save store key] ++ l).
    rewrite !run_app. reflexivity. }
  rewrite E. unfold st0. rewrite first_request by assumption. cbn [fst].
  destruct (run_burst store key reqs n0 t1 stores0 retry0 (S n0) ps0 m0 Hm Hk Hr Hw)
    as (n' & ss' & nt' & -> & Hr').
  rewrite assign_pending.
  rewrite elapse_pending with (value := value); [| lia |].
  - cbn [manager promises timers saveQueues]. rewrite <- app_assoc. auto.
  - unfold store_of at 1. cbn [stores]. rewrite lookup_insert_eq.
    cbn [default from_option Datatypes.id fields prop]. rewrite assoc_assign, String.eqb_refl.
    exact Hsnap.
Qed.

(** When the window elapses over a value that cannot be handed on, the
    request is rejected and nothing else changes. *)
Lemma elapse_refused (store : store_def) (key : string) (T : Z) (e : JS.error)
    (due_at : Z) (n : nat) (c : Z) (ss : gmap string store_state)
    (ra : gmap string Z) (nt : nat) (ps : list promise) (m : StorageManager.state World) :
  due_at <= T ->
  snapshot key (prop (VObject (fields (store_of (State c ss ∅ ra ∅ nt ps m) store))) key)
  = Throw e ->
  advance T (one_pending store key due_at n c ss ra nt ps m)
  = State (Z.max c T) ss ∅ ra ∅ nt (ps ++ [Rejected e]) m.
Proof.
  intros Hle Hsnap. unfold one_pending.
  erewrite advance_fires; [|reflexivity|assumption].
  unfold Pinia.fire, clearTimeout, with_saveQueues. cbn.
  rewrite !delete_singleton_eq. unfold store_of in Hsnap |- *. cbn in Hsnap |- *.
  rewrite Hsnap. cbn. erewrite settle_last by reflexivity. reflexivity.
Qed.

(** X20. A collection of workflows that is nothing but a wrapper around
    another object never reaches the storage area: when the window
    elapses the request is rejected with the refusal, and the manager
    has not been called. The wrapper is judged on the copy that would
    be saved. *)
Theorem nested_workflows_not_saved (store : store_def) (T : Z) (inner : value)
    (due_at : Z) (n : nat) (c : Z) (ss : gmap string store_state)
    (ra : gmap string Z) (nt : nat) (ps : list promise) (m : StorageManager.state World) :
  json_clone (prop (VObject (fields (store_of (State c ss ∅ ra ∅ nt ps m) store)))
                   "workflows")
  = Ok (WorkflowStore.wrapper inner) ->
  truthy inner = true ->
  is_object_type inner = true ->
  WorkflowStore.isActualWorkflow inner = false ->
  due_at <= T ->
  advance T (one_pending store "workflows" due_at n c ss ra nt ps m)
  = State (Z.max c T) ss ∅ ra ∅ nt
      (ps ++ [Rejected (Error "Refusing to save corrupted workflows structure with nesting")])
      m.
Proof.
  intros Hclone Ht Ho Hid Hle. apply elapse_refused; [assumption|].
  unfold snapshot. rewrite Hclone. unfold check_workflows, WorkflowStore.wrapper.
  change (prop (VObject [("workflows", inner)]) "workflows") with inner.
  unfold WorkflowStore.isActualWorkflow in Hid. rewrite Ht, Ho, Hid. reflexivity.
Qed.

(** X21. [loadFromStorage] returns [null] or what is stored, never
    [undefined]: [null] stands for a store without a mapping for the
    key (the storage area is then not read), for a read that throws,
    and for a key that is not stored; anything else is the value the
    storage area returned under the mapped name. *)
Theorem loadFromStorage_null_or_stored (store : store_def) (key : string) (w : World) :
  let mapped := truthy (storageMap store) && truthy (prop (storageMap store) key) in
  let storageKey := to_string (prop (storageMap store) key) in
  (loadFromStorage local_get store key w).2 <> VUndefined
  /\ (mapped = false -> loadFromStorage local_get store key w = (w, VNull))
  /\ (mapped = true ->
      (loadFromStorage local_get store key w).1
      = (local_get (StorageManager.Key storageKey) w).1
      /\ (loadFromStorage local_get store key w).2
         = match (local_get (StorageManager.Key storageKey) w).2 with
           | Ok result =>
               match prop (VObject result) storageKey with
               | VUndefined => VNull
               | value => value
               end
           | Throw _ => VNull
           end).
Proof.
  intros mapped storageKey. unfold loadFromStorage. fold storageKey.
  replace (negb (truthy (storageMap store))
           || negb (truthy (prop (storageMap store) key)))
    with (negb mapped)
    by (unfold mapped; destruct (truthy (storageMap store)),
          (truthy (prop (storageMap store) key)); reflexivity).
  destruct mapped; cbn [negb].
  - destruct (local_get (StorageManager.Key storageKey) w) as [w' [result|e]];
      cbn [fst snd].
    + destruct (prop (VObject result) storageKey); cbn [negb fst snd];
        (split; [discriminate|]); (split; [discriminate|]); auto.
    + split; [discriminate|]. split; [discriminate|]. auto.
  - split; [discriminate|]. split; [reflexivity | discriminate].
Qed.

End Pinia_bursts.


(** X19, on four requests at 0ms, 100ms, 250ms and 500ms, left alone
    until 800ms. *)
Lemma burst_writes_once_witness :
  let final :=
    Memory.pinia_run
      (Pinia.Save Memory.workflow_store "workflows"
       :: (Memory.more_requests ≫= Pinia.again Memory.workflow_store "workflows")
       ++ [Pinia.Assign Memory.workflow_store "workflows" (Memory.two "c" "d");
           Pinia.Wait 800]) Memory.quiet in
  let write :=
    Memory.manager_set (StorageManager.new true)
      (VObject [("workflows", Memory.two "c" "d")])
      {| StorageManager.backup := true; StorageManager.critical := true |}
      (Memory.start (Memory.written_by "1.0.0")) in
  Pinia.manager final = write.1
  /\ Pinia.promises final
     = [] ++ replicate (length Memory.more_requests) (Pinia.Rejected Pinia.cancelled)
       ++ [Pinia.outcome write.2]
  /\ Pinia.timers final = ∅
  /\ Pinia.saveQueues final = ∅.
Proof.
  refine (burst_writes_once
            Memory.local_get Memory.local_set Memory.time Memory.toISOString
            (StorageManager.new true)
            Memory.workflow_store "workflows" Memory.retrieved_stores ∅ 0 []
            (Memory.start (Memory.written_by "1.0.0"))
            0 800 Memory.more_requests (Memory.two "c" "d") (Memory.two "c" "d")
            _ _ _ _ _ _); try reflexivity.
  cbn. unfold Pinia.debounce. lia.
Defined.

Example four_requests_one_write :
  let final :=
    Memory.pinia_run
      (Pinia.Save Memory.workflow_store "workflows"
       :: (Memory.more_requests ≫= Pinia.again Memory.workflow_store "workflows")
       ++ [Pinia.Assign Memory.workflow_store "workflows" (Memory.two "c" "d");
           Pinia.Wait 800]) Memory.quiet in
  Pinia.promises final
  = [Pinia.Rejected Pinia.cancelled; Pinia.Rejected Pinia.cancelled;
     Pinia.Rejected Pinia.cancelled; Pinia.Resolved]
  /\ assoc "workflows"
       (Memory.data (StorageManager.world (Pinia.manager final)))
     = Some (Memory.two "c" "d").
Proof. split; vm_compute; reflexivity. Qed.

(** X20, on a store that holds its collection one level too deep. *)
Lemma nested_workflows_not_saved_witness :
  Memory.pinia_advance 300
    (Pinia.one_pending Memory.workflow_store "workflows" 300 0 0 Memory.nested_stores ∅ 1 []
       (Memory.start (Memory.written_by "1.0.0")))
  = Pinia.State (Z.max 0 300) Memory.nested_stores ∅ ∅ ∅ 1
      ([] ++ [Pinia.Rejected
                (Error "Refusing to save corrupted workflows structure with nesting")])
      (Memory.start (Memory.written_by "1.0.0")).
Proof.
  refine (nested_workflows_not_saved
            Memory.local_get Memory.local_set Memory.time Memory.toISOString
            (StorageManager.new true) Memory.workflow_store 300 (Memory.one "a")
            300 0 0 Memory.nested_stores ∅ 1 []
            (Memory.start (Memory.written_by "1.0.0")) _ _ _ _ _); reflexivity.
Defined.

(* ===================================================================== *)
(** * The suspended callbacks *)
(* ===================================================================== *)

Section Async_manager.

Context {World : Type}.
Variable local_get : StorageManager.query -> World -> World * result (list (string * value)).
Variable local_set : list (string * value) -> World -> World * result unit.
Variable Date_now : World -> Z.
Variable toISOString : value -> result string.

#[local] Abbreviation exec := (Async.exec local_get local_set Date_now).

#[local] Abbreviation refines := (Async.refines local_get local_set Date_now).

Lemma exec_pbind {A B} (p : Async.proc A) (f : result A -> Async.proc B)
    (s : StorageManager.state World) :
  exec (Async.pbind p f) s = exec (f (exec p s).2) (exec p s).1.
Proof.
  revert s. induction p as [r|keys k IH|items k IH|ms k IH|k IH|e k IH]; intros s;
    cbn [Async.pbind Async.exec fst snd].
  - reflexivity.
  - destruct (local_get keys (StorageManager.world s)) as [w r]. apply IH.
  - destruct (local_set items (StorageManager.world s)) as [w r]. apply IH.
  - apply IH.
  - apply IH.
  - apply IH.
Qed.

Lemma refines_bind {A B} (p : Async.proc A) (k : A -> Async.proc B)
    (m : StorageManager.M World A) (k' : A -> StorageManager.M World B) :
  refines p m -> (forall a, refines (k a) (k' a)) ->
  refines (Async.bind p k) (StorageManager.bind m k').
Proof.
  intros Hp Hk s. unfold Async.bind, StorageManager.bind. rewrite exec_pbind, Hp.
  destruct (m s) as [s' [a|e]]; cbn [fst snd]; [apply Hk | reflexivity].
Qed.

Lemma refines_try_catch {A} (p : Async.proc A) (h : JS.error -> Async.proc A)
    (m : StorageManager.M World A) (h' : JS.error -> StorageManager.M World A) :
  refines p m -> (forall e, refines (h e) (h' e)) ->
  refines (Async.try_catch p h) (StorageManager.try_catch m h').
Proof.
  intros Hp Hh s. unfold Async.try_catch, StorageManager.try_catch.
  rewrite exec_pbind, Hp.
  destruct (m s) as [s' [a|e]]; cbn [fst snd]; [reflexivity | apply Hh].
Qed.

Lemma refines_ret {A} (a : A) : refines (Async.ret a) (StorageManager.ret a).
Proof. intros s. reflexivity. Qed.

Lemma refines_throw {A} (e : JS.error) :
  refines (Async.throw (A := A) e) (StorageManager.throw e).
Proof. intros s. reflexivity. Qed.

Lemma refines_of_result {A} (r : result A) :
  refines (Async.of_result r) (StorageManager.of_result r).
Proof. intros s. reflexivity. Qed.

Lemma refines_emit (e : StorageManager.event) :
  refines (Async.emit e) (StorageManager.emit e).
Proof. intros s. reflexivity. Qed.

Lemma refines_now : refines Async.now (StorageManager.now Date_now).
Proof. intros s. reflexivity. Qed.

Lemma refines_get (keys : StorageManager.query) :
  refines (Async.local_get keys) (StorageManager.lift (local_get keys)).
Proof.
  intros s. unfold StorageManager.lift. cbn.
  destruct (local_get keys (StorageManager.world s)). reflexivity.
Qed.

Lemma refines_put (items : list (string * value)) :
  refines (Async.local_set items) (StorageManager.lift (local_set items)).
Proof.
  intros s. unfold StorageManager.lift. cbn.
  destruct (local_set items (StorageManager.world s)). reflexivity.
Qed.

Lemma refines_sleep (ms : Z) : refines (Async._sleep ms) (StorageManager._sleep ms).
Proof. intros s. reflexivity. Qed.

Ltac refine_step :=
  first
    [ apply refines_bind | apply refines_try_catch | apply refines_ret
    | apply refines_throw | apply refines_of_result | apply refines_emit
    | apply refines_now | apply refines_get | apply refines_put | apply refines_sleep
    | match goal with |- refines (if ?b then _ else _) _ => destruct b end
    | intro ].

Lemma refines_createBackup (key : string) :
  refines (Async.createBackup key)
    (StorageManager.createBackup local_get local_set Date_now key).
Proof. unfold Async.createBackup, StorageManager.createBackup. repeat refine_step. Qed.

Lemma refines_restoreFromBackup (key : string) :
  refines (Async.restoreFromBackup toISOString key)
    (StorageManager.restoreFromBackup local_get local_set toISOString key).
Proof.
  unfold Async.restoreFromBackup, StorageManager.restoreFromBackup. repeat refine_step.
Qed.

Lemma refines_for_each {A B} (xs : list A) (f : A -> Async.proc B)
    (f' : A -> StorageManager.M World B) :
  (forall x, refines (f x) (f' x)) ->
  refines (Async.for_each xs f) (StorageManager.for_each xs f').
Proof.
  intros Hf. induction xs as [|x xs IH]; cbn [Async.for_each StorageManager.for_each].
  - apply refines_ret.
  - apply refines_bind; [apply Hf | intros _; exact IH].
Qed.

Lemma refines_write_once (items : list (string * value)) (options : StorageManager.options) :
  refines (Async.write_once items options)
    (StorageManager.write_once local_get local_set items options).
Proof. unfold Async.write_once, StorageManager.write_once. repeat refine_step. Qed.

Lemma refines_set_loop (this : StorageManager.t) (items : list (string * value))
    (options : StorageManager.options) (retries : nat) (lastError : option JS.error) :
  refines (Async.set_loop toISOString this items options retries lastError)
    (StorageManager.set_loop local_get local_set toISOString this items options
       retries lastError).
Proof.
  revert lastError. induction retries as [|n IH]; intros lastError;
    cbn [Async.set_loop StorageManager.set_loop].
  - apply refines_bind; [apply refines_emit|]. intros _.
    apply refines_bind.
    + destruct (_ || _); [|apply refines_ret].
      apply refines_for_each. intros key. apply refines_restoreFromBackup.
    + intros _. apply refines_bind; [apply refines_emit|]. intros _. apply refines_throw.
  - apply refines_try_catch; [apply refines_write_once|]. intros error.
    apply refines_bind; [|intros _; apply IH].
    destruct (bool_decide _); [|apply refines_ret].
    apply refines_bind; [apply refines_emit | intros _; apply refines_sleep].
Qed.

(** The manager's [set] written with its suspensions is the [set] of
    [StorageManager] when it is run to its end with nothing in
    between. *)
Lemma refines_set (this : StorageManager.t) (items : value)
    (options : StorageManager.options) :
  refines (Async.set toISOString this items options)
    (StorageManager.set local_get local_set Date_now toISOString this items options).
Proof.
  unfold Async.set, StorageManager.set.
  destruct (_ || _ || _); [apply refines_throw|].
  apply refines_bind; [|intros _; apply refines_set_loop].
  unfold Async.backups, StorageManager.backups.
  destruct (_ || _); [|apply refines_ret].
  apply refines_for_each. intros key.
  destruct (_ || _ || _); [apply refines_createBackup | apply refines_ret].
Qed.

End Async_manager.

Section Async_bounds.

Variable toISOString : value -> result string.

Lemma bounded_mono {A} (n m : nat) (p : Async.proc A) :
  Async.bounded n p -> (n <= m)%nat -> Async.bounded m p.
Proof.
  intros H. revert m. induction H as [n r|n keys k _ IH|n items k _ IH|n ms k _ IH
                                       |n k _ IH|n e k _ IH]; intros m Hm.
  - constructor.
  - destruct m as [|m]; [lia|]. constructor. intros r. apply IH. lia.
  - destruct m as [|m]; [lia|]. constructor. intros r. apply IH. lia.
  - destruct m as [|m]; [lia|]. constructor. apply IH. lia.
  - constructor. intros z. apply IH. exact Hm.
  - constructor. apply IH. exact Hm.
Qed.

Lemma bounded_pbind {A B} (n m : nat) (p : Async.proc A) (f : result A -> Async.proc B) :
  Async.bounded n p -> (forall r, Async.bounded m (f r)) ->
  Async.bounded (n + m) (Async.pbind p f).
Proof.
  intros H Hf. induction H as [n r|n keys k _ IH|n items k _ IH|n ms k _ IH
                                |n k _ IH|n e k _ IH]; cbn [Async.pbind].
  - eapply bounded_mono; [apply Hf | lia].
  - constructor. exact IH.
  - constructor. exact IH.
  - constructor. exact IH.
  - constructor. exact IH.
  - constructor. exact IH.
Qed.

Lemma bounded_bind {A B} (n m : nat) (p : Async.proc A) (k : A -> Async.proc B) :
  Async.bounded n p -> (forall a, Async.bounded m (k a)) ->
  Async.bounded (n + m) (Async.bind p k).
Proof.
  intros H Hk. apply bounded_pbind; [exact H|]. intros [a|e]; [apply Hk | constructor].
Qed.

Lemma bounded_try_catch {A} (n m : nat) (p : Async.proc A) (h : JS.error -> Async.proc A) :
  Async.bounded n p -> (forall e, Async.bounded m (h e)) ->
  Async.bounded (n + m) (Async.try_catch p h).
Proof.
  intros H Hh. apply bounded_pbind; [exact H|]. intros [a|e]; [constructor | apply Hh].
Qed.

Lemma bounded_emit (e : StorageManager.event) : Async.bounded 0 (Async.emit e).
Proof. repeat constructor. Qed.

Ltac bbind n m :=
  apply (bounded_mono (n + m)); [apply (bounded_bind n m) | cbn [length]; lia].
Ltac btry n m :=
  apply (bounded_mono (n + m)); [apply (bounded_try_catch n m) | cbn [length]; lia].

Lemma bounded_createBackup (key : string) : Async.bounded 2 (Async.createBackup key).
Proof.
  unfold Async.createBackup.
  btry 2%nat 0%nat; [|intros e; repeat constructor].
  bbind 1%nat 1%nat; [repeat constructor|]. intros r.
  destruct (negb _); [|constructor].
  bbind 0%nat 1%nat; [repeat constructor|]. intros timestamp.
  bbind 1%nat 0%nat; repeat constructor.
Qed.

Lemma bounded_restoreFromBackup (key : string) :
  Async.bounded 2 (Async.restoreFromBackup toISOString key).
Proof.
  unfold Async.restoreFromBackup.
  btry 2%nat 0%nat; [|intros e; repeat constructor].
  bbind 1%nat 1%nat; [repeat constructor|]. intros r.
  destruct (_ && _); [|repeat constructor].
  bbind 1%nat 0%nat; [repeat constructor|]. intros _.
  bbind 0%nat 0%nat; [constructor|]. intros iso. repeat constructor.
Qed.

Lemma bounded_for_each {A B} (c : nat) (xs : list A) (f : A -> Async.proc B) :
  (forall x, Async.bounded c (f x)) ->
  Async.bounded (c * length xs) (Async.for_each xs f).
Proof.
  intros Hf. induction xs as [|x xs IH]; cbn [Async.for_each length].
  - constructor.
  - apply (bounded_mono (c + c * length xs)); [|lia].
    apply bounded_bind; [apply Hf | intros _; exact IH].
Qed.

Lemma bounded_write_once (items : list (string * value)) (options : StorageManager.options) :
  Async.bounded 2 (Async.write_once items options).
Proof.
  unfold Async.write_once.
  bbind 1%nat 1%nat; [repeat constructor|]. intros _.
  bbind 1%nat 0%nat; [|intros _; constructor].
  destruct (StorageManager.critical options); [|constructor].
  bbind 1%nat 0%nat; [repeat constructor | intros v; constructor].
Qed.

Lemma bounded_set_loop (this : StorageManager.t) (items : list (string * value))
    (options : StorageManager.options) (retries : nat) (lastError : option JS.error) :
  Async.bounded (3 * retries + 2 * length items)
    (Async.set_loop toISOString this items options retries lastError).
Proof.
  revert lastError. induction retries as [|n IH]; intros lastError;
    cbn [Async.set_loop].
  - bbind 0%nat (2 * length items)%nat; [apply bounded_emit|]. intros _.
    bbind (2 * length items)%nat 0%nat.
    + destruct (_ || _); [|constructor].
      unfold keys. rewrite <- (length_fmap fst items).
      apply bounded_for_each. intros key. apply bounded_restoreFromBackup.
    + intros _. bbind 0%nat 0%nat; [apply bounded_emit | intros _; constructor].
  - btry 2%nat (1 + (3 * n + 2 * length items))%nat; [apply bounded_write_once|].
    intros error. apply bounded_bind; [|intros _; apply IH].
    destruct (bool_decide _); [|constructor].
    bbind 0%nat 1%nat; [apply bounded_emit|]. intros _.
    unfold Async._sleep. bbind 0%nat 1%nat; [apply bounded_emit|].
    intros _. repeat constructor.
Qed.

(** The manager's [set] is suspended at most four times for every key
    of [items] and nine times more. *)
Lemma bounded_set (this : StorageManager.t) (items : value)
    (options : StorageManager.options) :
  Async.bounded (4 * length (entries items) + 9)
    (Async.set toISOString this items options).
Proof.
  unfold Async.set. destruct (_ || _ || _); [constructor|].
  apply (bounded_mono (2 * length (entries items)
                       + (3 * StorageManager.MAX_RETRIES + 2 * length (entries items))));
    [|unfold StorageManager.MAX_RETRIES; lia].
  apply bounded_bind; [|intros _; apply bounded_set_loop].
  unfold Async.backups. destruct (_ || _); [|constructor].
  unfold keys. rewrite <- (length_fmap fst (entries items)).
  apply bounded_for_each. intros key.
  destruct (_ || _ || _); [apply bounded_createBackup | constructor].
Qed.

End Async_bounds.

Section Async_loop.

Import Pinia.

Context {World : Type}.
Variable local_get : StorageManager.query -> World -> World * result (list (string * value)).
Variable local_set : list (string * value) -> World -> World * result unit.
Variable Date_now : World -> Z.
Variable toISOString : value -> result string.
Variable storageManager : StorageManager.t.

#[local] Abbreviation sync := (Async.sync (World := World) Date_now).
#[local] Abbreviation proceed := (Async.proceed (World := World) Date_now).
#[local] Abbreviation resume := (Async.resume local_get local_set Date_now).
#[local] Abbreviation fire := (Async.fire Date_now toISOString storageManager).
#[local] Abbreviation do := (Async.do local_get local_set Date_now toISOString storageManager).
#[local] Abbreviation run := (Async.run local_get local_set Date_now toISOString storageManager).
#[local] Abbreviation internal :=
  (Async.internal local_get local_set Date_now toISOString storageManager).
#[local] Abbreviation settles_down :=
  (Async.settles_down local_get local_set Date_now toISOString storageManager).

(** ** One callback *)

(** Up to its next suspension a function keeps its bound, and it stops
    at an [await] or at its end. *)
Lemma sync_bounded {A} (n : nat) (p : Async.proc A) (s : StorageManager.state World) :
  Async.bounded n p ->
  Async.bounded n (sync p s).1
  /\ (Async.awaiting (sync p s).1 = true \/ exists r, (sync p s).1 = Async.Done r).
Proof.
  intros H. revert s.
  induction H as [n r|n keys k H _|n items k H _|n ms k H _|n k _ IH|n e k _ IH];
    intros s; cbn [Async.sync fst].
  - split; [constructor | right; eauto].
  - split; [constructor; exact H | left; reflexivity].
  - split; [constructor; exact H | left; reflexivity].
  - split; [constructor; exact H | left; reflexivity].
  - apply IH.
  - apply IH.
Qed.

Lemma settle_settled (n : nat) (p : promise) (b : state World) :
  p <> Pending -> Async.settled n b (settle n p b).
Proof.
  intros Hp. unfold Async.settled, settle. destruct (promises b !! n) as [[| |r]|] eqn:E;
    cbn [timers saveQueues next_timer clock promises];
    repeat (split; [reflexivity || apply length_insert|]).
  - intros i Hi. destruct (decide (i = n)) as [->|Hne].
    + rewrite list_lookup_insert_eq in Hi by (eapply lookup_lt_Some; exact E). congruence.
    + rewrite list_lookup_insert_ne in Hi by congruence. auto.
  - intros i Hi. split; [exact Hi | congruence].
  - intros i Hi. split; [exact Hi | congruence].
  - intros i Hi. split; [exact Hi | congruence].
Qed.

Lemma outcome_settled (r : result bool) : outcome r <> Pending.
Proof. destruct r; discriminate. Qed.

(** A callback that goes on either ends, and settles its promise, or
    is suspended again. *)
Lemma proceed_cases (tk : Async.task) (p : Async.proc bool) (n : nat)
    (st : Async.state World) :
  Async.bounded n p ->
  (Async.inflight (proceed tk p st) = Async.inflight st
   /\ Async.settled (Async.a_settles tk) (Async.base st) (Async.base (proceed tk p st)))
  \/ (exists tk',
        Async.inflight (proceed tk p st) = Async.inflight st ++ [tk']
        /\ Async.unchanged (Async.base st) (Async.base (proceed tk p st))
        /\ Async.a_settles tk' = Async.a_settles tk
        /\ Async.awaiting (Async.a_cont tk') = true
        /\ Async.bounded n (Async.a_cont tk')).
Proof.
  intros Hb. unfold Async.proceed.
  destruct (sync_bounded n p (manager (Async.base st)) Hb) as [Hb' Hcase].
  destruct (sync p (manager (Async.base st))) as [p' m]. cbn [fst] in Hb', Hcase.
  destruct Hcase as [Haw|[r ->]].
  - right.
    exists (Async.Task (Async.a_queueKey tk) (Async.a_settles tk)
              (clock (with_manager m (Async.base st))) p').
    destruct p'; try discriminate Haw; cbn [Async.inflight Async.base];
      (split; [reflexivity|]); (split; [repeat split|]); auto.
  - left. cbn [Async.inflight Async.base]. split; [reflexivity|].
    apply (settle_settled (Async.a_settles tk) (outcome r)
             (delete_saveRetryAttempts (Async.a_queueKey tk)
                (with_manager m (Async.base st)))).
    apply outcome_settled.
Qed.

(** The callback of a timer: the timer and the entry of its key are
    gone; its promise is settled or the callback is suspended. *)
Lemma fire_cases (n : nat) (tm : timer) (st : Async.state World) :
  timers (Async.base st) !! n = Some tm ->
  let st' := fire n tm st in
  timers (Async.base st') = delete n (timers (Async.base st))
  /\ saveQueues (Async.base st') = delete (t_queueKey tm) (saveQueues (Async.base st))
  /\ next_timer (Async.base st') = next_timer (Async.base st)
  /\ length (promises (Async.base st')) = length (promises (Async.base st))
  /\ ((Async.inflight st' = Async.inflight st
       /\ forall j, promises (Async.base st') !! j = Some Pending ->
            promises (Async.base st) !! j = Some Pending /\ j <> t_settles tm)
      \/ (exists tk',
            Async.inflight st' = Async.inflight st ++ [tk']
            /\ promises (Async.base st') = promises (Async.base st)
            /\ Async.a_settles tk' = t_settles tm
            /\ Async.task_ok tk')).
Proof.
  intros Hn st'. subst st'. unfold Async.fire.
  set (b2 := with_saveQueues _ _).
  destruct (snapshot _ _) as [value|error].
  - match goal with |- context [proceed ?tk ?p ?s] =>
      destruct (proceed_cases tk p Async.max_suspensions s) as [[Hl Hs]|(tk' & Hl & Hu & Ht & Ha & Hb)]
    end.
    { eapply bounded_mono; [apply bounded_set | cbn; unfold Async.max_suspensions; lia]. }
    + destruct Hs as (H1 & H2 & H3 & H4 & H5). cbn [Async.base Async.inflight Async.a_settles] in *.
      rewrite H1, H2, H3, H4. repeat (split; [reflexivity|]). left. auto.
    + destruct Hu as (H1 & H2 & H3 & H4). cbn [Async.base Async.inflight Async.a_settles] in *.
      rewrite H1, H2, H3, H4. repeat (split; [reflexivity|]). right.
      exists tk'. split; [exact Hl|]. split; [reflexivity|]. split; [exact Ht|].
      split; assumption.
  - destruct (settle_settled (t_settles tm) (Rejected error) b2) as (H1 & H2 & H3 & H4 & H5);
      [discriminate|].
    cbn [Async.base Async.inflight]. rewrite H1, H2, H3, H4.
    repeat (split; [reflexivity|]). left. auto.
Qed.

(** A suspended callback that is resumed. *)
Lemma resume_cases (i : nat) (tk : Async.task) (n : nat) (st : Async.state World) :
  Async.inflight st !! i = Some tk ->
  Async.awaiting (Async.a_cont tk) = true ->
  Async.bounded (S n) (Async.a_cont tk) ->
  let st' := do st (Async.Resume i) in
  (Async.inflight st' = delete i (Async.inflight st)
   /\ Async.settled (Async.a_settles tk) (Async.base st) (Async.base st'))
  \/ (exists tk',
        Async.inflight st' = delete i (Async.inflight st) ++ [tk']
        /\ Async.unchanged (Async.base st) (Async.base st')
        /\ Async.a_settles tk' = Async.a_settles tk
        /\ Async.awaiting (Async.a_cont tk') = true
        /\ Async.bounded n (Async.a_cont tk')).
Proof.
  intros Hi Haw Hb st'. subst st'. cbn [Async.do]. rewrite Hi. unfold Async.resume.
  cbn [Async.base Async.inflight].
  destruct (Async.a_cont tk) as [r|keys k|items k|ms k|k|e k]; try discriminate Haw.
  - inversion Hb as [|? ? ? Hk| | | |]; subst.
    destruct (local_get keys _) as [w r].
    match goal with |- context [proceed tk ?p ?s] =>
      destruct (proceed_cases tk p n s (Hk r)) as [[Hl Hs]|(tk' & Hl & Hu & H)]
    end; [left | right; exists tk']; auto.
  - inversion Hb as [| |? ? ? Hk| | |]; subst.
    destruct (local_set items _) as [w r].
    match goal with |- context [proceed tk ?p ?s] =>
      destruct (proceed_cases tk p n s (Hk r)) as [[Hl Hs]|(tk' & Hl & Hu & H)]
    end; [left | right; exists tk']; auto.
  - inversion Hb as [| | |? ? ? Hk| |]; subst.
    match goal with |- context [proceed tk ?p ?s] =>
      destruct (proceed_cases tk p n s Hk) as [[Hl Hs]|(tk' & Hl & Hu & H)]
    end; [left | right; exists tk']; auto.
Qed.

End Async_loop.

Section Async_settling.

Import Pinia.

Context {World : Type}.
Variable local_get : StorageManager.query -> World -> World * result (list (string * value)).
Variable local_set : list (string * value) -> World -> World * result unit.
Variable Date_now : World -> Z.
Variable toISOString : value -> result string.
Variable storageManager : StorageManager.t.

#[local] Abbreviation fire := (Async.fire Date_now toISOString storageManager).
#[local] Abbreviation do := (Async.do local_get local_set Date_now toISOString storageManager).
#[local] Abbreviation run := (Async.run local_get local_set Date_now toISOString storageManager).
#[local] Abbreviation internal :=
  (Async.internal local_get local_set Date_now toISOString storageManager).
#[local] Abbreviation settles_down :=
  (Async.settles_down local_get local_set Date_now toISOString storageManager).

(** The suspended callbacks stand at an [await], with [bs] suspensions
    to come. *)
#[local] Abbreviation suspended :=
  (Forall2 (fun n tk => Async.awaiting (Async.a_cont tk) = true
                        /\ Async.bounded n (Async.a_cont tk))).

(** ** The invariant *)

Lemma idle_consistent (st : Async.state World) : Async.idle st -> Async.consistent st.
Proof.
  intros ((Ht & Hi) & Hq & Hp). split.
  - intros i Hpi. rewrite Forall_forall in Hp.
    destruct (Hp Pending); [|reflexivity]. apply list_elem_of_lookup. eauto.
  - intros q e. rewrite Hq, lookup_empty. discriminate.
  - intros n tm. rewrite Ht, lookup_empty. discriminate.
Qed.

Lemma elem_of_delete_or {A} (l : list A) (i : nat) (x y : A) :
  l !! i = Some x -> y ∈ l -> y = x \/ y ∈ delete i l.
Proof.
  revert i. induction l as [|a l IH]; intros [|i] Hi Hy; try discriminate Hi.
  - cbn in Hi. injection Hi as ->. apply elem_of_cons in Hy as [->|Hy]; auto.
  - cbn in Hi. apply elem_of_cons in Hy as [->|Hy].
    + right. cbn. left.
    + destruct (IH i Hi Hy) as [->|H]; [left; reflexivity | right; cbn; right; exact H].
Qed.

Lemma sum_delete (bs : list nat) (i n : nat) :
  bs !! i = Some n -> sum_list_with S bs = (S n + sum_list_with S (delete i bs))%nat.
Proof.
  revert i. induction bs as [|a bs IH]; intros [|i] Hi; try discriminate Hi.
  - cbn in Hi. injection Hi as ->. reflexivity.
  - cbn in Hi. specialize (IH i Hi).
    change (delete (S i) (a :: bs)) with (a :: delete i bs).
    change (sum_list_with S (a :: bs)) with (S a + sum_list_with S bs)%nat.
    change (sum_list_with S (a :: delete i bs))
      with (S a + sum_list_with S (delete i bs))%nat.
    lia.
Qed.

Lemma awaiting_bounded {A} (n : nat) (p : Async.proc A) :
  Async.awaiting p = true -> Async.bounded n p -> exists m, n = S m.
Proof. intros Ha Hb. destruct Hb; try discriminate Ha; eauto. Qed.

(** A timer fires: the invariant is kept and less is left to do. *)
Lemma fire_decreases (n : nat) (tm : timer) (bs : list nat) (st : Async.state World) :
  Async.consistent st -> suspended bs (Async.inflight st) ->
  timers (Async.base st) !! n = Some tm ->
  let st' := fire n tm st in
  Async.consistent st'
  /\ length (promises (Async.base st')) = length (promises (Async.base st))
  /\ exists bs', suspended bs' (Async.inflight st')
                 /\ (Async.cost bs' (Async.base st') < Async.cost bs (Async.base st))%nat.
Proof.
  intros [HA HB HC] Hbs Hn st'.
  destruct (fire_cases Date_now toISOString storageManager n tm st Hn)
    as (Ht & Hq & Hnt & Hlen & Hcase).
  fold st' in Ht, Hq, Hnt, Hlen, Hcase.
  assert (Hsize : size (timers (Async.base st)) = S (size (timers (Async.base st')))).
  { rewrite Ht, map_size_delete, Hn.
    destruct (size (timers (Async.base st))) eqn:E; [|reflexivity].
    apply map_size_empty_inv in E. rewrite E, lookup_empty in Hn. discriminate. }
  assert (HB' : forall q e, saveQueues (Async.base st') !! q = Some e ->
            exists tm', timers (Async.base st') !! timeoutId e = Some tm'
                        /\ t_settles tm' = settles e /\ t_queueKey tm' = q).
  { intros q e He. rewrite Hq in He. apply lookup_delete_Some in He as [Hne He].
    destruct (HB q e He) as (tm' & Hn' & Hs & Hk).
    exists tm'. split; [|auto]. rewrite Ht.
    apply lookup_delete_Some. split; [|exact Hn']. intros ->. congruence. }
  assert (HC' : forall n' tm', timers (Async.base st') !! n' = Some tm' ->
            (n' < next_timer (Async.base st'))%nat).
  { intros n' tm' H. rewrite Ht in H. apply lookup_delete_Some in H as [_ H].
    rewrite Hnt. eauto. }
  split; [|split; [exact Hlen|]].
  - split; [|exact HB'|exact HC'].
    intros j Hj. destruct Hcase as [[Hl Hp]|(tk' & Hl & Hp & Hs & _)].
    + apply Hp in Hj as [Hj Hne].
      destruct (HA j Hj) as [(n' & tm' & Hn' & Hs)|(tk & Hin & Hs)].
      * left. exists n', tm'. split; [|exact Hs]. rewrite Ht.
        apply lookup_delete_Some. split; [|exact Hn']. intros <-. congruence.
      * right. exists tk. rewrite Hl. auto.
    + rewrite Hp in Hj.
      destruct (HA j Hj) as [(n' & tm' & Hn' & Hs')|(tk & Hin & Hs')].
      * destruct (decide (n' = n)) as [->|Hne].
        -- right. exists tk'. rewrite Hl. split; [apply elem_of_app; right; left|].
           congruence.
        -- left. exists n', tm'. split; [|exact Hs']. rewrite Ht.
           apply lookup_delete_Some. auto.
      * right. exists tk. rewrite Hl. split; [apply elem_of_app; left; exact Hin|exact Hs'].
  - destruct Hcase as [[Hl _]|(tk' & Hl & _ & _ & Haw & Hb)].
    + exists bs. rewrite Hl. split; [exact Hbs|]. unfold Async.cost. rewrite Hsize. lia.
    + exists (bs ++ [Async.max_suspensions]). rewrite Hl. split.
      * apply Forall2_app; [exact Hbs|]. constructor; [auto | constructor].
      * unfold Async.cost. rewrite Hsize, sum_list_with_app. cbn. lia.
Qed.

(** A suspended callback is resumed: the same. *)
Lemma resume_decreases (i : nat) (tk : Async.task) (bs : list nat) (st : Async.state World) :
  Async.consistent st -> suspended bs (Async.inflight st) ->
  Async.inflight st !! i = Some tk ->
  let st' := do st (Async.Resume i) in
  Async.consistent st'
  /\ length (promises (Async.base st')) = length (promises (Async.base st))
  /\ exists bs', suspended bs' (Async.inflight st')
                 /\ (Async.cost bs' (Async.base st') < Async.cost bs (Async.base st))%nat.
Proof.
  intros [HA HB HC] Hbs Hi st'.
  destruct (Forall2_lookup_r _ _ _ _ _ Hbs Hi) as (b & Hb & Haw & Hbound).
  destruct (awaiting_bounded b _ Haw Hbound) as [m ->].
  destruct (resume_cases local_get local_set Date_now toISOString storageManager
              i tk m st Hi Haw Hbound) as [[Hl Hs]|(tk' & Hl & Hu & Hs & Haw' & Hb')];
    fold st' in Hl, Hs.
  - destruct Hs as (Ht & Hq & Hnt & Hlen & Hp).
    split; [|split; [exact Hlen|]].
    + split.
      * intros j Hj. apply Hp in Hj as [Hj Hne].
        destruct (HA j Hj) as [(n' & tm' & Hn' & Hs)|(tk0 & Hin & Hs)].
        -- left. exists n', tm'. rewrite Ht. auto.
        -- right. destruct (elem_of_delete_or _ i tk tk0 Hi Hin) as [->|Hin'];
             [congruence|]. exists tk0. rewrite Hl. auto.
      * intros q e He. rewrite Hq in He. rewrite Ht. eauto.
      * intros n' tm' H. rewrite Ht in H. rewrite Hnt. eauto.
    + exists (delete i bs). rewrite Hl. split; [apply Forall2_delete; exact Hbs|].
      unfold Async.cost. rewrite Ht, (sum_delete bs i (S m) Hb). lia.
  - fold st' in Hu. destruct Hu as (Ht & Hq & Hnt & Hp).
    split; [|split; [rewrite Hp; reflexivity|]].
    + split.
      * intros j Hj. rewrite Hp in Hj.
        destruct (HA j Hj) as [(n' & tm' & Hn' & Hs')|(tk0 & Hin & Hs')].
        -- left. exists n', tm'. rewrite Ht. auto.
        -- right. destruct (elem_of_delete_or _ i tk tk0 Hi Hin) as [->|Hin'].
           ++ exists tk'. rewrite Hl. split; [apply elem_of_app; right; left | congruence].
           ++ exists tk0. rewrite Hl. split; [apply elem_of_app; left; exact Hin' | exact Hs'].
      * intros q e He. rewrite Hq in He. rewrite Ht. eauto.
      * intros n' tm' H. rewrite Ht in H. rewrite Hnt. eauto.
    + exists (delete i bs ++ [m]). rewrite Hl. split.
      * apply Forall2_app; [apply Forall2_delete; exact Hbs|].
        constructor; [auto | constructor].
      * unfold Async.cost. rewrite Ht, (sum_delete bs i (S m) Hb), sum_list_with_app.
        cbn. lia.
Qed.

(** A request: its promise is pending and owned by the timer it arms;
    the request it replaces is rejected and its timer cleared. *)
Lemma saveToStorage_consistent (store : store_def) (key : string) (st : Async.state World) :
  let st' := Async.State (saveToStorage store key (Async.base st)).1 (Async.inflight st) in
  Async.consistent st ->
  Async.consistent st'
  /\ length (promises (Async.base st')) = S (length (promises (Async.base st))).
Proof.
  intros st' [HA HB HC]. subst st'. destruct st as [b l].
  cbn [Async.base Async.inflight] in *.
  assert (Hearly : Async.consistent (Async.State (new_promise Resolved b).1 l)
                   /\ length (promises (new_promise Resolved b).1) = S (length (promises b))).
  { cbn. split; [|rewrite length_app; cbn; lia].
    split; cbn [Async.base Async.inflight clock stores saveQueues timers next_timer promises];
      eauto.
    intros i Hi. apply lookup_snoc_Some in Hi as [[_ Hi]|[_ [=]]]. eauto. }
  unfold Pinia.saveToStorage.
  destruct (negb _ || negb _); [exact Hearly|].
  destruct (negb (retrieved _)); [exact Hearly|].
  clear Hearly.
  set (queueKey := id store +:+ ":" +:+ key).
  assert (Hcancel : exists ts ps,
             match saveQueues b !! queueKey with
             | Some existingQueue =>
                 settle (settles existingQueue) (Rejected cancelled)
                   (clearTimeout (timeoutId existingQueue) b)
             | None => b
             end
             = State (clock b) (stores b) (saveQueues b) (saveRetryAttempts b)
                 ts (next_timer b) ps (manager b)
             /\ length ps = length (promises b)
             /\ (forall n tm, ts !! n = Some tm -> timers b !! n = Some tm)
             /\ (forall i, ps !! i = Some Pending ->
                   (exists n tm, ts !! n = Some tm /\ t_settles tm = i)
                   \/ (exists tk, tk ∈ l /\ Async.a_settles tk = i))
             /\ (forall q e, q <> queueKey -> saveQueues b !! q = Some e ->
                   exists tm, ts !! timeoutId e = Some tm
                              /\ t_settles tm = settles e /\ t_queueKey tm = q)).
  { destruct (saveQueues b !! queueKey) as [e|] eqn:Eq.
    - pose proof (settle_settled (settles e) (Rejected cancelled)
                    (clearTimeout (timeoutId e) b)) as (_ & _ & _ & Hlen & Hp);
        [discriminate|].
      exists (delete (timeoutId e) (timers b)),
             (promises (settle (settles e) (Rejected cancelled)
                          (clearTimeout (timeoutId e) b))).
      split.
      { unfold settle. cbn [clearTimeout promises clock stores saveQueues
                              saveRetryAttempts timers next_timer manager].
        destruct (promises b !! settles e) as [[| |?]|]; reflexivity. }
      cbn [clearTimeout promises] in Hlen, Hp. split; [exact Hlen|].
      destruct (HB queueKey e Eq) as (tme & Htme & Hse & Hke).
      split; [|split].
      + intros n tm H. apply lookup_delete_Some in H as [_ H]. exact H.
      + intros i Hi. apply Hp in Hi as [Hi Hne].
        destruct (HA i Hi) as [(n & tm & Hn & Hs)|Htk]; [left | right; exact Htk].
        exists n, tm. split; [|exact Hs].
        apply lookup_delete_Some. split; [|exact Hn]. intros <-. congruence.
      + intros q e' Hq He'. destruct (HB q e' He') as (tm & Hn & Hs & Hk).
        exists tm. split; [|auto].
        apply lookup_delete_Some. split; [|exact Hn]. intros E. rewrite E in Htme.
        congruence.
    - exists (timers b), (promises b). destruct b. cbn in *.
      split; [reflexivity|]. split; [reflexivity|]. split; [auto|]. split; [exact HA|].
      intros q e _ He. eauto. }
  destruct Hcancel as (ts & ps & -> & Hlen & Hsub & HA' & HB').
  cbn [new_promise setTimeout with_saveQueues fst snd clock stores saveQueues
         saveRetryAttempts timers next_timer promises manager].
  unfold with_saveQueues.
  cbn [clock stores saveQueues saveRetryAttempts timers next_timer promises manager].
  split; [|rewrite length_app; cbn; lia].
  split; cbn [Async.base Async.inflight clock stores saveQueues timers next_timer promises].
  - intros i Hi. apply lookup_snoc_Some in Hi as [[_ Hi]|[-> _]].
    + destruct (HA' i Hi) as [(n & tm & Hn & Hs)|Htk]; [left | right; exact Htk].
      exists n, tm. split; [|exact Hs].
      rewrite lookup_insert_ne; [exact Hn|].
      intros <-. apply Hsub, HC in Hn. lia.
    + left. eexists (next_timer b), _. rewrite lookup_insert_eq. split; reflexivity.
  - intros q e Hq. destruct (decide (q = queueKey)) as [->|Hne].
    + rewrite lookup_insert_eq in Hq. injection Hq as <-. cbn [timeoutId settles].
      eexists. rewrite lookup_insert_eq. split; [reflexivity|]. split; reflexivity.
    + rewrite lookup_insert_ne in Hq by congruence.
      destruct (HB' q e Hne Hq) as (tm & Hn & Hs & Hk).
      exists tm. split; [|auto].
      rewrite lookup_insert_ne; [exact Hn|].
      intros E. rewrite <- E in Hn. apply Hsub, HC in Hn. lia.
  - intros n tm H. apply lookup_insert_Some in H as [[<- _]|[_ H]]; [lia|].
    apply Hsub, HC in H. lia.
Qed.

(** Whatever happens, one task at a time, the invariant holds and
    every request has returned one promise. *)
Lemma run_consistent (moves : list Async.move) (st : Async.state World) :
  Async.consistent st -> (exists bs, suspended bs (Async.inflight st)) ->
  Async.consistent (run moves st)
  /\ (exists bs, suspended bs (Async.inflight (run moves st)))
  /\ length (promises (Async.base (run moves st)))
     = (length (promises (Async.base st)) + Async.requests moves)%nat.
Proof.
  revert st. induction moves as [|mv moves IH]; intros st Hc [bs Hbs].
  - cbn. split; [exact Hc|]. split; [eauto | lia].
  - unfold Async.run. cbn [foldl]. fold (run moves (do st mv)).
    assert (H1 : Async.consistent (do st mv)
                 /\ (exists bs', suspended bs' (Async.inflight (do st mv)))
                 /\ length (promises (Async.base (do st mv)))
                    = (length (promises (Async.base st))
                       + Async.requests [mv])%nat).
    { destruct mv as [store key|store key v|t|n|i]; cbn [Async.do Async.requests].
      - destruct (saveToStorage_consistent store key st Hc) as [Hc1 Hlen].
        split; [exact Hc1|]. split; [eauto|]. cbn [Async.base] in *. lia.
      - split; [|split; [eauto | cbn; lia]].
        destruct Hc as [HA HB HC]. split; cbn; auto.
      - split; [|split; [eauto | cbn; lia]].
        destruct Hc as [HA HB HC]. split; cbn; auto.
      - destruct (timers (Async.base st) !! n) as [tm|] eqn:E.
        + destruct (fire_decreases n tm bs st Hc Hbs E) as (Hc1 & Hlen & bs' & Hbs' & _).
          split; [exact Hc1|]. split; [eauto | lia].
        + split; [exact Hc|]. split; [eauto | lia].
      - destruct (Async.inflight st !! i) as [tk|] eqn:E.
        + destruct (resume_decreases i tk bs st Hc Hbs E) as (Hc1 & Hlen & bs' & Hbs' & _).
          cbn [Async.do] in Hc1, Hlen, Hbs'. rewrite E in Hc1, Hlen, Hbs'.
          split; [exact Hc1|]. split; [eauto | lia].
        + split; [exact Hc|]. split; [eauto | lia]. }
    destruct H1 as (Hc1 & Hbs1 & Hlen1).
    destruct (IH _ Hc1 Hbs1) as (Hc' & Hbs' & Hlen').
    split; [exact Hc'|]. split; [exact Hbs'|].
    rewrite Hlen', Hlen1. cbn [Async.requests]. destruct mv; cbn; lia.
Qed.

(** Left to itself from a state of the invariant, the plugin comes to
    rest. *)
Lemma consistent_settles_down (m : nat) (bs : list nat) (st : Async.state World) :
  Async.consistent st -> suspended bs (Async.inflight st) ->
  (Async.cost bs (Async.base st) < m)%nat ->
  settles_down st.
Proof.
  revert bs st. induction m as [|m IH]; intros bs st Hc Hbs Hm; [lia|].
  constructor.
  - intros [Ht Hi]. destruct Hc as [HA HB _]. split.
    + apply Forall_forall. intros p Hp ->.
      apply list_elem_of_lookup in Hp as [i Hpi].
      destruct (HA i Hpi) as [(n & tm & Hn & _)|(tk & Hin & _)].
      * rewrite Ht, lookup_empty in Hn. discriminate.
      * rewrite Hi in Hin. apply elem_of_nil in Hin. exact Hin.
    + apply map_empty. intros q.
      destruct (saveQueues (Async.base st) !! q) as [e|] eqn:E; [|reflexivity].
      destruct (HB q e E) as (tm & Hn & _). rewrite Ht, lookup_empty in Hn. discriminate.
  - intros st' [(n & [tm Hn] & ->)|(i & [tk Hi] & ->)].
    + cbn [Async.do]. rewrite Hn.
      destruct (fire_decreases n tm bs st Hc Hbs Hn) as (Hc1 & _ & bs' & Hbs' & Hlt).
      apply (IH bs'); [exact Hc1 | exact Hbs' | lia].
    + destruct (resume_decreases i tk bs st Hc Hbs Hi) as (Hc1 & _ & bs' & Hbs' & Hlt).
      apply (IH bs'); [exact Hc1 | exact Hbs' | lia].
Qed.

(** While something is armed or suspended, the plugin can go on. *)
Lemma internal_progress (st : Async.state World) :
  ~ Async.at_rest st -> exists st', internal st st'.
Proof.
  intros Hn. destruct (Async.inflight st) as [|tk l] eqn:El.
  - destruct (map_to_list (timers (Async.base st))) as [|[n tm] ts] eqn:Et.
    + destruct Hn. split; [|exact El]. apply map_to_list_empty_iff. exact Et.
    + exists (do st (Async.Fire n)). left. exists n. split; [|reflexivity].
      exists tm. apply elem_of_map_to_list. rewrite Et. left.
  - exists (do st (Async.Resume 0)). right. exists 0%nat. split; [|reflexivity].
    rewrite El. exists tk. reflexivity.
Qed.

(** X22. No request is left hanging. Whatever the application does
    from a state in which nothing is pending (requests for any stores
    and keys, assignments, pauses), and however the timer callbacks and
    the calls they await inside [storageManager.set] are interleaved
    with it, every call of [saveToStorage] has returned one promise and
    the plugin, left to itself from there, comes to rest after finitely
    many steps in whatever order they are taken; at rest every promise
    is settled and the queue is empty.  No time by which this happens
    is stated: a save that is retried is still pending while the
    manager pauses. *)
Theorem every_request_settles (moves : list Async.move) (st0 : Async.state World) :
  Async.idle st0 ->
  let st := run moves st0 in
  settles_down st
  /\ (~ Async.at_rest st -> exists st', internal st st')
  /\ length (promises (Async.base st))
     = (length (promises (Async.base st0)) + Async.requests moves)%nat.
Proof.
  intros Hidle st.
  assert (Hs0 : exists bs, suspended bs (Async.inflight st0)).
  { exists []. destruct Hidle as ((_ & ->) & _). constructor. }
  destruct (run_consistent moves st0 (idle_consistent st0 Hidle) Hs0) as (Hc & [bs Hbs] & Hlen).
  split; [|split; [apply internal_progress | exact Hlen]].
  apply (consistent_settles_down (S (Async.cost bs (Async.base st))) bs);
    [exact Hc | exact Hbs | lia].
Qed.

End Async_settling.

Section Async_uninterrupted.

Import Pinia.

Context {World : Type}.
Variable local_get : StorageManager.query -> World -> World * result (list (string * value)).
Variable local_set : list (string * value) -> World -> World * result unit.
Variable Date_now : World -> Z.
Variable toISOString : value -> result string.
Variable storageManager : StorageManager.t.

#[local] Abbreviation exec := (Async.exec local_get local_set Date_now).
#[local] Abbreviation proceed := (Async.proceed (World := World) Date_now).
#[local] Abbreviation do := (Async.do local_get local_set Date_now toISOString storageManager).
#[local] Abbreviation run := (Async.run local_get local_set Date_now toISOString storageManager).

(** ** A callback that nothing interrupts *)

Lemma with_clock_twice (c c' : Z) (b : state World) :
  Async.with_clock c (Async.with_clock c' b) = Async.with_clock c b.
Proof. reflexivity. Qed.

Lemma with_clock_same (b : state World) : Async.with_clock (clock b) b = b.
Proof. destruct b. reflexivity. Qed.

Lemma with_manager_same (b : state World) : with_manager (manager b) b = b.
Proof. destruct b. reflexivity. Qed.

Lemma settle_with_clock (n : nat) (p : promise) (c : Z) (b : state World) :
  settle n p (Async.with_clock c b) = Async.with_clock c (settle n p b).
Proof.
  unfold settle. cbn [Async.with_clock promises].
  destruct (promises b !! n) as [[| |?]|]; reflexivity.
Qed.

Lemma finish_with_clock (tk : Async.task) (r : result bool) (c : Z) (b : state World) :
  Async.finish tk r (Async.with_clock c b) = Async.with_clock c (Async.finish tk r b).
Proof. unfold Async.finish. rewrite <- settle_with_clock. reflexivity. Qed.

(** Resuming a callback that is not suspended does nothing. *)
Lemma resume_none (k : nat) (b : state World) (l : list Async.task) :
  run (replicate k (Async.Resume (length l))) (Async.State b l) = Async.State b l.
Proof.
  induction k as [|k IH]; [reflexivity|].
  unfold Async.run. cbn [replicate foldl Async.do Async.inflight].
  rewrite (lookup_ge_None_2 l (length l)) by lia. exact IH.
Qed.

(** A callback resumed again and again, with nothing in between, ends
    as when it runs to its end at once; only the clock tells the
    pauses. *)
Lemma proceed_uninterrupted (n : nat) (p : Async.proc bool) :
  Async.bounded n p ->
  forall (qk : string) (i : nat) (since : Z) (q : Async.proc bool)
         (b : state World) (l : list Async.task),
  exists c,
    run (replicate n (Async.Resume (length l)))
      (proceed (Async.Task qk i since q) p (Async.State b l))
    = Async.State
        (Async.with_clock c
           (Async.finish (Async.Task qk i since q) (exec p (manager b)).2
              (with_manager (exec p (manager b)).1 b)))
        l.
Proof.
  assert (Hresume : forall k qk i t p b l,
    run (replicate (S k) (Async.Resume (length l)))
      (Async.State b (l ++ [Async.Task qk i t p]))
    = run (replicate k (Async.Resume (length l)))
        (Async.resume local_get local_set Date_now (Async.Task qk i t p)
           (Async.State b l))).
  { intros k qk i t p0 b l. unfold Async.run.
    cbn [replicate foldl Async.do Async.inflight Async.base].
    rewrite lookup_app_r by lia. rewrite Nat.sub_diag. cbn [lookup list_lookup].
    replace (delete (length l) (l ++ [Async.Task qk i t p0])) with l; [reflexivity|].
    rewrite delete_take_drop, take_app_length.
    rewrite drop_ge by (rewrite length_app; cbn; lia). symmetry. apply app_nil_r. }
  induction 1 as [n r|n keys k _ IH|n items k _ IH|n ms k _ IH|n k _ IH|n e k _ IH];
    intros qk i since q b l.
  - exists (clock b). unfold Async.proceed. cbn [Async.sync Async.exec fst snd Async.base
      Async.inflight].
    rewrite resume_none, with_manager_same.
    rewrite <- finish_with_clock, with_clock_same. reflexivity.
  - unfold Async.proceed at 1. cbn [Async.sync Async.base Async.inflight].
    rewrite with_manager_same, (Hresume n qk i). unfold Async.resume.
    cbn [Async.a_cont Async.base Async.inflight Async.exec].
    destruct (local_get keys (StorageManager.world (manager b))) as [w r].
    destruct (IH r qk i (clock b) (Async.Get keys k)
                (with_manager (StorageManager.State w (StorageManager.console (manager b))) b) l)
      as [c Hc].
    exists c. rewrite Hc. reflexivity.
  - unfold Async.proceed at 1. cbn [Async.sync Async.base Async.inflight].
    rewrite with_manager_same, (Hresume n qk i). unfold Async.resume.
    cbn [Async.a_cont Async.base Async.inflight Async.exec].
    destruct (local_set items (StorageManager.world (manager b))) as [w r].
    destruct (IH r qk i (clock b) (Async.Put items k)
                (with_manager (StorageManager.State w (StorageManager.console (manager b))) b) l)
      as [c Hc].
    exists c. rewrite Hc. reflexivity.
  - unfold Async.proceed at 1. cbn [Async.sync Async.base Async.inflight].
    rewrite with_manager_same, (Hresume n qk i). unfold Async.resume.
    cbn [Async.a_cont Async.a_since Async.base Async.inflight Async.exec].
    destruct (IH qk i (clock b) (Async.Pause ms k)
                (Async.with_clock (Z.max (clock b) (clock b + ms)) b) l) as [c Hc].
    exists c. rewrite Hc. cbn [Async.with_clock manager].
    change (with_manager ?m (Async.with_clock ?c0 b))
      with (Async.with_clock c0 (with_manager m b)).
    rewrite finish_with_clock. reflexivity.
  - destruct (IH (Date_now (StorageManager.world (manager b))) qk i since q b l) as [c Hc].
    exists c. exact Hc.
  - destruct (IH qk i since q
                (with_manager (StorageManager.State (StorageManager.world (manager b))
                                 (StorageManager.console (manager b) ++ [e])) b) l) as [c Hc].
    exists c. exact Hc.
Qed.

Lemma run_cons (mv : Async.move) (moves : list Async.move) (st : Async.state World) :
  run (mv :: moves) st = run moves (do st mv).
Proof. reflexivity. Qed.


End Async_uninterrupted.

(** X22, on a save that is retried twice.  At 750ms the promise of the
    request is still pending and its callback is suspended at the second
    pause of the manager; resumed three more times it writes the
    collection, reads it back and resolves the promise, at 900ms. *)
Lemma every_request_settles_witness :
  let st := Memory.async_run Memory.save_until_second_pause Memory.quiet_faulty in
  Async.settles_down Memory.local_get Memory.local_set Memory.time Memory.toISOString
    (StorageManager.new true) st
  /\ (~ Async.at_rest st ->
      exists st', Async.internal Memory.local_get Memory.local_set Memory.time
                    Memory.toISOString (StorageManager.new true) st st')
  /\ length (Pinia.promises (Async.base st))
     = (length (Pinia.promises (Async.base Memory.quiet_faulty))
        + Async.requests Memory.save_until_second_pause)%nat.
Proof.
  apply (every_request_settles Memory.local_get Memory.local_set Memory.time
           Memory.toISOString (StorageManager.new true)
           Memory.save_until_second_pause Memory.quiet_faulty).
  split; [split; reflexivity|]. split; [reflexivity | constructor].
Defined.

Example save_pending_while_manager_pauses :
  let st := Memory.async_run Memory.save_until_second_pause Memory.quiet_faulty in
  let st' := Memory.async_run [Async.Resume 0; Async.Resume 0; Async.Resume 0] st in
  Pinia.clock (Async.base st) = 750
  /\ Pinia.promises (Async.base st) = [Pinia.Pending]
  /\ Pinia.timers (Async.base st) = ∅
  /\ (fun tk => Async.pausing (Async.a_cont tk)) <$> Async.inflight st = [Some 400]
  /\ Pinia.clock (Async.base st') = 900
  /\ Pinia.promises (Async.base st') = [Pinia.Resolved]
  /\ Async.inflight st' = []
  /\ assoc "workflows" (Memory.data (StorageManager.world (Pinia.manager (Async.base st'))))
     = Some (Memory.one "a").
Proof.
  cbv zeta. split; [vm_compute; reflexivity|]. split; [vm_compute; reflexivity|].
  split; [vm_compute; reflexivity|]. split; [vm_compute; reflexivity|].
  split; [vm_compute; reflexivity|]. split; [vm_compute; reflexivity|].
  split; vm_compute; reflexivity.
Qed.

(** A request made while the callback of an earlier one is suspended
    does not cancel it: the entry of the key was deleted when the timer
    fired.  Both callbacks are then inside [storageManager.set] at once,
    and both promises are pending. *)
Example two_saves_in_flight :
  let st := Memory.async_run Memory.save_during_save Memory.quiet_faulty in
  Pinia.promises (Async.base st) = [Pinia.Pending; Pinia.Pending]
  /\ Async.a_settles <$> Async.inflight st = [0%nat; 1%nat]
  /\ Pinia.timers (Async.base st) = ∅
  /\ Pinia.saveQueues (Async.base st) = ∅.
Proof. cbv zeta. repeat split; vm_compute; reflexivity. Qed.

